(** * The subscription and broadcast engine of the live-ticker server

    A shallow embedding of [class YahooFinanceServer] of [src/index.js]:
    the three tables the server keeps ([clients], [activeSymbols],
    [stockPrices]), the handlers that mutate them, and the frames they hand
    to the client sockets.

    Modelling conventions.
    - A JS [Set] of strings and a JS [Map] keyed by strings iterate in
      insertion order; they are lists in that order ([JsSet], [JsMap]).
    - A JS number is either [NaN] or an exact rational: rounding to binary64,
      overflow to an infinity and the sign of zero are not modelled.
    - [Math.random()] and [Date.now()] read two oracles carried by the world,
      each with a cursor that moves by one on every call.
    - A socket of the [ws] package belongs to the network.  The world records
      for each socket its [readyState], whether [send] throws on it, and it
      keeps the list of all [send] calls the server made, in order.
    - Handlers run in a monad of JS completions: a computation ends normally
      with a value or abruptly with a thrown error, and the mutations made
      before a throw stay.
    - [console.log] and [console.error] have no effect on the tables and are
      left out.  Of the HTTP layer the model has the bodies that the JSON
      routes answer; of the timers, which intervals are armed. *)

From Stdlib Require Import List String Ascii Bool Arith ZArith QArith Qminmax Qround.
From Stdlib Require Import DecimalString Lia Lqa.
Import ListNotations.

Local Open Scope string_scope.
Local Open Scope list_scope.

(** ** Insertion-ordered sets of strings (JS [Set]) *)

Module JsSet.

Definition t := list string.

Definition empty : t := [].

Definition has (x : string) (s : t) : bool := existsb (String.eqb x) s.

(** [Set.prototype.add]: a new element goes last, a present one stays put. *)
Definition add (x : string) (s : t) : t := if has x s then s else s ++ [x].

Definition delete (x : string) (s : t) : t :=
  filter (fun y => negb (String.eqb x y)) s.

Definition size (s : t) : nat := List.length s.

(** Adding the elements of a list one after the other, as
    [l.forEach(x => s.add(x))] does. *)
Definition addAll (l : list string) (s : t) : t :=
  fold_left (fun acc x => add x acc) l s.

Definition deleteAll (l : list string) (s : t) : t :=
  fold_left (fun acc x => delete x acc) l s.

End JsSet.

(** ** Insertion-ordered maps keyed by strings (JS [Map]) *)

Module JsMap.

Definition t (V : Type) := list (string * V).

Section Ops.
Context {V : Type}.

Fixpoint get (k : string) (m : t V) : option V :=
  match m with
  | [] => None
  | (k', v) :: m' => if String.eqb k k' then Some v else get k m'
  end.

Definition has (k : string) (m : t V) : bool :=
  match get k m with Some _ => true | None => false end.

(** [Map.prototype.set]: a present key keeps its place and takes the new
    value, a new key goes last. *)
Fixpoint set (k : string) (v : V) (m : t V) : t V :=
  match m with
  | [] => [(k, v)]
  | (k', v') :: m' =>
      if String.eqb k k' then (k', v) :: m' else (k', v') :: set k v m'
  end.

Definition delete (k : string) (m : t V) : t V :=
  filter (fun e => negb (String.eqb k (fst e))) m.

Definition keys (m : t V) : list string := map fst m.

End Ops.

End JsMap.

(** ** JS numbers *)

(** A number is [NaN] or a finite value.  [NaN] is absorbing, as in JS.  On
    the finite values the arithmetic is exact, where JS rounds every result
    to the nearest binary64 value.  Rounding keeps the order of results, and
    what [Math.max] and [Math.min] return; it does not keep equations
    between different expressions, nor strict inequalities.  So the theorems
    on prices state comparisons that are not strict, between the values of
    the code's own expressions, and equations only where both sides are the
    same expression of the code. *)
Inductive number : Type :=
| NaN
| Fin (q : Q).

Module Num.

Definition lift2 (f : Q -> Q -> Q) (a b : number) : number :=
  match a, b with
  | Fin x, Fin y => Fin (f x y)
  | _, _ => NaN
  end.

Definition add : number -> number -> number := lift2 Qplus.
Definition sub : number -> number -> number := lift2 Qminus.
Definition mul : number -> number -> number := lift2 Qmult.

(** A finite value divided by zero is an infinity or [NaN] in JS; the model
    has no infinities and answers [NaN] there. *)
Definition div (a b : number) : number :=
  match a, b with
  | Fin x, Fin y => if Qeq_bool y 0 then NaN else Fin (x / y)
  | _, _ => NaN
  end.

(** The comparisons [a < b] and [a <= b]: false as soon as one side is
    [NaN]. *)
Definition lt (a b : number) : Prop :=
  match a, b with
  | Fin x, Fin y => (x < y)%Q
  | _, _ => False
  end.

Definition le (a b : number) : Prop :=
  match a, b with
  | Fin x, Fin y => (x <= y)%Q
  | _, _ => False
  end.

End Num.

(** ** Strings *)

(** [s.includes(search)]: [search] occurs in [s] at some position. *)
Fixpoint includes (s search : string) : bool :=
  if String.prefix search s then true
  else match s with
       | EmptyString => false
       | String _ rest => includes rest search
       end.

(** ** Price records *)

(** The object stored in [stockPrices] and sent as the [data] of a ticker
    frame.  [dayVolume] is a sum of [Math.floor] results and [time] a
    [Date.now()] reading, both integers. *)
Record PriceRecord : Type := {
  id : string;
  price : number;
  previousClose : number;
  change : number;
  changePercent : number;
  dayHigh : number;
  dayLow : number;
  dayVolume : Z;
  time : Z;
  currency : string;
  exchange : string
}.

(** The object literal [basePrices] of [initializeStockPrice]. *)
Definition basePrices : JsMap.t Q :=
  [ ("AAPL", 150%Q); ("MSFT", 300%Q); ("GOOGL", 2500%Q); ("GOOG", 2500%Q);
    ("AMZN", 3000%Q); ("TSLA", 800%Q); ("NVDA", 400%Q); ("META", 250%Q);
    ("NFLX", 400%Q); ("BTC-USD", 35000%Q); ("ETH-USD", 2000%Q);
    ("JPM", 140%Q); ("JNJ", 160%Q); ("V", 220%Q); ("PG", 140%Q) ].

(** [basePrices] is a plain object, so [basePrices[symbol]] also finds the
    members every object inherits from [Object.prototype]. *)
Definition Object_prototype_keys : list string :=
  [ "constructor"; "__defineGetter__"; "__defineSetter__"; "hasOwnProperty";
    "__lookupGetter__"; "__lookupSetter__"; "isPrototypeOf";
    "propertyIsEnumerable"; "toString"; "valueOf"; "__proto__";
    "toLocaleString" ].

(** What a property read on [basePrices] yields: a price of the table, an
    inherited function or object, or [undefined]. *)
Inductive Property : Type :=
| Own (v : Q)
| Inherited
| Undefined.

Definition basePrices_get (symbol : string) : Property :=
  match JsMap.get symbol basePrices with
  | Some v => Own v
  | None =>
      if existsb (String.eqb symbol) Object_prototype_keys then Inherited
      else Undefined
  end.

(** ** JSON values of client messages *)

(** The values [JSON.parse] returns, as far as the handlers look at them.
    Arrays carry strings (the protocol's symbol lists) and numbers are
    integers.  A request whose symbol list holds a value that is not a
    string has no counterpart here: the worlds of the model are those the
    server reaches through symbol lists of strings. *)
#[warnings="-register-all"]
Inductive Json : Type :=
| JNull
| JBool (b : bool)
| JNum (n : Z)
| JStr (s : string)
| JArr (elements : list string)
| JObj (members : list (string * Json)).

(** JS truthiness of a possibly [undefined] value. *)
Definition truthy (v : option Json) : bool :=
  match v with
  | None => false
  | Some JNull => false
  | Some (JBool b) => b
  | Some (JNum n) => negb (Z.eqb n 0)
  | Some (JStr s) => negb (String.eqb s "")
  | Some (JArr _) => true
  | Some (JObj _) => true
  end.

Definition Array_isArray (v : option Json) : bool :=
  match v with
  | Some (JArr _) => true
  | _ => false
  end.

(** The string a template literal [`${v}`] prints for a value.  An integer
    is printed in plain decimal, as JS does below [10^21]. *)
Definition ToString (v : option Json) : string :=
  match v with
  | None => "undefined"
  | Some JNull => "null"
  | Some (JBool true) => "true"
  | Some (JBool false) => "false"
  | Some (JNum n) => DecimalString.NilZero.string_of_int (Z.to_int n)
  | Some (JStr s) => s
  | Some (JArr l) => String.concat "," l
  | Some (JObj _) => "[object Object]"
  end.

(** ** Frames, sockets and the world *)

(** The four objects the server passes to [JSON.stringify] and [ws.send].
    The members that are constants ([status: 'connected']) are left out. *)
Inductive ServerMessage : Type :=
| Connection (clientId : string) (timestamp : Z)
| Ticker (data : PriceRecord)
| Pong (timestamp : Z)
| Error (message : string).

(** The [type] member of a frame. *)
Definition messageType (m : ServerMessage) : string :=
  match m with
  | Connection _ _ => "connection"
  | Ticker _ => "ticker"
  | Pong _ => "pong"
  | Error _ => "error"
  end.

Inductive ReadyState : Type := CONNECTING | OPEN | CLOSING | CLOSED.

Definition isOPEN (r : ReadyState) : bool :=
  match r with OPEN => true | _ => false end.

(** A socket as the server sees it: its state, and whether a [send] on it
    throws. *)
Record Socket : Type := {
  readyState : ReadyState;
  sendThrows : bool
}.

(** Sockets are objects with an identity; a reference names one. *)
Definition WsRef := nat.

(** One call of [ws.send]: the socket, the frame, and whether the call
    returned normally. *)
Record SendCall : Type := {
  target : WsRef;
  payload : ServerMessage;
  delivered : bool
}.

(** The value of an entry of [clients]. *)
Record Session : Type := {
  ws : WsRef;
  subscribedSymbols : JsSet.t;
  lastPing : Z
}.

(** The record has definitional eta, so that an update which changes nothing
    is the world itself. *)
#[projections(primitive)]
Record World : Type := {
  clients : JsMap.t Session;
  activeSymbols : JsSet.t;
  stockPrices : JsMap.t PriceRecord;
  sockets : WsRef -> Socket;
  wire : list SendCall;
  entropy : nat -> Q;
  draws : nat;
  wallClock : nat -> Z;
  clockReads : nat
}.

Definition set_clients (f : JsMap.t Session -> JsMap.t Session) (w : World) : World :=
  {| clients := f (clients w); activeSymbols := activeSymbols w;
     stockPrices := stockPrices w; sockets := sockets w; wire := wire w;
     entropy := entropy w; draws := draws w;
     wallClock := wallClock w; clockReads := clockReads w |}.

Definition set_activeSymbols (f : JsSet.t -> JsSet.t) (w : World) : World :=
  {| clients := clients w; activeSymbols := f (activeSymbols w);
     stockPrices := stockPrices w; sockets := sockets w; wire := wire w;
     entropy := entropy w; draws := draws w;
     wallClock := wallClock w; clockReads := clockReads w |}.

Definition set_stockPrices (f : JsMap.t PriceRecord -> JsMap.t PriceRecord) (w : World) : World :=
  {| clients := clients w; activeSymbols := activeSymbols w;
     stockPrices := f (stockPrices w); sockets := sockets w; wire := wire w;
     entropy := entropy w; draws := draws w;
     wallClock := wallClock w; clockReads := clockReads w |}.

Definition record_send (c : SendCall) (w : World) : World :=
  {| clients := clients w; activeSymbols := activeSymbols w;
     stockPrices := stockPrices w; sockets := sockets w; wire := wire w ++ [c];
     entropy := entropy w; draws := draws w;
     wallClock := wallClock w; clockReads := clockReads w |}.

Definition next_draw (w : World) : World :=
  {| clients := clients w; activeSymbols := activeSymbols w;
     stockPrices := stockPrices w; sockets := sockets w; wire := wire w;
     entropy := entropy w; draws := S (draws w);
     wallClock := wallClock w; clockReads := clockReads w |}.

Definition next_clock (w : World) : World :=
  {| clients := clients w; activeSymbols := activeSymbols w;
     stockPrices := stockPrices w; sockets := sockets w; wire := wire w;
     entropy := entropy w; draws := draws w;
     wallClock := wallClock w; clockReads := S (clockReads w) |}.

(** A move of the network: sockets change state behind the server's back. *)
Definition set_sockets (net : WsRef -> Socket) (w : World) : World :=
  {| clients := clients w; activeSymbols := activeSymbols w;
     stockPrices := stockPrices w; sockets := net; wire := wire w;
     entropy := entropy w; draws := draws w;
     wallClock := wallClock w; clockReads := clockReads w |}.

(** ** The monad of JS completions *)

Inductive Completion (A : Type) : Type :=
| Normal (a : A)
| Thrown.

Arguments Normal {A} a.
Arguments Thrown {A}.

Definition JS (A : Type) : Type := World -> Completion A * World.

Definition ret {A : Type} (a : A) : JS A := fun w => (Normal a, w).

Definition bind {A B : Type} (m : JS A) (k : A -> JS B) : JS B :=
  fun w =>
    match m w with
    | (Normal a, w') => k a w'
    | (Thrown, w') => (Thrown, w')
    end.

Definition throw {A : Type} : JS A := fun w => (Thrown, w).

(** [try { body } catch (error) { handler }] *)
Definition tryCatch (body handler : JS unit) : JS unit :=
  fun w =>
    match body w with
    | (Normal a, w') => (Normal a, w')
    | (Thrown, w') => handler w'
    end.

Definition gets {A : Type} (f : World -> A) : JS A := fun w => (Normal (f w), w).

Definition modify (f : World -> World) : JS unit := fun w => (Normal tt, f w).

Declare Scope js_scope.
Delimit Scope js_scope with js.
Notation "x <- m ;; k" := (bind m (fun x => k))
  (at level 61, m at next level, right associativity) : js_scope.
Notation "m ;; k" := (bind m (fun _ => k))
  (at level 61, right associativity) : js_scope.
Local Open Scope js_scope.

(** A loop with a local variable [b] that the callback may update; a throw
    in the callback leaves the loop. *)
Fixpoint foldM {A B : Type} (f : B -> A -> JS B) (l : list A) (b : B) : JS B :=
  match l with
  | [] => ret b
  | x :: l' => b' <- f b x ;; foldM f l' b'
  end.

(** [array.forEach(f)] *)
Definition forEach {A : Type} (l : list A) (f : A -> JS unit) : JS unit :=
  foldM (fun _ x => f x) l tt.

(** [map.forEach((value, key) => ...)] with a local variable.  The keys are
    visited in insertion order; a key deleted before its turn is skipped.
    (No callback of the server adds a key while it iterates.) *)
Definition Map_fold {V B : Type} (sel : World -> JsMap.t V)
    (f : B -> V -> string -> JS B) (b : B) : JS B :=
  m <- gets sel ;;
  foldM (fun b k =>
           cur <- gets sel ;;
           match JsMap.get k cur with
           | Some v => f b v k
           | None => ret b
           end) (JsMap.keys m) b.

Definition Map_forEach {V : Type} (sel : World -> JsMap.t V)
    (f : V -> string -> JS unit) : JS unit :=
  Map_fold sel (fun _ v k => f v k) tt.

(** [set.forEach(x => ...)], with the same convention. *)
Definition Set_forEach (sel : World -> JsSet.t) (f : string -> JS unit) : JS unit :=
  s <- gets sel ;;
  forEach s (fun x =>
               cur <- gets sel ;;
               if JsSet.has x cur then f x else ret tt).

(** ** The environment: [Math], [Date] and [ws.send] *)

Module Math.

(** [Math.random()]: the next draw of the oracle. *)
Definition random : JS Q :=
  fun w => (Normal (entropy w (draws w)), next_draw w).

Definition max (a b : number) : number := Num.lift2 Qmax a b.

Definition min (a b : number) : number := Num.lift2 Qmin a b.

Definition floor (q : Q) : Z := Qfloor q.

End Math.

Module Date.

(** [Date.now()]: the next reading of the clock. *)
Definition now : JS Z :=
  fun w => (Normal (wallClock w (clockReads w)), next_clock w).

End Date.

(** [ws.send(JSON.stringify(msg))] on the socket [r]. *)
Definition ws_send (r : WsRef) (msg : ServerMessage) : JS unit :=
  fun w =>
    if sendThrows (sockets w r)
    then (Thrown, record_send {| target := r; payload := msg; delivered := false |} w)
    else (Normal tt, record_send {| target := r; payload := msg; delivered := true |} w).

(** ** The server: [class YahooFinanceServer] *)

(** *** [generateClientId] *)

Definition digits36 : string := "0123456789abcdefghijklmnopqrstuvwxyz".

Definition digit36 (d : Z) : ascii :=
  match String.get (Z.to_nat d) digits36 with
  | Some c => c
  | None => "0"%char
  end.

(** The digits of a fraction [f] of [0,1) in radix 36, until the fraction is
    used up, [n] digits at most. *)
Fixpoint fraction36 (n : nat) (f : Q) : string :=
  match n with
  | O => ""
  | S n' =>
      if Qeq_bool f 0 then ""
      else let d := Qfloor (f * 36) in
           String (digit36 d) (fraction36 n' (f * 36 - inject_Z d))
  end.

(** [x.toString(36)] for a draw [x] of [0,1): "0." and the digits of the
    fraction, eleven at most; [generateClientId] keeps at most nine.  The
    digits are those of the exact expansion, cut off.  An engine prints the
    shortest digits that tell the double apart from its neighbours, with the
    last one rounded, so that its last digits can differ from these; the
    number of characters and the alphabet are the same. *)
Definition toString36 (x : Q) : string :=
  if Qeq_bool x 0 then "0" else ("0." ++ fraction36 11 x)%string.

(** [s.substr(start, length)] *)
Definition substr (start length : nat) (s : string) : string :=
  String.substring start length s.

Definition generateClientId : JS string :=
  r <- Math.random ;;
  ret ("client_" ++ substr 2 9 (toString36 r))%string.

(** *** [initializeStockPrice] *)

(** The record [initializeStockPrice] builds from the base price, the four
    draws it makes after choosing it, and the clock. *)
Definition initialRecord (symbol : string) (basePrice : number)
    (rChange rHigh rLow rVolume : Q) (now : Z) : PriceRecord :=
  let change := Num.mul (Num.mul (Fin (rChange - 0.5)) basePrice) (Fin 0.05) in
  let price := Math.max (Fin 0.01) (Num.add basePrice change) in
  {| id := symbol;
     price := price;
     previousClose := basePrice;
     change := change;
     changePercent := Num.mul (Num.div change basePrice) (Fin 100);
     dayHigh := Num.mul price (Fin (1 + rHigh * 0.03));
     dayLow := Num.mul price (Fin (1 - rLow * 0.03));
     dayVolume := Math.floor (rVolume * 50000000 + 1000000);
     time := now;
     currency := if includes symbol "USD" then "USD" else "USD";
     exchange := if includes symbol "USD" then "CRYPTO" else "NASDAQ" |}.

(** [basePrices[symbol] || (Math.random() * 200 + 50)].  A price of the table
    is taken when it is not zero, and only [undefined] (or a zero) makes the
    draw.  An inherited member is a function or an object, hence truthy: it
    is taken as the base price, and the model keeps of it what the code makes
    of it.  Its product with a number is [NaN]; its sum with a number is a
    string, of which [Math.max] makes [NaN]; so it stands as [NaN]. *)
Definition chooseBasePrice (symbol : string) : JS number :=
  match basePrices_get symbol with
  | Own v =>
      if Qeq_bool v 0
      then (r <- Math.random ;; ret (Fin (r * 200 + 50)))
      else ret (Fin v)
  | Inherited => ret NaN
  | Undefined => r <- Math.random ;; ret (Fin (r * 200 + 50))
  end.

Definition initializeStockPrice (symbol : string) : JS unit :=
  basePrice <- chooseBasePrice symbol ;;
  rChange <- Math.random ;;
  rHigh <- Math.random ;;
  rLow <- Math.random ;;
  rVolume <- Math.random ;;
  now <- Date.now ;;
  modify (set_stockPrices
            (JsMap.set symbol
               (initialRecord symbol basePrice rChange rHigh rLow rVolume now))).

(** *** [broadcastToClients] *)

(** The counter [sentCount] only feeds [console.log] and is left out. *)
Definition broadcastToClients (tickerData : PriceRecord) : JS unit :=
  Map_forEach (fun w => clients w) (fun client clientId =>
    if JsSet.has (id tickerData) (subscribedSymbols client) then
      tryCatch
        (state <- gets (fun w => readyState (sockets w (ws client))) ;;
         if isOPEN state
         then ws_send (ws client) (Ticker tickerData)
         else ret tt)
        (modify (set_clients (JsMap.delete clientId)))
    else ret tt).

(** *** [updatePrices] *)

Definition volatility (symbol : string) : Q :=
  if includes symbol "USD" then 0.02%Q else 0.01%Q.

(** The local [changePercent] of [updatePrices] for a draw [r]. *)
Definition stepChangePercent (symbol : string) (r : Q) : Q :=
  (r - 0.5) * volatility symbol.

(** The object [updatedData] of [updatePrices]. *)
Definition advanceRecord (symbol : string) (currentData : PriceRecord)
    (rDelta rVolume : Q) (now : Z) : PriceRecord :=
  let newPrice :=
    Math.max (Fin 0.01)
      (Num.mul (price currentData) (Fin (1 + stepChangePercent symbol rDelta))) in
  let change := Num.sub newPrice (previousClose currentData) in
  {| id := id currentData;
     price := newPrice;
     previousClose := previousClose currentData;
     change := change;
     changePercent := Num.mul (Num.div change (previousClose currentData)) (Fin 100);
     dayHigh := Math.max (dayHigh currentData) newPrice;
     dayLow := Math.min (dayLow currentData) newPrice;
     dayVolume := (dayVolume currentData + Math.floor (rVolume * 10000))%Z;
     time := now;
     currency := currency currentData;
     exchange := exchange currentData |}.

(** The callback of [this.activeSymbols.forEach] in [updatePrices]. *)
Definition updateSymbol (symbol : string) : JS unit :=
  currentData <- gets (fun w => JsMap.get symbol (stockPrices w)) ;;
  match currentData with
  | None => initializeStockPrice symbol
  | Some currentData =>
      rDelta <- Math.random ;;
      rVolume <- Math.random ;;
      now <- Date.now ;;
      let updatedData := advanceRecord symbol currentData rDelta rVolume now in
      modify (set_stockPrices (JsMap.set symbol updatedData)) ;;
      broadcastToClients updatedData
  end.

Definition updatePrices : JS unit :=
  n <- gets (fun w => JsSet.size (activeSymbols w)) ;;
  if Nat.eqb n 0 then ret tt
  else Set_forEach (fun w => activeSymbols w) updateSymbol.

(** *** Subscriptions *)

(** A mutation of the session object registered under [clientId]. *)
Definition mutateSession (clientId : string) (f : Session -> Session)
    (m : JsMap.t Session) : JsMap.t Session :=
  map (fun e => if String.eqb clientId (fst e) then (fst e, f (snd e)) else e) m.

Definition with_subscribedSymbols (f : JsSet.t -> JsSet.t) (c : Session) : Session :=
  {| ws := ws c; subscribedSymbols := f (subscribedSymbols c); lastPing := lastPing c |}.

Definition recalculateActiveSymbols : JS unit :=
  modify (set_activeSymbols (fun _ => JsSet.empty)) ;;
  Map_forEach (fun w => clients w) (fun client _ =>
    forEach (subscribedSymbols client) (fun symbol =>
      modify (set_activeSymbols (JsSet.add symbol)))).

(** The guard [!client || !symbols || !Array.isArray(symbols)] comes first;
    past it [symbols] is an array. *)
Definition handleSubscribe (clientId : string) (symbols : option Json) : JS unit :=
  client <- gets (fun w => JsMap.get clientId (clients w)) ;;
  match client with
  | None => ret tt
  | Some client =>
      if negb (truthy symbols) || negb (Array_isArray symbols) then ret tt
      else
        match symbols with
        | Some (JArr list) =>
            forEach list (fun symbol =>
              modify (set_clients
                        (mutateSession clientId
                           (with_subscribedSymbols (JsSet.add symbol)))) ;;
              modify (set_activeSymbols (JsSet.add symbol)) ;;
              known <- gets (fun w => JsMap.has symbol (stockPrices w)) ;;
              if known then ret tt else initializeStockPrice symbol) ;;
            forEach list (fun symbol =>
              currentData <- gets (fun w => JsMap.get symbol (stockPrices w)) ;;
              match currentData with
              | Some currentData => ws_send (ws client) (Ticker currentData)
              | None => ret tt
              end)
        | _ => ret tt
        end
  end.

Definition handleUnsubscribe (clientId : string) (symbols : option Json) : JS unit :=
  client <- gets (fun w => JsMap.get clientId (clients w)) ;;
  match client with
  | None => ret tt
  | Some client =>
      if negb (truthy symbols) || negb (Array_isArray symbols) then ret tt
      else
        match symbols with
        | Some (JArr list) =>
            forEach list (fun symbol =>
              modify (set_clients
                        (mutateSession clientId
                           (with_subscribedSymbols (JsSet.delete symbol))))) ;;
            recalculateActiveSymbols
        | _ => ret tt
        end
  end.

Definition handleClientDisconnect (clientId : string) : JS unit :=
  modify (set_clients (JsMap.delete clientId)) ;;
  recalculateActiveSymbols.

Definition cleanupConnections : JS unit :=
  removedCount <-
    Map_fold (fun w => clients w) (fun removedCount client clientId =>
      state <- gets (fun w => readyState (sockets w (ws client))) ;;
      if isOPEN state then ret removedCount
      else (modify (set_clients (JsMap.delete clientId)) ;;
            ret (S removedCount))) O ;;
  if Nat.ltb 0 removedCount then recalculateActiveSymbols else ret tt.

(** *** Client messages *)

(** [data.type] and [data.symbols]: reading a member of [null] throws a
    [TypeError]; an object yields the member or [undefined]; a boolean, a
    number, a string or an array has no member of either name. *)
Definition getMember (name : string) (data : Json) : JS (option Json) :=
  match data with
  | JNull => throw
  | JObj members => ret (JsMap.get name members)
  | _ => ret None
  end.

Definition handleClientMessage (clientId : string) (data : Json) : JS unit :=
  client <- gets (fun w => JsMap.get clientId (clients w)) ;;
  match client with
  | None => ret tt
  | Some client =>
      type <- getMember "type" data ;;
      let unknown :=
        ws_send (ws client) (Error ("Unknown message type: " ++ ToString type)%string) in
      match type with
      | Some (JStr t) =>
          if String.eqb t "subscribe" then
            (symbols <- getMember "symbols" data ;; handleSubscribe clientId symbols)
          else if String.eqb t "unsubscribe" then
            (symbols <- getMember "symbols" data ;; handleUnsubscribe clientId symbols)
          else if String.eqb t "ping" then
            (now <- Date.now ;; ws_send (ws client) (Pong now))
          else unknown
      | _ => unknown
      end
  end.

(** The [message] listener of the socket [socket], closed over the identifier
    [clientId].  [message] is what [JSON.parse] makes of the text: [None]
    when it throws a [SyntaxError].  The [catch] also takes what
    [handleClientMessage] throws. *)
Definition onMessage (clientId : string) (socket : WsRef) (message : option Json) : JS unit :=
  tryCatch
    (match message with
     | None => throw
     | Some data => handleClientMessage clientId data
     end)
    (ws_send socket (Error "Invalid JSON message")).

(** The [close] and the [error] listener. *)
Definition onClose (clientId : string) : JS unit := handleClientDisconnect clientId.

Definition onError (clientId : string) : JS unit := handleClientDisconnect clientId.

(** The [connection] listener for a new socket [socket]; its value is the
    identifier the three listeners above are closed over. *)
Definition onConnection (socket : WsRef) : JS string :=
  clientId <- generateClientId ;;
  now <- Date.now ;;
  modify (set_clients
            (JsMap.set clientId
               {| ws := socket; subscribedSymbols := JsSet.empty; lastPing := now |})) ;;
  now' <- Date.now ;;
  ws_send socket (Connection clientId now') ;;
  ret clientId.

(** The world right after the constructor: empty tables, nothing sent. *)
Definition boot (net : WsRef -> Socket) (rnd : nat -> Q) (clk : nat -> Z) : World :=
  {| clients := []; activeSymbols := JsSet.empty; stockPrices := [];
     sockets := net; wire := []; entropy := rnd; draws := O;
     wallClock := clk; clockReads := O |}.

(** ** Events and reachable worlds *)

(** What happens to the server: the listeners, the two timers, and the
    network changing the state of sockets. *)
Inductive Event : Type :=
| Connect (r : WsRef)
| Message (clientId : string) (r : WsRef) (message : option Json)
| Close (clientId : string)
| Fault (clientId : string)
| Sweep
| Tick
| Network (net : WsRef -> Socket).

Definition react (e : Event) (w : World) : World :=
  match e with
  | Connect r => snd (onConnection r w)
  | Message clientId r message => snd (onMessage clientId r message w)
  | Close clientId => snd (onClose clientId w)
  | Fault clientId => snd (onError clientId w)
  | Sweep => snd (cleanupConnections w)
  | Tick => snd (updatePrices w)
  | Network net => set_sockets net w
  end.

Inductive reachable : World -> Prop :=
| reachable_boot net rnd clk : reachable (boot net rnd clk)
| reachable_react e w : reachable w -> reachable (react e w).

(** The world after a list of events, in order. *)
Definition run (events : list Event) (w : World) : World :=
  fold_left (fun w e => react e w) events w.

Local Close Scope Q_scope.

(** ** The HTTP routes: [setupRoutes] *)

(** [c.toLowerCase()] for one character of ASCII text: the letters A to Z go
    to a to z, every other character stays.  (The tables of the routes are
    ASCII; on other text JS follows the Unicode case mappings, which the
    model does not have.) *)
Definition toLowerCaseChar (c : ascii) : ascii :=
  let n := nat_of_ascii c in
  if Nat.leb 65 n && Nat.leb n 90 then ascii_of_nat (n + 32) else c.

Fixpoint toLowerCase (s : string) : string :=
  match s with
  | EmptyString => EmptyString
  | String c rest => String (toLowerCaseChar c) (toLowerCase rest)
  end.

(** An entry of the two stock tables.  The entries of [popularStocks] have a
    [sector], those of [allStocks] have none. *)
Module Stock.

Record t : Type := {
  symbol : string;
  name : string;
  sector : option string
}.

End Stock.

Definition popularStocks : list Stock.t :=
  [ {| Stock.symbol := "AAPL"; Stock.name := "Apple Inc.";
       Stock.sector := Some "Technology" |};
    {| Stock.symbol := "MSFT"; Stock.name := "Microsoft Corporation";
       Stock.sector := Some "Technology" |};
    {| Stock.symbol := "GOOGL"; Stock.name := "Alphabet Inc.";
       Stock.sector := Some "Technology" |};
    {| Stock.symbol := "AMZN"; Stock.name := "Amazon.com Inc.";
       Stock.sector := Some "Consumer Discretionary" |};
    {| Stock.symbol := "TSLA"; Stock.name := "Tesla Inc.";
       Stock.sector := Some "Automotive" |};
    {| Stock.symbol := "NVDA"; Stock.name := "NVIDIA Corporation";
       Stock.sector := Some "Technology" |};
    {| Stock.symbol := "META"; Stock.name := "Meta Platforms Inc.";
       Stock.sector := Some "Technology" |};
    {| Stock.symbol := "NFLX"; Stock.name := "Netflix Inc.";
       Stock.sector := Some "Entertainment" |};
    {| Stock.symbol := "BTC-USD"; Stock.name := "Bitcoin USD";
       Stock.sector := Some "Cryptocurrency" |};
    {| Stock.symbol := "ETH-USD"; Stock.name := "Ethereum USD";
       Stock.sector := Some "Cryptocurrency" |};
    {| Stock.symbol := "GOOG"; Stock.name := "Alphabet Inc. Class C";
       Stock.sector := Some "Technology" |};
    {| Stock.symbol := "JPM"; Stock.name := "JPMorgan Chase & Co.";
       Stock.sector := Some "Financial" |};
    {| Stock.symbol := "JNJ"; Stock.name := "Johnson & Johnson";
       Stock.sector := Some "Healthcare" |};
    {| Stock.symbol := "V"; Stock.name := "Visa Inc.";
       Stock.sector := Some "Financial" |};
    {| Stock.symbol := "PG"; Stock.name := "Procter & Gamble Co.";
       Stock.sector := Some "Consumer Goods" |} ].

Definition allStocks : list Stock.t :=
  [ {| Stock.symbol := "AAPL"; Stock.name := "Apple Inc.";
       Stock.sector := None |};
    {| Stock.symbol := "MSFT"; Stock.name := "Microsoft Corporation";
       Stock.sector := None |};
    {| Stock.symbol := "GOOGL"; Stock.name := "Alphabet Inc.";
       Stock.sector := None |};
    {| Stock.symbol := "GOOG"; Stock.name := "Alphabet Inc. Class C";
       Stock.sector := None |};
    {| Stock.symbol := "AMZN"; Stock.name := "Amazon.com Inc.";
       Stock.sector := None |};
    {| Stock.symbol := "TSLA"; Stock.name := "Tesla Inc.";
       Stock.sector := None |};
    {| Stock.symbol := "NVDA"; Stock.name := "NVIDIA Corporation";
       Stock.sector := None |};
    {| Stock.symbol := "META"; Stock.name := "Meta Platforms Inc.";
       Stock.sector := None |};
    {| Stock.symbol := "NFLX"; Stock.name := "Netflix Inc.";
       Stock.sector := None |};
    {| Stock.symbol := "BTC-USD"; Stock.name := "Bitcoin USD";
       Stock.sector := None |};
    {| Stock.symbol := "ETH-USD"; Stock.name := "Ethereum USD";
       Stock.sector := None |};
    {| Stock.symbol := "JPM"; Stock.name := "JPMorgan Chase & Co.";
       Stock.sector := None |};
    {| Stock.symbol := "JNJ"; Stock.name := "Johnson & Johnson";
       Stock.sector := None |};
    {| Stock.symbol := "V"; Stock.name := "Visa Inc.";
       Stock.sector := None |};
    {| Stock.symbol := "PG"; Stock.name := "Procter & Gamble Co.";
       Stock.sector := None |};
    {| Stock.symbol := "BABA"; Stock.name := "Alibaba Group";
       Stock.sector := None |};
    {| Stock.symbol := "DIS"; Stock.name := "The Walt Disney Company";
       Stock.sector := None |};
    {| Stock.symbol := "PYPL"; Stock.name := "PayPal Holdings Inc.";
       Stock.sector := None |};
    {| Stock.symbol := "INTC"; Stock.name := "Intel Corporation";
       Stock.sector := None |};
    {| Stock.symbol := "AMD"; Stock.name := "Advanced Micro Devices";
       Stock.sector := None |} ].

(** The body [res.json] answers on [GET /api/popular-stocks]. *)
Definition popularStocksRoute : list Stock.t := popularStocks.

(** The body [res.json] answers on [GET /api/search/:query]; [query] is
    [req.params.query]. *)
Definition searchRoute (query : string) : list Stock.t :=
  let query := toLowerCase query in
  filter (fun stock =>
            includes (toLowerCase (Stock.symbol stock)) query
            || includes (toLowerCase (Stock.name stock)) query)
    allStocks.

(** The body of [GET /health].  [timestamp] is the instant [new Date()]
    reads from the clock, which [toISOString] prints. *)
Module Health.

Record t : Type := {
  status : string;
  activeClients : nat;
  activeSymbols : list string;
  timestamp : Z
}.

End Health.

(** [map.size] and [Array.from(set)] *)
Definition Map_size {V : Type} (m : JsMap.t V) : nat := List.length m.

Definition Array_from (s : JsSet.t) : list string := s.

Definition healthRoute : JS Health.t :=
  size <- gets (fun w => Map_size (clients w)) ;;
  symbols <- gets (fun w => Array_from (activeSymbols w)) ;;
  now <- Date.now ;;
  ret {| Health.status := "ok";
         Health.activeClients := size;
         Health.activeSymbols := symbols;
         Health.timestamp := now |}.

(** ** The timers and the life cycle *)

(** The two arrow functions the server hands to [setInterval]. *)
Inductive Callback : Type :=
| CleanupConnections
| UpdatePrices.

(** An interval armed in the event loop; [handle] stands for the identity of
    the object [setInterval] returns. *)
Record Interval : Type := {
  handle : nat;
  callback : Callback;
  delay : Z
}.

(** The two objects [stop] closes. *)
Inductive Closeable : Type :=
| Wss
| HttpServer.

(** The server object in its process: the tables, the member
    [priceUpdateInterval], the intervals that are armed, and the [close]
    calls made so far (what [close] does to the network is the business of
    [ws] and [http] and is not modelled). *)
Record Process : Type := {
  tables : World;
  priceUpdateInterval : option nat;
  intervals : list Interval;
  nextHandle : nat;
  closeCalls : list Closeable
}.

Definition setInterval (f : Callback) (ms : Z) (p : Process) : nat * Process :=
  (nextHandle p,
   {| tables := tables p;
      priceUpdateInterval := priceUpdateInterval p;
      intervals := intervals p ++ [ {| handle := nextHandle p; callback := f;
                                       delay := ms |} ];
      nextHandle := S (nextHandle p);
      closeCalls := closeCalls p |}).

Definition clearInterval (h : nat) (p : Process) : Process :=
  {| tables := tables p;
     priceUpdateInterval := priceUpdateInterval p;
     intervals := filter (fun i => negb (Nat.eqb (handle i) h)) (intervals p);
     nextHandle := nextHandle p;
     closeCalls := closeCalls p |}.

Definition close (c : Closeable) (p : Process) : Process :=
  {| tables := tables p;
     priceUpdateInterval := priceUpdateInterval p;
     intervals := intervals p;
     nextHandle := nextHandle p;
     closeCalls := closeCalls p ++ [c] |}.

(** [setupWebSocket] registers the [connection] listener ([onConnection])
    and arms the sweep; the object [setInterval] returns is dropped. *)
Definition setupWebSocket (p : Process) : Process :=
  snd (setInterval CleanupConnections 30000 p).

Definition startPriceSimulation (p : Process) : Process :=
  let (h, p') := setInterval UpdatePrices 2000 p in
  {| tables := tables p';
     priceUpdateInterval := Some h;
     intervals := intervals p';
     nextHandle := nextHandle p';
     closeCalls := closeCalls p' |}.

(** [new YahooFinanceServer()], the HTTP set-up apart. *)
Definition newServer (net : WsRef -> Socket) (rnd : nat -> Q) (clk : nat -> Z) : Process :=
  startPriceSimulation
    (setupWebSocket
       {| tables := boot net rnd clk;
          priceUpdateInterval := None;
          intervals := [];
          nextHandle := O;
          closeCalls := [] |}).

Definition stop (p : Process) : Process :=
  let p1 := match priceUpdateInterval p with
            | Some h => clearInterval h p
            | None => p
            end in
  close HttpServer (close Wss p1).

(** The event loop runs the callback of an armed interval. *)
Definition fire (i : Interval) (p : Process) : Process :=
  {| tables := match callback i with
               | CleanupConnections => snd (cleanupConnections (tables p))
               | UpdatePrices => snd (updatePrices (tables p))
               end;
     priceUpdateInterval := priceUpdateInterval p;
     intervals := intervals p;
     nextHandle := nextHandle p;
     closeCalls := closeCalls p |}.

(** What happens to a process: a listener runs, or an armed interval
    fires. *)
Inductive Happening : Type :=
| Listener (e : Event)
| Fires (i : Interval).

(** A listener event is none of the two timer events here; those come from
    the armed intervals alone. *)
Definition isTimerEvent (e : Event) : bool :=
  match e with
  | Sweep | Tick => true
  | _ => false
  end.

Definition enabled (h : Happening) (p : Process) : Prop :=
  match h with
  | Listener e => isTimerEvent e = false
  | Fires i => In i (intervals p)
  end.

Definition happen (h : Happening) (p : Process) : Process :=
  match h with
  | Listener e =>
      {| tables := react e (tables p);
         priceUpdateInterval := priceUpdateInterval p;
         intervals := intervals p;
         nextHandle := nextHandle p;
         closeCalls := closeCalls p |}
  | Fires i => fire i p
  end.

(** [p'] comes from [p] by happenings that are enabled when they occur. *)
Inductive evolves (p : Process) : Process -> Prop :=
| evolves_refl : evolves p p
| evolves_step h p' : evolves p p' -> enabled h p' -> evolves p (happen h p').

(** * The vocabulary of the properties *)

(** The definitions below are not of the source.  They name the worlds the
    handlers leave (each is proved to be what the handler computes), the
    predicates the theorems state, and the example worlds on which the
    theorems are run. *)

(** ** The worlds the handlers leave *)

(** How many draws [chooseBasePrice] makes, and the base price it returns. *)
Definition baseDraws (symbol : string) : nat :=
  match basePrices_get symbol with
  | Own v => if Qeq_bool v 0 then 1 else 0
  | Inherited => 0
  | Undefined => 1
  end.

Definition basePriceAt (symbol : string) (w : World) : number :=
  match basePrices_get symbol with
  | Own v => if Qeq_bool v 0 then Fin (entropy w (draws w) * 200 + 50) else Fin v
  | Inherited => NaN
  | Undefined => Fin (entropy w (draws w) * 200 + 50)
  end.

(** The record [initializeStockPrice symbol] stores when it starts in [w]. *)
Definition freshRecord (symbol : string) (w : World) : PriceRecord :=
  let d := (draws w + baseDraws symbol)%nat in
  initialRecord symbol (basePriceAt symbol w)
    (entropy w d) (entropy w (S d)) (entropy w (S (S d))) (entropy w (S (S (S d))))
    (wallClock w (clockReads w)).

(** The world [initializeStockPrice symbol] leaves. *)
Definition initialized (symbol : string) (w : World) : World :=
  {| clients := clients w; activeSymbols := activeSymbols w;
     stockPrices := JsMap.set symbol (freshRecord symbol w) (stockPrices w);
     sockets := sockets w; wire := wire w; entropy := entropy w;
     draws := S (S (S (S (draws w + baseDraws symbol))));
     wallClock := wallClock w; clockReads := S (clockReads w) |}.

(** The identifier [generateClientId] makes of the draw [r]. *)
Definition clientIdOf (r : Q) : string :=
  ("client_" ++ substr 2 9 (toString36 r))%string.

(** What the callback of [broadcastToClients] does for the key [clientId]. *)
Definition deliverTo (tickerData : PriceRecord) (w : World) (clientId : string) : World :=
  match JsMap.get clientId (clients w) with
  | None => w
  | Some client =>
      if JsSet.has (id tickerData) (subscribedSymbols client) then
        if isOPEN (readyState (sockets w (ws client))) then
          if sendThrows (sockets w (ws client)) then
            set_clients (JsMap.delete clientId)
              (record_send {| target := ws client; payload := Ticker tickerData;
                              delivered := false |} w)
          else
            record_send {| target := ws client; payload := Ticker tickerData;
                           delivered := true |} w
        else w
      else w
  end.

(** The set [recalculateActiveSymbols] builds from the sessions [m]. *)
Definition unionOfSessions (m : JsMap.t Session) : JsSet.t :=
  fold_left (fun acc k =>
               match JsMap.get k m with
               | Some c => JsSet.addAll (subscribedSymbols c) acc
               | None => acc
               end) (JsMap.keys m) JsSet.empty.

(** The world an unsubscribe, and a disconnect, leave. *)
Definition unsubscribed (clientId : string) (l : list string) (w : World) : World :=
  let w1 := set_clients
              (mutateSession clientId
                 (with_subscribedSymbols (JsSet.deleteAll l))) w in
  set_activeSymbols (fun _ => unionOfSessions (clients w1)) w1.

Definition disconnected (clientId : string) (w : World) : World :=
  let w1 := set_clients (JsMap.delete clientId) w in
  set_activeSymbols (fun _ => unionOfSessions (clients w1)) w1.

(** [if (!this.stockPrices.has(symbol)) this.initializeStockPrice(symbol)] *)
Definition ensured (symbol : string) (w : World) : World :=
  if JsMap.has symbol (stockPrices w) then w else initialized symbol w.

(** One turn of the first loop of [handleSubscribe], and the whole loop. *)
Definition subscribedOne (clientId : string) (w : World) (symbol : string) : World :=
  ensured symbol
    (set_activeSymbols (JsSet.add symbol)
       (set_clients
          (mutateSession clientId (with_subscribedSymbols (JsSet.add symbol))) w)).

Definition registered (clientId : string) (l : list string) (w : World) : World :=
  fold_left (subscribedOne clientId) l w.

(** The frames of the second loop, for a socket on which [send] returns. *)
Definition snapshotCalls (r : WsRef) (l : list string)
    (prices : JsMap.t PriceRecord) : list SendCall :=
  flat_map (fun s => match JsMap.get s prices with
                     | Some d => [ {| target := r; payload := Ticker d;
                                      delivered := true |} ]
                     | None => []
                     end) l.

Definition record_sends (cs : list SendCall) (w : World) : World :=
  {| clients := clients w; activeSymbols := activeSymbols w;
     stockPrices := stockPrices w; sockets := sockets w; wire := wire w ++ cs;
     entropy := entropy w; draws := draws w;
     wallClock := wallClock w; clockReads := clockReads w |}.

(** What the callback of [updatePrices] does for one symbol. *)
Definition updatedSymbol (w : World) (symbol : string) : World :=
  match JsMap.get symbol (stockPrices w) with
  | None => initialized symbol w
  | Some currentData =>
      let updatedData :=
        advanceRecord symbol currentData
          (entropy w (draws w)) (entropy w (S (draws w)))
          (wallClock w (clockReads w)) in
      fold_left (deliverTo updatedData) (JsMap.keys (clients w))
        (set_stockPrices (JsMap.set symbol updatedData)
           (next_clock (next_draw (next_draw w))))
  end.

(** The world a tick leaves. *)
Definition ticked (w : World) : World := fold_left updatedSymbol (activeSymbols w) w.

(** The sweep: one turn of its loop on the counter and the world. *)
Definition sweptOne (s : nat * World) (clientId : string) : nat * World :=
  match JsMap.get clientId (clients (snd s)) with
  | Some client =>
      if isOPEN (readyState (sockets (snd s) (ws client))) then s
      else (S (fst s), set_clients (JsMap.delete clientId) (snd s))
  | None => s
  end.

(** The member of a value that is not [null]. *)
Definition memberOf (name : string) (data : Json) : option Json :=
  match data with
  | JObj members => JsMap.get name members
  | _ => None
  end.

Definition isKnownType (type : option Json) : bool :=
  match type with
  | Some (JStr t) =>
      String.eqb t "subscribe" || String.eqb t "unsubscribe" || String.eqb t "ping"
  | _ => false
  end.

(** ** Predicates on records, frames and worlds *)

(** [dayLow <= price <= dayHigh] and [price > 0], as JS compares. *)
Definition priceInvariant (rec : PriceRecord) : Prop :=
  Num.le (dayLow rec) (price rec) /\
  Num.le (price rec) (dayHigh rec) /\
  Num.lt (Fin 0) (price rec).

(** Every record sits under its own symbol. *)
Definition keyed (m : JsMap.t PriceRecord) : Prop :=
  forall k r, JsMap.get k m = Some r -> id r = k.

(** The shape some theorems ask of a world: what a JS [Map] and a JS [Set]
    give for free, and each record under its own symbol. *)
Definition wellFormed (w : World) : Prop :=
  NoDup (JsMap.keys (clients w)) /\
  NoDup (activeSymbols w) /\
  keyed (stockPrices w).

(** The active set is in step with the sessions: it holds a symbol exactly
    when some registered session subscribes to it. *)
Definition activeInSync (w : World) : Prop :=
  forall s, In s (activeSymbols w) <->
            exists k c, JsMap.get k (clients w) = Some c /\
                        In s (subscribedSymbols c).

(** One half of it: every symbol a registered session subscribes to is
    active. *)
Definition sessionsCovered (w : World) : Prop :=
  forall k c s, JsMap.get k (clients w) = Some c ->
                In s (subscribedSymbols c) -> In s (activeSymbols w).

(** Nothing but the sent frames (and the clock) differs. *)
Definition sameTables (w w' : World) : Prop :=
  clients w' = clients w /\ activeSymbols w' = activeSymbols w /\
  stockPrices w' = stockPrices w /\ sockets w' = sockets w.

(** The parts of the world a fan-out leaves alone. *)
Definition sameTablesButClients (w w' : World) : Prop :=
  sockets w' = sockets w /\
  activeSymbols w' = activeSymbols w /\
  stockPrices w' = stockPrices w /\
  draws w' = draws w /\ clockReads w' = clockReads w /\
  entropy w' = entropy w /\ wallClock w' = wallClock w.

(** A client is due the record when it subscribes to its symbol and its
    socket is open; the send to it fails when, besides, [send] throws. *)
Definition wants (tickerData : PriceRecord) (w : World) (c : Session) : bool :=
  JsSet.has (id tickerData) (subscribedSymbols c)
  && isOPEN (readyState (sockets w (ws c))).

Definition sendFails (tickerData : PriceRecord) (w : World) (c : Session) : bool :=
  wants tickerData w c && sendThrows (sockets w (ws c)).

(** The calls of [ws.send] a fan-out over the sessions [m] makes. *)
Definition fanoutCalls (tickerData : PriceRecord) (w : World)
    (m : JsMap.t Session) : list SendCall :=
  flat_map (fun e =>
              if wants tickerData w (snd e)
              then [ {| target := ws (snd e); payload := Ticker tickerData;
                        delivered := negb (sendThrows (sockets w (ws (snd e)))) |} ]
              else []) m.

(** The tickers for the symbol [s] among some calls of [send]. *)
Definition isSnapshotOf (s : string) (call : SendCall) : bool :=
  delivered call &&
  match payload call with
  | Ticker d => String.eqb (id d) s
  | _ => false
  end.

Definition snapshotsOf (s : string) (calls : list SendCall) : nat :=
  List.length (filter (isSnapshotOf s) calls).

(** Calls that carry no ticker of [symbol]. *)
Definition silentAbout (symbol : string) (calls : list SendCall) : Prop :=
  forall call data, In call calls -> payload call = Ticker data -> id data <> symbol.

(** [w'] extends the sent frames of [w] without a ticker of [symbol]. *)
Definition quietAbout (symbol : string) (w w' : World) : Prop :=
  exists new, wire w' = wire w ++ new /\ silentAbout symbol new.

(** ** Example worlds *)

Definition exampleSocket (throws : bool) : Socket :=
  {| readyState := OPEN; sendThrows := throws |}.

Definition exampleRecord : PriceRecord :=
  initialRecord "AAPL" (Fin 150) 0.5 0.5 0.5 0.5 0.

(** Three sessions on "AAPL"; [send] throws on the socket of the second. *)
Definition exampleWorld : World :=
  {| clients :=
       [ ("client_a", {| ws := 0; subscribedSymbols := ["AAPL"]; lastPing := 0 |});
         ("client_b", {| ws := 1; subscribedSymbols := ["AAPL"]; lastPing := 0 |});
         ("client_c", {| ws := 2; subscribedSymbols := ["AAPL"; "MSFT"];
                         lastPing := 0 |}) ];
     activeSymbols := ["AAPL"; "MSFT"];
     stockPrices :=
       [ ("AAPL", exampleRecord);
         ("MSFT", initialRecord "MSFT" (Fin 300) 0.5 0.5 0.5 0.5 0) ];
     sockets := fun r => exampleSocket (Nat.eqb r 1);
     wire := [];
     entropy := fun _ => 0.5%Q; draws := 0;
     wallClock := fun n => Z.of_nat n; clockReads := 0 |}.

(** The world right after a start, with sockets that take every frame, a
    constant draw and a clock that counts its readings. *)
Definition exampleBoot : World :=
  boot (fun _ => exampleSocket false) (fun _ => 0.5%Q) (fun n => Z.of_nat n).

(** The subscribe request for the list [l]. *)
Definition subscribeRequest (l : list string) : Json :=
  JObj [("type", JStr "subscribe"); ("symbols", JArr l)].

(** A world with one client, fresh from its connection on socket 0, and the
    same world once [send] throws on every socket. *)
Definition oneClient : World := run [Connect 0] exampleBoot.

Definition oneClientCutOff : World :=
  run [Network (fun _ => exampleSocket true)] oneClient.

(** Two draws that differ, by less than the nine digits of radix 36 that an
    identifier keeps can tell. *)
Definition closeDraws (n : nat) : Q :=
  if Nat.eqb n 0 then ((1 # 2) + (1 # 2 ^ 50))%Q else ((1 # 2) + (1 # 2 ^ 51))%Q.

(** ** Text, ignoring the case of letters *)

Definition isUpperCase (c : ascii) : bool :=
  Nat.leb 65 (nat_of_ascii c) && Nat.leb (nat_of_ascii c) 90.

(** Two characters are the same letter when they are equal or one is the
    capital of the other. *)
Definition sameLetter (a b : ascii) : Prop :=
  a = b \/
  (isUpperCase a = true /\ nat_of_ascii b = nat_of_ascii a + 32) \/
  (isUpperCase b = true /\ nat_of_ascii a = nat_of_ascii b + 32).

Inductive sameText : string -> string -> Prop :=
| sameText_empty : sameText "" ""
| sameText_letter a b s t :
    sameLetter a b -> sameText s t -> sameText (String a s) (String b t).

(** [s] holds the text [q] somewhere, whatever the case of the letters. *)
Definition holdsText (s q : string) : Prop :=
  exists pre mid post, s = (pre ++ mid ++ post)%string /\ sameText mid q.

Definition isAscii (s : string) : Prop :=
  Forall (fun c => nat_of_ascii c < 128) (list_ascii_of_string s).

(** ** Relations every step of a handler keeps *)

(** The computation [m] takes every world to one that [R] relates to it,
    however it completes. *)
Definition keeps (R : World -> World -> Prop) {A : Type} (m : JS A) : Prop :=
  forall w, R w (snd (m w)).

(** ** What a record of the table looks like *)

(** A quote as the server keeps them under the symbol [k], as far as the
    comparisons of JS tell: a previous close of 50 at least, and a price of
    0.01 at least between a positive day low and the day high; besides, its
    own symbol, the currency and the exchange its symbol gives, and a volume
    of a million at least.  (Nothing is asked of [change] and
    [changePercent].) *)
Definition soundQuote (k : string) (rec : PriceRecord) : Prop :=
  id rec = k /\
  currency rec = "USD" /\
  exchange rec = (if includes k "USD" then "CRYPTO" else "NASDAQ") /\
  (1000000 <= dayVolume rec)%Z /\
  Num.le (Fin 50) (previousClose rec) /\
  Num.le (Fin 0.01) (price rec) /\
  Num.lt (Fin 0) (dayLow rec) /\
  Num.le (dayLow rec) (price rec) /\
  Num.le (price rec) (dayHigh rec).

(** Every record of a symbol that names no inherited member is a sound
    quote. *)
Definition soundQuotes (w : World) : Prop :=
  forall k rec,
    JsMap.get k (stockPrices w) = Some rec ->
    basePrices_get k <> Inherited -> soundQuote k rec.

(** [rec'] continues [rec]: the same symbol, previous close, currency and
    exchange, and no less volume. *)
Definition continues (rec rec' : PriceRecord) : Prop :=
  id rec' = id rec /\ previousClose rec' = previousClose rec /\
  currency rec' = currency rec /\ exchange rec' = exchange rec.

(** Every record of [w] is continued in [w']. *)
Definition recordsContinue (w w' : World) : Prop :=
  forall k rec,
    JsMap.get k (stockPrices w) = Some rec ->
    exists rec', JsMap.get k (stockPrices w') = Some rec' /\ continues rec rec'.

(** Every active symbol and every symbol of a session has a record. *)
Definition priced (w : World) : Prop :=
  (forall s, In s (activeSymbols w) -> JsMap.has s (stockPrices w) = true) /\
  (forall k c s, JsMap.get k (clients w) = Some c ->
                 In s (subscribedSymbols c) ->
                 JsMap.has s (stockPrices w) = true).

(** The sessions of [w'] are sessions of [w], on the same socket and with
    the same [lastPing]. *)
Definition sessionsStay (w w' : World) : Prop :=
  forall k c',
    JsMap.get k (clients w') = Some c' ->
    exists c, JsMap.get k (clients w) = Some c /\
              ws c' = ws c /\ lastPing c' = lastPing c.

Definition isConnect (e : Event) : bool :=
  match e with
  | Connect _ => true
  | _ => false
  end.

(** ** More example worlds *)

(** The one client after it subscribed to "AAPL", and that world after a
    tick. *)
Definition oneSubscriber : World :=
  run [Message "client_i" 0 (Some (subscribeRequest ["AAPL"]))] oneClient.

Definition oneSubscriberTicked : World := run [Tick] oneSubscriber.


(** ** The sends of a tick *)

(** [call] hands the ticker of [rec] to the open socket of a session of [w]
    that subscribes to the symbol of [rec]. *)
Definition dueTicker (w : World) (call : SendCall) (rec : PriceRecord) : Prop :=
  payload call = Ticker rec /\
  exists k c,
    JsMap.get k (clients w) = Some c /\
    target call = ws c /\
    In (id rec) (subscribedSymbols c) /\
    readyState (sockets w (ws c)) = OPEN /\
    delivered call = negb (sendThrows (sockets w (ws c))).

(** The sends a tick makes for the symbols [l] when no [send] throws: for
    each symbol in turn, the record the table [prices] holds goes to every
    session of [w] that is due it. *)
Definition tickCalls (w : World) (prices : JsMap.t PriceRecord)
    (l : list string) : list SendCall :=
  flat_map (fun s => match JsMap.get s prices with
                     | Some rec => fanoutCalls rec w (clients w)
                     | None => []
                     end) l.

(** ** The sweep *)

(** The socket of an entry of [clients] is open. *)
Definition socketOpen (w : World) (e : string * Session) : bool :=
  isOPEN (readyState (sockets w (ws (snd e)))).

(** ** Steps that only send *)

(** Nothing but the list of sent frames differs. *)
Definition onlySends (w w' : World) : Prop :=
  sameTablesButClients w w' /\ clients w' = clients w.

(** ** The two intervals of a new server *)

Definition sweepInterval : Interval :=
  {| handle := 0; callback := CleanupConnections; delay := 30000 |}.

Definition priceInterval : Interval :=
  {| handle := 1; callback := UpdatePrices; delay := 2000 |}.

(** The handles of the armed intervals were all given out already. *)
Definition handlesGivenOut (p : Process) : Prop :=
  Forall (fun i => handle i < nextHandle p) (intervals p).

(** ** Records without numbers *)

(** The numbers the record computes from the base price are all [NaN].
    (The previous close is the base price itself, an inherited function or
    object, and is left aside.) *)
Definition allNaN (rec : PriceRecord) : Prop :=
  price rec = NaN /\ change rec = NaN /\
  changePercent rec = NaN /\ dayHigh rec = NaN /\ dayLow rec = NaN.

(** Half the volatility of a symbol: the most a step moves the price, as a
    fraction of the price. *)
Definition halfWidth (symbol : string) : Q :=
  if includes symbol "USD" then 0.01%Q else 0.005%Q.

(** * Facts about the containers *)

Module JsSetFacts.
Import JsSet.

Lemma has_In x s : has x s = true <-> In x s.
Proof.
  unfold has. rewrite existsb_exists. split.
  - intros [y [Hy E]]. apply String.eqb_eq in E. now subst.
  - intros H. exists x. split; [assumption | apply String.eqb_refl].
Qed.

Lemma has_false x s : has x s = false <-> ~ In x s.
Proof.
  rewrite <- has_In. destruct (has x s); split; congruence.
Qed.

Lemma In_add y x s : In y (add x s) <-> y = x \/ In y s.
Proof.
  unfold add. destruct (has x s) eqn:E.
  - apply has_In in E. split; [now right | intros [-> | H]; assumption].
  - rewrite in_app_iff. simpl. intuition.
Qed.

Lemma In_delete y x s : In y (delete x s) <-> In y s /\ y <> x.
Proof.
  unfold delete. rewrite filter_In, negb_true_iff, String.eqb_neq.
  intuition.
Qed.

Lemma NoDup_add x s : NoDup s -> NoDup (add x s).
Proof.
  intros H. unfold add. destruct (has x s) eqn:E; [assumption |].
  apply has_false in E. apply NoDup_app; [assumption | | ].
  - constructor; [intros [] | constructor].
  - intros y Hy [<- | []]. contradiction.
Qed.

Lemma In_addAll y l s : In y (addAll l s) <-> In y l \/ In y s.
Proof.
  unfold addAll. revert s. induction l as [|x l IH]; intros s; simpl.
  - intuition.
  - rewrite IH, In_add. intuition.
Qed.

Lemma In_deleteAll y l s : In y (deleteAll l s) <-> In y s /\ ~ In y l.
Proof.
  unfold deleteAll. revert s. induction l as [|x l IH]; intros s; simpl.
  - intuition.
  - rewrite IH, In_delete. intuition.
Qed.

Lemma NoDup_addAll l s : NoDup s -> NoDup (addAll l s).
Proof.
  unfold addAll. revert s. induction l as [|x l IH]; intros s H; simpl.
  - assumption.
  - apply IH, NoDup_add, H.
Qed.

End JsSetFacts.

Module JsMapFacts.
Import JsMap.

Section Facts.
Context {V : Type}.

Lemma get_set_same k v (m : t V) : get k (set k v m) = Some v.
Proof.
  induction m as [|[k' v'] m IH]; simpl.
  - now rewrite String.eqb_refl.
  - destruct (String.eqb k k') eqn:E; simpl; rewrite E; auto.
Qed.

Lemma get_set_other k k' v (m : t V) : k <> k' -> get k' (set k v m) = get k' m.
Proof.
  intros Hne. induction m as [|[k0 v0] m IH]; simpl.
  - apply String.eqb_neq in Hne. rewrite String.eqb_sym in Hne.
    now rewrite Hne.
  - destruct (String.eqb k k0) eqn:E; simpl.
    + apply String.eqb_eq in E. subst k0.
      apply String.eqb_neq in Hne. rewrite String.eqb_sym in Hne.
      now rewrite Hne.
    + now rewrite IH.
Qed.

Lemma get_delete_same k (m : t V) : get k (delete k m) = None.
Proof.
  induction m as [|[k0 v0] m IH]; simpl; [reflexivity |].
  destruct (String.eqb k k0) eqn:E; simpl; [assumption |].
  now rewrite E.
Qed.

Lemma get_delete_other k k' (m : t V) : k <> k' -> get k' (delete k m) = get k' m.
Proof.
  intros Hne. induction m as [|[k0 v0] m IH]; simpl; [reflexivity |].
  destruct (String.eqb k k0) eqn:E; simpl.
  - apply String.eqb_eq in E. subst k0.
    apply String.eqb_neq in Hne. rewrite String.eqb_sym in Hne.
    now rewrite Hne.
  - now rewrite IH.
Qed.

Lemma get_In k v (m : t V) : get k m = Some v -> In (k, v) m.
Proof.
  induction m as [|[k0 v0] m IH]; simpl; [discriminate |].
  destruct (String.eqb k k0) eqn:E.
  - apply String.eqb_eq in E. intros [= ->]. subst. now left.
  - intros H. right. auto.
Qed.

Lemma get_None k (m : t V) : get k m = None <-> ~ In k (keys m).
Proof.
  induction m as [|[k0 v0] m IH]; simpl; [intuition |].
  destruct (String.eqb k k0) eqn:E.
  - apply String.eqb_eq in E. subst. split; [discriminate | intuition].
  - apply String.eqb_neq in E. rewrite IH. intuition congruence.
Qed.

Lemma keys_set k v (m : t V) :
  keys (set k v m) = if has k m then keys m else keys m ++ [k].
Proof.
  unfold has. induction m as [|[k0 v0] m IH]; simpl; [reflexivity |].
  destruct (String.eqb k k0) eqn:E; simpl; [reflexivity |].
  rewrite IH. now destruct (get k m).
Qed.

Lemma keys_delete k (m : t V) :
  keys (delete k m) = filter (fun k' => negb (String.eqb k k')) (keys m).
Proof.
  induction m as [|[k0 v0] m IH]; simpl; [reflexivity |].
  destruct (String.eqb k k0); simpl; now rewrite IH.
Qed.

Lemma NoDup_keys_set k v (m : t V) : NoDup (keys m) -> NoDup (keys (set k v m)).
Proof.
  intros H. rewrite keys_set. unfold has.
  destruct (get k m) eqn:E; [assumption |].
  apply get_None in E. apply NoDup_app; [assumption | | ].
  - constructor; [intros [] | constructor].
  - intros y Hy [<- | []]. contradiction.
Qed.

Lemma NoDup_keys_delete k (m : t V) : NoDup (keys m) -> NoDup (keys (delete k m)).
Proof. intros H. rewrite keys_delete. now apply NoDup_filter. Qed.

End Facts.

End JsMapFacts.

(** * Properties *)

Lemma run_reachable events w : reachable w -> reachable (run events w).
Proof.
  unfold run. revert w. induction events as [|e events IH]; intros w H; simpl;
    [assumption |].
  apply IH. now constructor.
Qed.

(** ** Substrings *)

Lemma prefix_app (a s : string) :
  String.prefix a s = true <-> exists post, s = (a ++ post)%string.
Proof.
  revert s. induction a as [|c a IH]; intros s; simpl.
  - split; [intros _; now exists s | intros _; now destruct s].
  - destruct s as [|c' s]; simpl.
    + split; [discriminate | intros [post H]; discriminate].
    + destruct (Ascii.ascii_dec c c') as [->|Hne].
      * rewrite IH. split; intros [post H]; exists post; congruence.
      * split; [discriminate | intros [post H]; congruence].
Qed.

Lemma includes_app (s search : string) :
  includes s search = true <->
  exists pre post, s = (pre ++ search ++ post)%string.
Proof.
  induction s as [|c s IH]; cbn [includes].
  - destruct (String.prefix search "") eqn:E.
    + split; [intros _ | now intros _].
      apply prefix_app in E. destruct E as [post E]. now exists "", post.
    + split; [discriminate |].
      intros [pre [post H]]. destruct pre; simpl in H.
      * assert (String.prefix search "" = true) by (apply prefix_app; eauto).
        congruence.
      * discriminate.
  - destruct (String.prefix search (String c s)) eqn:E.
    + split; [intros _ | now intros _].
      apply prefix_app in E. destruct E as [post E]. now exists "", post.
    + rewrite IH. split.
      * intros [pre [post H]]. exists (String c pre), post. simpl. now rewrite H.
      * intros [pre [post H]]. destruct pre as [|c' pre]; simpl in H.
        -- assert (String.prefix search (String c s) = true)
             by (apply prefix_app; eauto).
           congruence.
        -- exists pre, post. congruence.
Qed.

(** ** Running the environment calls *)

Lemma initializeStockPrice_run symbol w :
  initializeStockPrice symbol w = (Normal tt, initialized symbol w).
Proof.
  unfold initializeStockPrice, initialized, freshRecord, chooseBasePrice,
    basePriceAt, baseDraws.
  destruct (basePrices_get symbol) as [v | | ]; [destruct (Qeq_bool v 0) | | ];
    unfold bind, ret, modify, Math.random, Date.now, set_stockPrices,
      next_draw, next_clock; simpl;
    rewrite ?Nat.add_0_r, ?Nat.add_1_r; reflexivity.
Qed.

(** ** Currency and venue of a record (C9) *)

(** C9.  The record [initializeStockPrice] stores for a symbol has the
    currency "USD" whatever the symbol is; its exchange is "CRYPTO" exactly
    when the symbol contains "USD" somewhere and "NASDAQ" otherwise; and an
    advance of a record leaves both fields as they are. *)
Theorem currency_constant_exchange_by_substring :
  forall (symbol : string) (w : World),
    let w' := snd (initializeStockPrice symbol w) in
    exists rec : PriceRecord,
      JsMap.get symbol (stockPrices w') = Some rec /\
      currency rec = "USD" /\
      (exchange rec = "CRYPTO" <->
       exists pre post, symbol = (pre ++ "USD" ++ post)%string) /\
      (exchange rec = "NASDAQ" <->
       ~ exists pre post, symbol = (pre ++ "USD" ++ post)%string) /\
      forall sym rDelta rVolume now,
        currency (advanceRecord sym rec rDelta rVolume now) = "USD" /\
        exchange (advanceRecord sym rec rDelta rVolume now) = exchange rec.
Proof.
  intros symbol w. rewrite initializeStockPrice_run. simpl.
  exists (freshRecord symbol w). split; [apply JsMapFacts.get_set_same |].
  unfold freshRecord, initialRecord. cbn [currency exchange].
  rewrite <- (includes_app symbol "USD").
  destruct (includes symbol "USD") eqn:E.
  - repeat split; auto; try discriminate; intros; try congruence.
  - repeat split; auto; try discriminate; intros; try congruence.
Qed.

(** ** The per-step delta (C3) *)

Local Open Scope Q_scope.

Lemma volatility_cases symbol :
  (includes symbol "USD" = true /\ volatility symbol = 0.02) \/
  (includes symbol "USD" = false /\ volatility symbol = 0.01).
Proof.
  unfold volatility. destruct (includes symbol "USD"); auto.
Qed.

(** C3, as the code has it.  The delta of a step is [(r - 0.5) * volatility]
    for the draw [r], with [volatility] 0.02 for a symbol that contains "USD"
    and 0.01 for any other; the advance multiplies the price by one plus the
    delta and keeps 0.01 at least.  So the half-width [h] of the delta is
    half the volatility, 0.01 for the former symbols and 0.005 for the
    latter: for a draw of [0,1) the delta is no less than [- h], which is the
    delta of the draw 0, and no more than [h].  (The bounds are not strict,
    and hold of the rounded products as well.) *)
Theorem stepChangePercent_range :
  forall symbol : string,
    let h := if includes symbol "USD" then 0.01 else 0.005 in
    (forall r, stepChangePercent symbol r == (r - 0.5) * (2 * h)) /\
    (forall r, 0 <= r < 1 -> - h <= stepChangePercent symbol r <= h) /\
    stepChangePercent symbol 0 == - h /\
    (forall cd r rVolume now,
       price (advanceRecord symbol cd r rVolume now) =
       Math.max (Fin 0.01)
         (Num.mul (price cd) (Fin (1 + stepChangePercent symbol r)))).
Proof.
  intros symbol. cbv zeta.
  refine (conj _ (conj _ (conj _ (fun cd r rVolume now => eq_refl)))).
  - intros r. unfold stepChangePercent.
    destruct (volatility_cases symbol) as [[E V] | [E V]]; rewrite E, V; ring.
  - intros r Hr. unfold stepChangePercent.
    destruct (volatility_cases symbol) as [[E V] | [E V]]; rewrite E, V; lra.
  - unfold stepChangePercent.
    destruct (volatility_cases symbol) as [[E V] | [E V]]; rewrite E, V; lra.
Qed.

(** C3, as the claim has it, fails.  The deltas of an ordinary symbol stay
    within [-0.005, 0.005] and those of a symbol with "USD" within
    [-0.01, 0.01]: no draw of [0,1) gives the former a delta of 0.01 or of
    -0.01, nor the latter one of 0.02 or of -0.02, so the claimed ranges
    [-0.01, 0.01] and [-0.02, 0.02] are not attained. *)
Lemma claimed_delta_ranges_not_attained :
  (forall r, 0 <= r < 1 -> - 0.005 <= stepChangePercent "AAPL" r <= 0.005) /\
  (forall r, 0 <= r < 1 -> - 0.01 <= stepChangePercent "BTC-USD" r <= 0.01) /\
  (forall r, 0 <= r < 1 -> ~ stepChangePercent "AAPL" r == 0.01 /\
                           ~ stepChangePercent "AAPL" r == - 0.01) /\
  (forall r, 0 <= r < 1 -> ~ stepChangePercent "BTC-USD" r == 0.02 /\
                           ~ stepChangePercent "BTC-USD" r == - 0.02).
Proof.
  unfold stepChangePercent.
  change (volatility "AAPL") with 0.01.
  change (volatility "BTC-USD") with 0.02.
  repeat split; intros; lra.
Qed.

(** ** The price invariant (C2) *)

Lemma floor_positive (x : Q) : 0 < Qmax 0.01 x.
Proof.
  apply Qlt_le_trans with 0.01; [reflexivity | apply Q.le_max_l].
Qed.

(** A record built on a finite base price satisfies the invariant, for draws
    that are not negative. *)
Lemma initialRecord_invariant symbol (b rChange rHigh rLow rVolume : Q) now :
  0 <= rHigh -> 0 <= rLow ->
  priceInvariant (initialRecord symbol (Fin b) rChange rHigh rLow rVolume now).
Proof.
  intros Hh Hl. unfold priceInvariant, initialRecord. simpl.
  set (p := Qmax 0.01 (b + (rChange - 0.5) * b * 0.05)).
  assert (Hp : 0 < p) by apply floor_positive.
  repeat split; try assumption; nra.
Qed.

(** An advance re-establishes the invariant on every record that had it. *)
Lemma advanceRecord_invariant symbol cd rDelta rVolume now :
  priceInvariant cd ->
  priceInvariant (advanceRecord symbol cd rDelta rVolume now).
Proof.
  unfold priceInvariant, advanceRecord.
  destruct cd as [i p pc c cp hi lo v t cu ex]. simpl.
  destruct p as [|p], hi as [|hi], lo as [|lo]; simpl; try tauto.
  intros (Hlo & Hhi & Hp).
  repeat split.
  - apply Q.le_min_r.
  - apply Q.le_max_r.
  - apply floor_positive.
Qed.

(** Unless the symbol names an inherited member of the table, the record
    [initializeStockPrice] stores satisfies the invariant. *)
Lemma freshRecord_invariant symbol w :
  basePrices_get symbol <> Inherited ->
  (forall n, 0 <= entropy w n) ->
  priceInvariant (freshRecord symbol w).
Proof.
  intros Hown Hdraw. unfold freshRecord, basePriceAt.
  destruct (basePrices_get symbol) as [v | | ]; [| contradiction | ];
    try destruct (Qeq_bool v 0); apply initialRecord_invariant; apply Hdraw.
Qed.

(** A symbol that names an inherited member gets a record whose price is
    [NaN]. *)
Lemma freshRecord_inherited symbol w :
  basePrices_get symbol = Inherited ->
  price (freshRecord symbol w) = NaN /\
  dayHigh (freshRecord symbol w) = NaN /\
  dayLow (freshRecord symbol w) = NaN.
Proof.
  intros H. unfold freshRecord, basePriceAt. rewrite H. simpl. auto.
Qed.

Local Close Scope Q_scope.

(** C2 fails for a symbol that names a member every object inherits.  A
    client connects and subscribes to "constructor": [basePrices["constructor"]] is the function every object
    inherits, which is truthy, so no base price is drawn; its product with a
    number is [NaN], its sum with [NaN] is a string, and [Math.max] of 0.01
    and that string is [NaN].  The record that is stored and sent has [NaN]
    for its price, day high and day low; the floor does not help, no
    comparison with [NaN] holds, and the next tick keeps the price at
    [NaN]. *)
Theorem inherited_symbol_price_is_NaN :
  let w := run [Connect 0;
                Message "client_i" 0 (Some (subscribeRequest ["constructor"]))]
             exampleBoot in
  let w' := run [Tick] w in
  reachable w' /\
  basePrices_get "constructor" = Inherited /\
  (exists rec,
     JsMap.get "constructor" (stockPrices w) = Some rec /\
     price rec = NaN /\ dayHigh rec = NaN /\ dayLow rec = NaN /\
     (priceInvariant rec -> False) /\
     In {| target := 0; payload := Ticker rec; delivered := true |} (wire w)) /\
  (exists rec',
     JsMap.get "constructor" (stockPrices w') = Some rec' /\
     price rec' = NaN /\ (priceInvariant rec' -> False)).
Proof.
  cbv zeta. split; [apply run_reachable, run_reachable, reachable_boot |].
  split; [reflexivity |]. split.
  - eexists. split; [reflexivity |].
    split; [reflexivity |]. split; [reflexivity |]. split; [reflexivity |].
    split.
    + unfold priceInvariant. simpl. tauto.
    + simpl. right. now left.
  - eexists. split; [reflexivity |]. split; [reflexivity |].
    unfold priceInvariant. simpl. tauto.
Qed.

(** Everywhere else the invariant holds: the record stored for a symbol that
    names no inherited member satisfies it when the draws are not negative,
    and every advance of a record that satisfies it gives one that does. *)
Lemma price_invariant_elsewhere :
  forall (w : World) (symbol : string),
    basePrices_get symbol <> Inherited ->
    (forall n, (0 <= entropy w n)%Q) ->
    (exists rec,
       JsMap.get symbol (stockPrices (snd (initializeStockPrice symbol w))) =
         Some rec /\
       priceInvariant rec) /\
    (forall cd rDelta rVolume now,
       priceInvariant cd ->
       priceInvariant (advanceRecord symbol cd rDelta rVolume now)).
Proof.
  intros w symbol Hown Hdraw. split.
  - rewrite initializeStockPrice_run. simpl.
    exists (freshRecord symbol w).
    split; [apply JsMapFacts.get_set_same | now apply freshRecord_invariant].
  - intros cd rDelta rVolume now. apply advanceRecord_invariant.
Qed.

(** ** Loops whose callback always completes normally *)

Lemma foldM_total {A B : Type} (f : B -> A -> JS B)
    (val : B -> A -> World -> B) (step : B -> A -> World -> World) :
  (forall b x w, f b x w = (Normal (val b x w), step b x w)) ->
  forall l b w,
    foldM f l b w =
    (Normal (fst (fold_left (fun s x => (val (fst s) x (snd s), step (fst s) x (snd s))) l (b, w))),
     snd (fold_left (fun s x => (val (fst s) x (snd s), step (fst s) x (snd s))) l (b, w))).
Proof.
  intros Hf l. induction l as [|x l IH]; intros b w; simpl.
  - reflexivity.
  - unfold bind. rewrite Hf. apply IH.
Qed.

Lemma forEach_total {A : Type} (f : A -> JS unit) (step : A -> World -> World) :
  (forall x w, f x w = (Normal tt, step x w)) ->
  forall l w, forEach l f w = (Normal tt, fold_left (fun w x => step x w) l w).
Proof.
  intros Hf l. unfold forEach.
  induction l as [|x l IH]; intros w; simpl.
  - reflexivity.
  - unfold bind. rewrite Hf. apply IH.
Qed.

Lemma Map_forEach_total {V : Type} (sel : World -> JsMap.t V)
    (f : V -> string -> JS unit) (step : V -> string -> World -> World) :
  (forall v k w, f v k w = (Normal tt, step v k w)) ->
  forall w,
    Map_forEach sel f w =
    (Normal tt,
     fold_left (fun w k => match JsMap.get k (sel w) with
                           | Some v => step v k w
                           | None => w
                           end) (JsMap.keys (sel w)) w).
Proof.
  intros Hf w. unfold Map_forEach, Map_fold.
  unfold bind at 1. unfold gets at 1.
  generalize (JsMap.keys (sel w)) as l. generalize tt at 1 as b. intros b l.
  revert b w. induction l as [|k l IH]; intros b w; simpl.
  - now destruct b.
  - unfold bind at 1. unfold bind at 1. unfold gets at 1.
    destruct (JsMap.get k (sel w)) as [v|].
    + rewrite Hf. apply IH.
    + unfold ret at 1. apply IH.
Qed.

(** A property of worlds that every step of a fold keeps. *)
Lemma fold_left_invariant {A S : Type} (P : S -> Prop) (step : S -> A -> S) :
  (forall s x, P s -> P (step s x)) ->
  forall l s, P s -> P (fold_left step l s).
Proof.
  intros Hstep l. induction l as [|x l IH]; intros s Hs; simpl; auto.
Qed.

(** ** The fan-out (C4) *)

Lemma broadcastToClients_run tickerData w :
  broadcastToClients tickerData w =
  (Normal tt, fold_left (deliverTo tickerData) (JsMap.keys (clients w)) w).
Proof.
  unfold broadcastToClients.
  rewrite (Map_forEach_total (fun w => clients w) _
             (fun client clientId w =>
                if JsSet.has (id tickerData) (subscribedSymbols client) then
                  if isOPEN (readyState (sockets w (ws client))) then
                    if sendThrows (sockets w (ws client)) then
                      set_clients (JsMap.delete clientId)
                        (record_send {| target := ws client;
                                        payload := Ticker tickerData;
                                        delivered := false |} w)
                    else
                      record_send {| target := ws client;
                                     payload := Ticker tickerData;
                                     delivered := true |} w
                  else w
                else w)).
  - reflexivity.
  - intros client clientId w0.
    destruct (JsSet.has (id tickerData) (subscribedSymbols client)); [| reflexivity].
    unfold tryCatch, bind, gets, ws_send, modify, ret.
    destruct (isOPEN (readyState (sockets w0 (ws client)))); [| reflexivity].
    destruct (sendThrows (sockets w0 (ws client))); reflexivity.
Qed.

Lemma get_app_fresh {V : Type} (k : string) (pre m : JsMap.t V) :
  ~ In k (JsMap.keys pre) -> JsMap.get k (pre ++ m) = JsMap.get k m.
Proof.
  induction pre as [|[k0 v0] pre IH]; simpl; [reflexivity |].
  intros H. destruct (String.eqb k k0) eqn:E.
  - apply String.eqb_eq in E. subst. exfalso. apply H. now left.
  - apply IH. intros Hin. apply H. now right.
Qed.

Lemma delete_fresh {V : Type} (k : string) (m : JsMap.t V) :
  ~ In k (JsMap.keys m) -> JsMap.delete k m = m.
Proof.
  induction m as [|[k0 v0] m IH]; simpl; [reflexivity |].
  intros H. destruct (String.eqb k k0) eqn:E; simpl.
  - apply String.eqb_eq in E. subst. exfalso. apply H. now left.
  - f_equal. apply IH. intros Hin. apply H. now right.
Qed.

Lemma delete_app {V : Type} (k : string) (a b : JsMap.t V) :
  JsMap.delete k (a ++ b) = JsMap.delete k a ++ JsMap.delete k b.
Proof. unfold JsMap.delete. apply filter_app. Qed.

Lemma keys_filter_incl {V : Type} (p : string * V -> bool) (m : JsMap.t V) k :
  In k (JsMap.keys (filter p m)) -> In k (JsMap.keys m).
Proof.
  unfold JsMap.keys. rewrite !in_map_iff.
  intros [e [He Hin]]. apply filter_In in Hin. exists e. tauto.
Qed.

Lemma get_filter {V : Type} (p : string * V -> bool) (m : JsMap.t V) k v :
  NoDup (JsMap.keys m) ->
  JsMap.get k m = Some v ->
  JsMap.get k (filter p m) = if p (k, v) then Some v else None.
Proof.
  induction m as [|[k0 v0] m IH]; simpl; [discriminate |].
  intros Hnd. inversion Hnd as [|? ? Hfresh Hnd']; subst.
  destruct (String.eqb k k0) eqn:E.
  - apply String.eqb_eq in E. subst k0. intros [= ->].
    destruct (p (k, v)); simpl.
    + now rewrite String.eqb_refl.
    + apply JsMapFacts.get_None. intros Hin. apply Hfresh.
      eapply keys_filter_incl, Hin.
  - intros Hget. destruct (p (k0, v0)); simpl; rewrite ?E; auto.
Qed.

Lemma get_filter_None {V : Type} (p : string * V -> bool) (m : JsMap.t V) k :
  JsMap.get k m = None -> JsMap.get k (filter p m) = None.
Proof.
  rewrite !JsMapFacts.get_None. intros H Hin. apply H.
  eapply keys_filter_incl, Hin.
Qed.

Lemma sameTablesButClients_refl w : sameTablesButClients w w.
Proof. repeat split. Qed.

Lemma sameTablesButClients_trans w1 w2 w3 :
  sameTablesButClients w1 w2 -> sameTablesButClients w2 w3 ->
  sameTablesButClients w1 w3.
Proof.
  unfold sameTablesButClients.
  intros (A1 & A2 & A3 & A4 & A5 & A6 & A7) (B1 & B2 & B3 & B4 & B5 & B6 & B7).
  repeat split; congruence.
Qed.

Lemma deliverTo_registered tickerData w k c :
  JsMap.get k (clients w) = Some c ->
  deliverTo tickerData w k =
  if wants tickerData w c then
    if sendThrows (sockets w (ws c)) then
      set_clients (JsMap.delete k)
        (record_send {| target := ws c; payload := Ticker tickerData;
                        delivered := false |} w)
    else record_send {| target := ws c; payload := Ticker tickerData;
                        delivered := true |} w
  else w.
Proof.
  intros H. unfold deliverTo, wants. rewrite H.
  destruct (JsSet.has (id tickerData) (subscribedSymbols c)); [| reflexivity].
  destruct (isOPEN (readyState (sockets w (ws c)))); reflexivity.
Qed.

Lemma deliver_fold tickerData (w0 : World) :
  forall (rest pre : JsMap.t Session) (w : World),
    clients w = pre ++ rest ->
    NoDup (JsMap.keys (pre ++ rest)) ->
    sockets w = sockets w0 ->
    clients (fold_left (deliverTo tickerData) (JsMap.keys rest) w) =
      pre ++ filter (fun e => negb (sendFails tickerData w0 (snd e))) rest /\
    wire (fold_left (deliverTo tickerData) (JsMap.keys rest) w) =
      wire w ++ fanoutCalls tickerData w0 rest /\
    sameTablesButClients w (fold_left (deliverTo tickerData) (JsMap.keys rest) w).
Proof.
  induction rest as [|[k c] rest IH]; intros pre w Hcl Hnd Hso.
  - simpl. rewrite !app_nil_r in *. auto using sameTablesButClients_refl.
  - assert (Hk : ~ In k (JsMap.keys pre) /\ ~ In k (JsMap.keys rest)).
    { unfold JsMap.keys in *. rewrite map_app in Hnd. simpl in Hnd.
      apply NoDup_remove_2 in Hnd. rewrite in_app_iff in Hnd. tauto. }
    destruct Hk as [Hpre Hrest].
    assert (Hget : JsMap.get k (clients w) = Some c).
    { rewrite Hcl, get_app_fresh by assumption. simpl.
      now rewrite String.eqb_refl. }
    assert (Hnd' : NoDup (JsMap.keys ((pre ++ [(k, c)]) ++ rest)))
      by now rewrite <- app_assoc.
    assert (Hnd'' : NoDup (JsMap.keys (pre ++ rest))).
    { unfold JsMap.keys in *. rewrite map_app in *. simpl in Hnd.
      now apply NoDup_remove_1 in Hnd. }
    assert (Hw : wants tickerData w0 c = wants tickerData w c)
      by (unfold wants; now rewrite Hso).
    assert (Hf : sendFails tickerData w0 c =
                 wants tickerData w c && sendThrows (sockets w (ws c)))
      by (unfold sendFails; now rewrite Hw, Hso).
    change (JsMap.keys ((k, c) :: rest)) with (k :: JsMap.keys rest).
    cbn [fold_left]. rewrite (deliverTo_registered _ _ _ _ Hget).
    unfold fanoutCalls. cbn [flat_map filter snd].
    fold (fanoutCalls tickerData w0 rest). rewrite Hf, Hw, <- Hso.
    destruct (wants tickerData w c);
      [destruct (sendThrows (sockets w (ws c))) |]; cbn [andb negb app].
    + (* the send throws: the session goes *)
      match goal with |- context [fold_left _ _ ?w1] =>
        destruct (IH pre w1) as (H1 & H2 & H3) end; try assumption.
      * simpl. rewrite Hcl, delete_app. simpl. rewrite String.eqb_refl. simpl.
        fold (JsMap.delete k rest).
        now rewrite !delete_fresh by assumption.
      * rewrite H1, H2. simpl. rewrite <- app_assoc.
        split; [reflexivity | split; [reflexivity |]].
        eapply sameTablesButClients_trans; [| exact H3]. repeat split.
    + (* the send returns: the session stays *)
      match goal with |- context [fold_left _ _ ?w1] =>
        destruct (IH (pre ++ [(k, c)]) w1) as (H1 & H2 & H3) end; try assumption.
      * simpl. now rewrite Hcl, <- app_assoc.
      * rewrite H1, H2. simpl. rewrite <- !app_assoc.
        split; [reflexivity | split; [reflexivity |]].
        eapply sameTablesButClients_trans; [| exact H3]. repeat split.
    + destruct (IH (pre ++ [(k, c)]) w) as (H1 & H2 & H3); try assumption.
      * now rewrite Hcl, <- app_assoc.
      * rewrite H1, H2, <- !app_assoc.
        split; [reflexivity | split; [reflexivity | exact H3]].
Qed.

(** C4.  A fan-out of a record over sessions with distinct identifiers always
    completes normally.  It calls [send] once for every session that
    subscribes to the record's symbol and whose socket is open, in the order
    of the sessions and whether or not an earlier call threw; the sessions it
    removes are exactly those whose call threw, every other session stays as
    it was, and no other table changes. *)
Theorem fanout_isolates_send_failures :
  forall (tickerData : PriceRecord) (w : World),
    NoDup (JsMap.keys (clients w)) ->
    fst (broadcastToClients tickerData w) = Normal tt /\
    (let w' := snd (broadcastToClients tickerData w) in
     wire w' = wire w ++ fanoutCalls tickerData w (clients w) /\
     clients w' =
       filter (fun e => negb (sendFails tickerData w (snd e))) (clients w) /\
     sameTablesButClients w w' /\
     (forall clientId c,
        JsMap.get clientId (clients w) = Some c ->
        (wants tickerData w c = true ->
         In {| target := ws c; payload := Ticker tickerData;
               delivered := negb (sendThrows (sockets w (ws c))) |} (wire w')) /\
        JsMap.get clientId (clients w') =
          if sendFails tickerData w c then None else Some c) /\
     (forall clientId,
        JsMap.get clientId (clients w) = None ->
        JsMap.get clientId (clients w') = None)).
Proof.
  intros tickerData w Hnd. rewrite broadcastToClients_run. cbn [fst snd].
  split; [reflexivity |]. cbv zeta.
  destruct (deliver_fold tickerData w (clients w) [] w eq_refl Hnd eq_refl)
    as (Hc & Hw & Hframe).
  simpl in Hc. rewrite Hc, Hw.
  split; [reflexivity | split; [reflexivity | split; [assumption | split]]].
  - intros clientId c Hget. split.
    + intros Hwant. apply in_or_app. right.
      unfold fanoutCalls. apply in_flat_map.
      exists (clientId, c). split; [now apply JsMapFacts.get_In |].
      simpl. rewrite Hwant. now left.
    + rewrite (get_filter _ _ _ _ Hnd Hget). simpl.
      now destruct (sendFails tickerData w c).
  - intros clientId. apply get_filter_None.
Qed.

(** On the example world: the second of three sends throws, the third is
    still made, and only the second session goes. *)
Lemma fanout_isolates_send_failures_example :
  NoDup (JsMap.keys (clients exampleWorld)) /\
  fst (broadcastToClients exampleRecord exampleWorld) = Normal tt /\
  JsMap.keys (clients (snd (broadcastToClients exampleRecord exampleWorld))) =
    ["client_a"; "client_c"] /\
  map (fun c => (target c, delivered c))
    (wire (snd (broadcastToClients exampleRecord exampleWorld))) =
    [(0, true); (1, false); (2, true)].
Proof.
  assert (H : NoDup (JsMap.keys (clients exampleWorld))).
  { simpl. repeat constructor; simpl; intuition discriminate. }
  split; [exact H |].
  destruct (fanout_isolates_send_failures exampleRecord exampleWorld H)
    as (Hres & Hw & Hc & _).
  split; [exact Hres |]. rewrite Hw, Hc. split; reflexivity.
Defined.

(** ** Recomputing the active set *)

Lemma addAll_world l w :
  fold_left (fun w x => set_activeSymbols (JsSet.add x) w) l w =
  set_activeSymbols (JsSet.addAll l) w.
Proof.
  revert w. induction l as [|x l IH]; intros w; simpl; [reflexivity |].
  now rewrite IH.
Qed.

Lemma recalculateActiveSymbols_run w :
  recalculateActiveSymbols w =
  (Normal tt, set_activeSymbols (fun _ => unionOfSessions (clients w)) w).
Proof.
  unfold recalculateActiveSymbols. unfold bind at 1. unfold modify at 1.
  rewrite (Map_forEach_total (fun w => clients w) _
             (fun client _ w => set_activeSymbols
                                  (JsSet.addAll (subscribedSymbols client)) w)).
  - f_equal. unfold unionOfSessions. cbn [clients set_activeSymbols].
    generalize JsSet.empty as acc.
    generalize (JsMap.keys (clients w)) as l.
    induction l as [|k l IH]; intros acc; simpl; [reflexivity |].
    destruct (JsMap.get k (clients w)); apply IH.
  - intros client k w0.
    rewrite (forEach_total _ (fun x w => set_activeSymbols (JsSet.add x) w))
      by reflexivity.
    now rewrite addAll_world.
Qed.

Lemma In_unionOfSessions s m :
  In s (unionOfSessions m) <->
  exists k c, JsMap.get k m = Some c /\ In s (subscribedSymbols c).
Proof.
  unfold unionOfSessions.
  assert (G : forall l acc,
             In s (fold_left (fun acc k =>
                                match JsMap.get k m with
                                | Some c => JsSet.addAll (subscribedSymbols c) acc
                                | None => acc
                                end) l acc) <->
             In s acc \/
             exists k c, In k l /\ JsMap.get k m = Some c /\
                         In s (subscribedSymbols c)).
  { induction l as [|k l IH]; intros acc; simpl.
    - split; [auto | intros [H | (k & c & [] & _)]; assumption].
    - rewrite IH. destruct (JsMap.get k m) as [c|] eqn:E.
      + rewrite JsSetFacts.In_addAll. split.
        * intros [[H | H] | (k' & c' & H1 & H2 & H3)]; eauto 8.
        * intros [H | (k' & c' & [<- | H1] & H2 & H3)]; eauto 8.
          rewrite E in H2. inversion H2; subst. auto.
      + split.
        * intros [H | (k' & c' & H1 & H2 & H3)]; eauto 8.
        * intros [H | (k' & c' & [<- | H1] & H2 & H3)]; eauto 8.
          congruence. }
  rewrite G. split.
  - intros [[] | (k & c & _ & H)]. eauto.
  - intros (k & c & H1 & H2). right. exists k, c. repeat split; auto.
    apply JsMapFacts.get_In in H1. unfold JsMap.keys.
    apply in_map_iff. now exists (k, c).
Qed.

Lemma recalculated_inSync w :
  activeInSync (snd (recalculateActiveSymbols w)).
Proof.
  rewrite recalculateActiveSymbols_run. intros s. simpl.
  apply In_unionOfSessions.
Qed.

(** ** Mutating one session *)

Lemma get_mutateSession_same k f m :
  JsMap.get k (mutateSession k f m) =
  match JsMap.get k m with Some c => Some (f c) | None => None end.
Proof.
  induction m as [|[k0 c0] m IH]; simpl; [reflexivity |].
  destruct (String.eqb k k0) eqn:E; simpl; rewrite E; auto.
Qed.

Lemma get_mutateSession_other k k' f m :
  k <> k' -> JsMap.get k' (mutateSession k f m) = JsMap.get k' m.
Proof.
  intros Hne. induction m as [|[k0 c0] m IH]; simpl; [reflexivity |].
  destruct (String.eqb k k0) eqn:E; simpl.
  - apply String.eqb_eq in E. subst k0.
    apply String.eqb_neq in Hne. rewrite String.eqb_sym in Hne.
    now rewrite Hne.
  - now rewrite IH.
Qed.

Lemma keys_mutateSession k f m :
  JsMap.keys (mutateSession k f m) = JsMap.keys m.
Proof.
  induction m as [|[k0 c0] m IH]; simpl; [reflexivity |].
  destruct (String.eqb k k0); simpl; now rewrite IH.
Qed.

Lemma mutateSession_compose k f g m :
  mutateSession k f (mutateSession k g m) = mutateSession k (fun c => f (g c)) m.
Proof.
  induction m as [|[k0 c0] m IH]; simpl; [reflexivity |].
  destruct (String.eqb k k0) eqn:E; simpl; rewrite E, IH; reflexivity.
Qed.

Lemma mutateSession_ext k f g m :
  (forall c, f c = g c) -> mutateSession k f m = mutateSession k g m.
Proof.
  intros H. induction m as [|[k0 c0] m IH]; simpl; [reflexivity |].
  now rewrite IH, H.
Qed.

Lemma mutateSession_id k m :
  mutateSession k (with_subscribedSymbols (fun s => s)) m = m.
Proof.
  induction m as [|[k0 [r s p]] m IH]; simpl; [reflexivity |].
  rewrite IH. now destruct (String.eqb k k0).
Qed.

(** ** Unsubscribe and disconnect (C8) *)

Lemma set_clients_ext f g w :
  f (clients w) = g (clients w) -> set_clients f w = set_clients g w.
Proof. intros H. unfold set_clients. now rewrite H. Qed.

Lemma deleteAll_world clientId l w :
  fold_left (fun w x =>
               set_clients
                 (mutateSession clientId
                    (with_subscribedSymbols (JsSet.delete x))) w) l w =
  set_clients
    (mutateSession clientId (with_subscribedSymbols (JsSet.deleteAll l))) w.
Proof.
  revert w. induction l as [|x l IH]; intros w.
  - simpl. symmetry.
    change w with (set_clients (fun m => m) w) at 2.
    apply set_clients_ext. apply mutateSession_id.
  - cbn [fold_left]. rewrite IH.
    change (set_clients ?f (set_clients ?g w))
      with (set_clients (fun m => f (g m)) w).
    apply set_clients_ext. rewrite mutateSession_compose.
    apply mutateSession_ext. intros [r s p]. reflexivity.
Qed.

Lemma handleUnsubscribe_run clientId c l w :
  JsMap.get clientId (clients w) = Some c ->
  handleUnsubscribe clientId (Some (JArr l)) w =
  (Normal tt, unsubscribed clientId l w).
Proof.
  intros H. unfold handleUnsubscribe. unfold bind at 1. unfold gets at 1.
  rewrite H. cbn [truthy Array_isArray negb orb].
  unfold bind at 1.
  rewrite (forEach_total _
             (fun x w => set_clients
                           (mutateSession clientId
                              (with_subscribedSymbols (JsSet.delete x))) w))
    by reflexivity.
  rewrite deleteAll_world, recalculateActiveSymbols_run. reflexivity.
Qed.

Lemma handleUnsubscribe_ignored clientId symbols w :
  JsMap.get clientId (clients w) = None \/ Array_isArray symbols = false ->
  handleUnsubscribe clientId symbols w = (Normal tt, w).
Proof.
  intros H. unfold handleUnsubscribe. unfold bind at 1. unfold gets at 1.
  destruct (JsMap.get clientId (clients w)) as [c|]; [| reflexivity].
  destruct H as [H | H]; [discriminate |].
  rewrite H. cbn [negb]. now rewrite orb_true_r.
Qed.

Lemma handleClientDisconnect_run clientId w :
  handleClientDisconnect clientId w = (Normal tt, disconnected clientId w).
Proof.
  unfold handleClientDisconnect. unfold bind at 1. unfold modify at 1.
  now rewrite recalculateActiveSymbols_run.
Qed.

(** C8.  An unsubscribe of the list [l] by a registered client completes
    normally; the client's set loses exactly the symbols of [l], its socket
    and every other session stay as they were, the price table and the sent
    frames are untouched, and the active set is recomputed as the union of
    the sessions' sets.  So a symbol of [l] that no other session holds is
    not active afterwards while its record is still there; the same holds
    for every symbol only the client held when the client disconnects. *)
Theorem unsubscribe_keeps_price_records :
  forall (w : World) (clientId : string) (c : Session) (l : list string),
    JsMap.get clientId (clients w) = Some c ->
    let w' := snd (handleUnsubscribe clientId (Some (JArr l)) w) in
    let wd := snd (handleClientDisconnect clientId w) in
    fst (handleUnsubscribe clientId (Some (JArr l)) w) = Normal tt /\
    (exists c', JsMap.get clientId (clients w') = Some c' /\
                ws c' = ws c /\ lastPing c' = lastPing c /\
                forall x, In x (subscribedSymbols c') <->
                          In x (subscribedSymbols c) /\ ~ In x l) /\
    (forall k, k <> clientId ->
               JsMap.get k (clients w') = JsMap.get k (clients w)) /\
    stockPrices w' = stockPrices w /\
    wire w' = wire w /\
    activeInSync w' /\
    (forall s,
       In s l ->
       (forall k c0, k <> clientId -> JsMap.get k (clients w) = Some c0 ->
                     ~ In s (subscribedSymbols c0)) ->
       ~ In s (activeSymbols w') /\
       JsMap.get s (stockPrices w') = JsMap.get s (stockPrices w)) /\
    JsMap.get clientId (clients wd) = None /\
    (forall k, k <> clientId ->
               JsMap.get k (clients wd) = JsMap.get k (clients w)) /\
    stockPrices wd = stockPrices w /\
    activeInSync wd /\
    (forall s,
       (forall k c0, k <> clientId -> JsMap.get k (clients w) = Some c0 ->
                     ~ In s (subscribedSymbols c0)) ->
       ~ In s (activeSymbols wd) /\
       JsMap.get s (stockPrices wd) = JsMap.get s (stockPrices w)).
Proof.
  intros w clientId c l Hget.
  assert (Hsync : activeInSync (unsubscribed clientId l w))
    by (intros s; apply In_unionOfSessions).
  assert (Hsyncd : activeInSync (disconnected clientId w))
    by (intros s; apply In_unionOfSessions).
  rewrite (handleUnsubscribe_run _ _ _ _ Hget), handleClientDisconnect_run.
  cbn [fst snd]. cbv zeta.
  assert (Hc' : JsMap.get clientId (clients (unsubscribed clientId l w)) =
                Some (with_subscribedSymbols (JsSet.deleteAll l) c)).
  { simpl. now rewrite get_mutateSession_same, Hget. }
  assert (Hother : forall k, k <> clientId ->
            JsMap.get k (clients (unsubscribed clientId l w)) =
            JsMap.get k (clients w)).
  { intros k Hk. simpl. apply get_mutateSession_other. congruence. }
  split; [reflexivity |].
  split.
  { exists (with_subscribedSymbols (JsSet.deleteAll l) c).
    split; [exact Hc' |]. split; [reflexivity | split; [reflexivity |]].
    intros x. simpl. apply JsSetFacts.In_deleteAll. }
  split; [exact Hother |].
  split; [reflexivity |]. split; [reflexivity |].
  split; [exact Hsync |].
  split.
  { intros s Hs Hnone. split; [| reflexivity].
    intros Hin. apply Hsync in Hin. destruct Hin as (k & c0 & Hk & Hin).
    destruct (String.eqb_spec k clientId) as [-> | Hne].
    - rewrite Hc' in Hk. inversion Hk; subst. simpl in Hin.
      apply JsSetFacts.In_deleteAll in Hin. tauto.
    - rewrite Hother in Hk by assumption. eapply Hnone; eauto. }
  assert (Hotherd : forall k, k <> clientId ->
            JsMap.get k (clients (disconnected clientId w)) =
            JsMap.get k (clients w)).
  { intros k Hk. simpl. apply JsMapFacts.get_delete_other. congruence. }
  split; [simpl; apply JsMapFacts.get_delete_same |].
  split; [exact Hotherd |].
  split; [reflexivity |]. split; [exact Hsyncd |].
  intros s Hnone. split; [| reflexivity].
  intros Hin. apply Hsyncd in Hin. destruct Hin as (k & c0 & Hk & Hin).
  destruct (String.eqb_spec k clientId) as [-> | Hne].
  - simpl in Hk. now rewrite JsMapFacts.get_delete_same in Hk.
  - rewrite Hotherd in Hk by assumption. eapply Hnone; eauto.
Qed.

(** On the example world: the only holder of "MSFT" drops it; the symbol
    is no longer active and its record is still there. *)
Lemma unsubscribe_keeps_price_records_example :
  JsMap.get "client_c" (clients exampleWorld) =
    Some {| ws := 2; subscribedSymbols := ["AAPL"; "MSFT"]; lastPing := 0 |} /\
  ~ In "MSFT"
      (activeSymbols
         (snd (handleUnsubscribe "client_c" (Some (JArr ["MSFT"])) exampleWorld))) /\
  JsMap.get "MSFT"
    (stockPrices
       (snd (handleUnsubscribe "client_c" (Some (JArr ["MSFT"])) exampleWorld))) =
  JsMap.get "MSFT" (stockPrices exampleWorld).
Proof.
  split; [reflexivity |].
  destruct (unsubscribe_keeps_price_records exampleWorld "client_c"
              {| ws := 2; subscribedSymbols := ["AAPL"; "MSFT"]; lastPing := 0 |}
              ["MSFT"] eq_refl)
    as (_ & _ & _ & _ & _ & _ & Hlast & _).
  apply (Hlast "MSFT").
  - now left.
  - intros k c0 Hk Hget Hin. simpl in Hget.
    destruct (String.eqb k "client_a"); [inversion Hget; subst; simpl in Hin; intuition discriminate |].
    destruct (String.eqb k "client_b"); [inversion Hget; subst; simpl in Hin; intuition discriminate |].
    destruct (String.eqb_spec k "client_c"); [contradiction | discriminate].
Defined.

(** ** Subscribing (C6) *)

Lemma forEach_cons {A : Type} (x : A) (l : list A) (f : A -> JS unit) (w : World) :
  forEach (x :: l) f w =
  match f x w with
  | (Normal _, w') => forEach l f w'
  | (Thrown, w') => (Thrown, w')
  end.
Proof.
  unfold forEach. simpl. unfold bind.
  destruct (f x w) as [[[]|] w']; reflexivity.
Qed.

Lemma keyed_set k r m : keyed m -> id r = k -> keyed (JsMap.set k r m).
Proof.
  intros Hm Hr k' r' Hget. destruct (String.eqb_spec k k') as [<- | Hne].
  - rewrite JsMapFacts.get_set_same in Hget. congruence.
  - rewrite JsMapFacts.get_set_other in Hget by assumption. auto.
Qed.

Lemma record_sends_nil w : record_sends [] w = w.
Proof. unfold record_sends. now rewrite app_nil_r. Qed.

Lemma record_sends_cons c cs w :
  record_sends cs (record_send c w) = record_sends (c :: cs) w.
Proof. unfold record_sends, record_send. simpl. now rewrite <- app_assoc. Qed.

Lemma snapshots_delivered r l w :
  sendThrows (sockets w r) = false ->
  forEach l (fun symbol =>
               currentData <- gets (fun w => JsMap.get symbol (stockPrices w)) ;;
               match currentData with
               | Some currentData => ws_send r (Ticker currentData)
               | None => ret tt
               end) w =
  (Normal tt, record_sends (snapshotCalls r l (stockPrices w)) w).
Proof.
  revert w. induction l as [|x l IH]; intros w Hs.
  - simpl. now rewrite record_sends_nil.
  - rewrite forEach_cons. unfold bind at 1. unfold gets at 1.
    cbn [snapshotCalls flat_map].
    destruct (JsMap.get x (stockPrices w)) as [d|].
    + unfold ws_send at 1. rewrite Hs. rewrite IH by exact Hs.
      now rewrite record_sends_cons.
    + unfold ret at 1. now rewrite IH.
Qed.

(** Whether it throws or not, the second loop only adds to the sent frames. *)
Lemma snapshots_frame r l w res w' :
  forEach l (fun symbol =>
               currentData <- gets (fun w => JsMap.get symbol (stockPrices w)) ;;
               match currentData with
               | Some currentData => ws_send r (Ticker currentData)
               | None => ret tt
               end) w = (res, w') ->
  clients w' = clients w /\ activeSymbols w' = activeSymbols w /\
  stockPrices w' = stockPrices w /\ sockets w' = sockets w.
Proof.
  revert w. induction l as [|x l IH]; intros w.
  - simpl. intros [= _ <-]. auto.
  - rewrite forEach_cons. unfold bind at 1. unfold gets at 1.
    destruct (JsMap.get x (stockPrices w)) as [d|].
    + unfold ws_send at 1. destruct (sendThrows (sockets w r)).
      * intros [= _ <-]. simpl. auto.
      * intros H. apply IH in H. simpl in H. exact H.
    + unfold ret at 1. apply IH.
Qed.

Lemma handleSubscribe_first_loop clientId l w :
  forEach l (fun symbol =>
    modify (set_clients
              (mutateSession clientId
                 (with_subscribedSymbols (JsSet.add symbol)))) ;;
    modify (set_activeSymbols (JsSet.add symbol)) ;;
    known <- gets (fun w => JsMap.has symbol (stockPrices w)) ;;
    if known then ret tt else initializeStockPrice symbol) w =
  (Normal tt, registered clientId l w).
Proof.
  unfold registered.
  rewrite (forEach_total _ (fun x w => subscribedOne clientId w x)); [reflexivity |].
  intros x w0. unfold bind, modify, gets, subscribedOne, ensured.
  cbn [stockPrices set_activeSymbols set_clients].
  destruct (JsMap.has x (stockPrices w0)); [reflexivity |].
  apply initializeStockPrice_run.
Qed.

Lemma handleSubscribe_run clientId c l w :
  JsMap.get clientId (clients w) = Some c ->
  handleSubscribe clientId (Some (JArr l)) w =
  forEach l (fun symbol =>
               currentData <- gets (fun w => JsMap.get symbol (stockPrices w)) ;;
               match currentData with
               | Some currentData => ws_send (ws c) (Ticker currentData)
               | None => ret tt
               end) (registered clientId l w).
Proof.
  intros H. unfold handleSubscribe. unfold bind at 1. unfold gets at 1.
  rewrite H. cbn [truthy Array_isArray negb orb].
  unfold bind at 1. now rewrite handleSubscribe_first_loop.
Qed.

Lemma handleSubscribe_ignored clientId symbols w :
  JsMap.get clientId (clients w) = None \/ Array_isArray symbols = false ->
  handleSubscribe clientId symbols w = (Normal tt, w).
Proof.
  intros H. unfold handleSubscribe. unfold bind at 1. unfold gets at 1.
  destruct (JsMap.get clientId (clients w)) as [c|]; [| reflexivity].
  destruct H as [H | H]; [discriminate |].
  rewrite H. cbn [negb]. now rewrite orb_true_r.
Qed.

Lemma ensured_frame symbol w :
  clients (ensured symbol w) = clients w /\
  activeSymbols (ensured symbol w) = activeSymbols w /\
  sockets (ensured symbol w) = sockets w /\
  wire (ensured symbol w) = wire w.
Proof.
  unfold ensured. destruct (JsMap.has symbol (stockPrices w)); simpl; auto.
Qed.

Lemma ensured_prices symbol w :
  keyed (stockPrices w) ->
  keyed (stockPrices (ensured symbol w)) /\
  JsMap.has symbol (stockPrices (ensured symbol w)) = true /\
  (forall k, JsMap.has k (stockPrices w) = true ->
             JsMap.get k (stockPrices (ensured symbol w)) =
             JsMap.get k (stockPrices w)).
Proof.
  intros Hk. unfold ensured.
  destruct (JsMap.has symbol (stockPrices w)) eqn:E; simpl.
  - auto.
  - split; [apply keyed_set; [assumption | reflexivity] |].
    split; [unfold JsMap.has; now rewrite JsMapFacts.get_set_same |].
    intros k Hhas. apply JsMapFacts.get_set_other. intros <-. congruence.
Qed.

Lemma registered_frame clientId l w :
  sockets (registered clientId l w) = sockets w /\
  wire (registered clientId l w) = wire w.
Proof.
  unfold registered. revert w. induction l as [|x l IH]; intros w; simpl; [auto |].
  destruct (IH (subscribedOne clientId w x)) as [H1 H2]. rewrite H1, H2.
  unfold subscribedOne.
  destruct (ensured_frame x
              (set_activeSymbols (JsSet.add x)
                 (set_clients
                    (mutateSession clientId
                       (with_subscribedSymbols (JsSet.add x))) w)))
    as (_ & _ & H3 & H4).
  rewrite H3, H4. auto.
Qed.

Lemma registered_prices clientId l w :
  keyed (stockPrices w) ->
  keyed (stockPrices (registered clientId l w)) /\
  (forall s, In s l \/ JsMap.has s (stockPrices w) = true ->
             JsMap.has s (stockPrices (registered clientId l w)) = true).
Proof.
  unfold registered. revert w. induction l as [|x l IH]; intros w Hk; simpl.
  - split; [assumption | intros s [[] | H]; assumption].
  - set (w1 := set_activeSymbols (JsSet.add x)
                 (set_clients
                    (mutateSession clientId
                       (with_subscribedSymbols (JsSet.add x))) w)).
    destruct (ensured_prices x w1 Hk) as (Hk1 & Hx & Hkeep).
    destruct (IH (subscribedOne clientId w x) Hk1) as [Hk2 Hhas].
    split; [exact Hk2 |].
    intros s Hs. apply Hhas. unfold subscribedOne. fold w1.
    destruct Hs as [[<- | Hs] | Hs]; auto.
    right. unfold JsMap.has in *. rewrite Hkeep; assumption.
Qed.

Lemma snapshotsOf_snapshotCalls r l prices s :
  keyed prices ->
  (forall x, In x l -> JsMap.has x prices = true) ->
  snapshotsOf s (snapshotCalls r l prices) = count_occ string_dec l s.
Proof.
  intros Hk. unfold snapshotsOf, snapshotCalls.
  induction l as [|x l IH]; intros Hall; simpl; [reflexivity |].
  assert (Hx : JsMap.has x prices = true) by (apply Hall; now left).
  unfold JsMap.has in Hx. destruct (JsMap.get x prices) as [d|] eqn:E;
    [| discriminate].
  simpl. unfold isSnapshotOf at 1. simpl. rewrite (Hk _ _ E).
  specialize (IH (fun y Hy => Hall y (or_intror Hy))).
  destruct (string_dec x s) as [-> | Hne].
  - rewrite String.eqb_refl. simpl. now rewrite IH.
  - apply String.eqb_neq in Hne. now rewrite Hne.
Qed.

(** C6, as the code has it.  When a registered client whose socket takes the
    frames subscribes to the list [l], the server sends that client's socket
    one ticker per element of [l], each delivered, and calls [send] on no
    other socket: a symbol gets as many snapshots as the list names it, one
    when it is named once, whether or not the client held it before. *)
Theorem subscribe_snapshots_per_occurrence :
  forall (w : World) (clientId : string) (c : Session) (l : list string),
    JsMap.get clientId (clients w) = Some c ->
    keyed (stockPrices w) ->
    sendThrows (sockets w (ws c)) = false ->
    fst (handleSubscribe clientId (Some (JArr l)) w) = Normal tt /\
    exists new : list SendCall,
      wire (snd (handleSubscribe clientId (Some (JArr l)) w)) = wire w ++ new /\
      (forall call, In call new ->
                    target call = ws c /\ delivered call = true /\
                    messageType (payload call) = "ticker") /\
      (forall s, snapshotsOf s new = count_occ string_dec l s).
Proof.
  intros w clientId c l Hget Hk Hs.
  rewrite (handleSubscribe_run _ _ _ _ Hget).
  destruct (registered_frame clientId l w) as [Hso Hwire].
  destruct (registered_prices clientId l w Hk) as [Hk' Hhas].
  rewrite snapshots_delivered by (now rewrite Hso).
  cbn [fst snd]. split; [reflexivity |].
  exists (snapshotCalls (ws c) l (stockPrices (registered clientId l w))).
  split; [simpl; now rewrite Hwire |]. split.
  - intros call Hin. unfold snapshotCalls in Hin. apply in_flat_map in Hin.
    destruct Hin as (x & _ & Hin).
    destruct (JsMap.get x (stockPrices (registered clientId l w)));
      [| contradiction].
    destruct Hin as [<- | []]. auto.
  - intros s. apply snapshotsOf_snapshotCalls; [assumption |].
    intros x Hx. apply Hhas. now left.
Qed.

Lemma exampleWorld_keyed : keyed (stockPrices exampleWorld).
Proof.
  intros k r. simpl.
  destruct (String.eqb_spec k "AAPL") as [-> | _]; [now intros [= <-] |].
  destruct (String.eqb_spec k "MSFT") as [-> | _]; [now intros [= <-] |].
  discriminate.
Qed.

(** On the example world: a list that names "TSLA" twice and "AAPL" once. *)
Lemma subscribe_snapshots_per_occurrence_example :
  JsMap.get "client_a" (clients exampleWorld) =
    Some {| ws := 0; subscribedSymbols := ["AAPL"]; lastPing := 0 |} /\
  keyed (stockPrices exampleWorld) /\
  sendThrows (sockets exampleWorld 0) = false /\
  exists new : list SendCall,
    wire (snd (handleSubscribe "client_a" (Some (JArr ["TSLA"; "AAPL"; "TSLA"]))
                 exampleWorld)) = wire exampleWorld ++ new /\
    snapshotsOf "TSLA" new = 2 /\ snapshotsOf "AAPL" new = 1 /\
    snapshotsOf "MSFT" new = 0.
Proof.
  split; [reflexivity |]. split; [exact exampleWorld_keyed |].
  split; [reflexivity |].
  destruct (subscribe_snapshots_per_occurrence exampleWorld "client_a"
              {| ws := 0; subscribedSymbols := ["AAPL"]; lastPing := 0 |}
              ["TSLA"; "AAPL"; "TSLA"] eq_refl exampleWorld_keyed eq_refl)
    as (_ & new & Hw & _ & Hcount).
  exists new. split; [exact Hw |]. rewrite !Hcount. repeat split.
Defined.

(** C6, as the claim has it, fails.  A client that holds no symbol and names
    "AAPL" twice in one request is sent two snapshots of it; and on a socket
    whose [send] throws the request ends abruptly with none delivered. *)
Lemma subscribe_snapshots_not_exactly_one :
  JsMap.get "client_i" (clients oneClient) =
    Some {| ws := 0; subscribedSymbols := []; lastPing := 0 |} /\
  snapshotsOf "AAPL"
    (wire (snd (handleSubscribe "client_i" (Some (JArr ["AAPL"; "AAPL"]))
                  oneClient))) = 2 /\
  JsMap.get "client_i" (clients oneClientCutOff) =
    Some {| ws := 0; subscribedSymbols := []; lastPing := 0 |} /\
  fst (handleSubscribe "client_i" (Some (JArr ["AAPL"])) oneClientCutOff) = Thrown /\
  snapshotsOf "AAPL"
    (wire (snd (handleSubscribe "client_i" (Some (JArr ["AAPL"]))
                  oneClientCutOff))) = 0.
Proof. repeat split. Qed.

(** ** The tick *)

Lemma updateSymbol_run symbol w :
  updateSymbol symbol w = (Normal tt, updatedSymbol w symbol).
Proof.
  unfold updateSymbol, updatedSymbol. unfold bind at 1. unfold gets at 1.
  destruct (JsMap.get symbol (stockPrices w)) as [cd|].
  - unfold bind, Math.random, Date.now, modify. cbn [fst snd].
    now rewrite broadcastToClients_run.
  - apply initializeStockPrice_run.
Qed.

Lemma quietAbout_same_wire symbol w w' :
  wire w' = wire w -> quietAbout symbol w w'.
Proof.
  intros H. exists []. split; [now rewrite app_nil_r | intros call data []].
Qed.

Lemma quietAbout_refl symbol w : quietAbout symbol w w.
Proof. now apply quietAbout_same_wire. Qed.

Lemma quietAbout_trans symbol w1 w2 w3 :
  quietAbout symbol w1 w2 -> quietAbout symbol w2 w3 -> quietAbout symbol w1 w3.
Proof.
  intros (n1 & H1 & Q1) (n2 & H2 & Q2). exists (n1 ++ n2). split.
  - now rewrite H2, H1, app_assoc.
  - intros call data Hin. apply in_app_or in Hin. destruct Hin; eauto.
Qed.

(** A fan-out, over any list of keys, touches neither the prices nor the
    active set, and sends nothing but its record. *)
Lemma deliver_fold_frame tickerData l :
  forall w,
    stockPrices (fold_left (deliverTo tickerData) l w) = stockPrices w /\
    activeSymbols (fold_left (deliverTo tickerData) l w) = activeSymbols w /\
    exists new,
      wire (fold_left (deliverTo tickerData) l w) = wire w ++ new /\
      forall call, In call new -> payload call = Ticker tickerData.
Proof.
  induction l as [|k l IH]; intros w; cbn [fold_left].
  - repeat split. exists []. split; [now rewrite app_nil_r | intros call []].
  - destruct (IH (deliverTo tickerData w k)) as (H1 & H2 & new & H3 & H4).
    rewrite H1, H2, H3. unfold deliverTo.
    destruct (JsMap.get k (clients w)) as [c|];
      [destruct (JsSet.has (id tickerData) (subscribedSymbols c));
       [destruct (isOPEN (readyState (sockets w (ws c))));
        [destruct (sendThrows (sockets w (ws c))) |] |] |];
      cbn [stockPrices activeSymbols wire set_clients record_send];
      (split; [reflexivity | split; [reflexivity |]]);
      try (exists new; split; [reflexivity | assumption]).
    + eexists. rewrite <- app_assoc. split; [reflexivity |].
      intros call [<- | Hin]; auto.
    + eexists. rewrite <- app_assoc. split; [reflexivity |].
      intros call [<- | Hin]; auto.
Qed.

(** The turn of another symbol leaves the record of [symbol] alone and sends
    no ticker of [symbol]. *)
Lemma updatedSymbol_other symbol s w :
  s <> symbol ->
  keyed (stockPrices w) ->
  JsMap.get symbol (stockPrices (updatedSymbol w s)) =
    JsMap.get symbol (stockPrices w) /\
  keyed (stockPrices (updatedSymbol w s)) /\
  activeSymbols (updatedSymbol w s) = activeSymbols w /\
  quietAbout symbol w (updatedSymbol w s).
Proof.
  intros Hne Hk. unfold updatedSymbol.
  destruct (JsMap.get s (stockPrices w)) as [cd|] eqn:E.
  - match goal with |- context [fold_left (deliverTo ?d) ?l ?w1] =>
      destruct (deliver_fold_frame d l w1) as (H1 & H2 & new & H3 & H4)
    end.
    rewrite H1, H2. cbn [stockPrices activeSymbols set_stockPrices next_clock next_draw].
    split; [now apply JsMapFacts.get_set_other |].
    split; [apply keyed_set; [assumption | simpl; eauto] |].
    split; [reflexivity |].
    exists new. split; [exact H3 |].
    intros call data Hin Hp. rewrite (H4 _ Hin) in Hp. inversion Hp; subst.
    simpl. rewrite (Hk _ _ E). exact Hne.
  - simpl. split; [now apply JsMapFacts.get_set_other |].
    split; [apply keyed_set; [assumption | reflexivity] |].
    split; [reflexivity | now apply quietAbout_same_wire].
Qed.

Lemma updatedSymbol_fold_others symbol l :
  ~ In symbol l ->
  forall w,
    keyed (stockPrices w) ->
    JsMap.get symbol (stockPrices (fold_left updatedSymbol l w)) =
      JsMap.get symbol (stockPrices w) /\
    keyed (stockPrices (fold_left updatedSymbol l w)) /\
    activeSymbols (fold_left updatedSymbol l w) = activeSymbols w /\
    quietAbout symbol w (fold_left updatedSymbol l w).
Proof.
  induction l as [|s l IH]; intros Hnotin w Hk; cbn [fold_left].
  - repeat split; auto using quietAbout_refl.
  - assert (Hs : s <> symbol) by (intros ->; apply Hnotin; now left).
    destruct (updatedSymbol_other symbol s w Hs Hk) as (A1 & A2 & A3 & A4).
    destruct (IH (fun H => Hnotin (or_intror H)) (updatedSymbol w s) A2)
      as (B1 & B2 & B3 & B4).
    rewrite B1, B3, A1, A3. repeat split; auto.
    eapply quietAbout_trans; eassumption.
Qed.

Lemma updatedSymbol_keeps_active s w :
  activeSymbols (updatedSymbol w s) = activeSymbols w.
Proof.
  unfold updatedSymbol. destruct (JsMap.get s (stockPrices w)) as [cd|].
  - match goal with |- context [fold_left (deliverTo ?d) ?l ?w1] =>
      destruct (deliver_fold_frame d l w1) as (_ & H2 & _)
    end.
    now rewrite H2.
  - reflexivity.
Qed.

Lemma updatePrices_run w : updatePrices w = (Normal tt, ticked w).
Proof.
  unfold updatePrices, ticked. unfold bind at 1. unfold gets at 1.
  destruct (activeSymbols w) as [|s0 l0] eqn:Eact; [reflexivity |].
  cbn [JsSet.size List.length Nat.eqb]. unfold Set_forEach.
  unfold bind at 1. unfold gets at 1. rewrite <- Eact. clear Eact.
  assert (G : forall l w0,
             activeSymbols w0 = activeSymbols w ->
             (forall x, In x l -> In x (activeSymbols w)) ->
             forEach l (fun x => cur <- gets (fun w => activeSymbols w) ;;
                                 if JsSet.has x cur then updateSymbol x else ret tt) w0 =
             (Normal tt, fold_left updatedSymbol l w0)).
  { induction l as [|x l IH]; intros w0 Hact Hin; [reflexivity |].
    rewrite forEach_cons. unfold bind at 1. unfold gets at 1.
    assert (Hx : JsSet.has x (activeSymbols w0) = true).
    { rewrite Hact. apply JsSetFacts.has_In. apply Hin. now left. }
    rewrite Hx, updateSymbol_run. cbn [fold_left]. apply IH.
    - now rewrite updatedSymbol_keeps_active.
    - intros y Hy. apply Hin. now right. }
  apply G; [reflexivity | auto].
Qed.

(** ** The active set and the sessions (C1) *)

(** Subscribing keeps the active set in step: each turn of the first loop
    adds the symbol to the client's set and to the active set, and the second
    loop, thrown out of or not, only sends. *)
Lemma subscribedOne_inSync clientId x w :
  (exists c, JsMap.get clientId (clients w) = Some c) ->
  activeInSync w ->
  (exists c, JsMap.get clientId (clients (subscribedOne clientId w x)) = Some c) /\
  activeInSync (subscribedOne clientId w x).
Proof.
  intros [c Hc] Hsync. unfold subscribedOne.
  match goal with |- context [ensured x ?w1] =>
    destruct (ensured_frame x w1) as (E1 & E2 & _ & _) end.
  unfold activeInSync. rewrite E1, E2. cbn [clients activeSymbols set_activeSymbols set_clients].
  split.
  - rewrite get_mutateSession_same, Hc. eauto.
  - intros s. rewrite JsSetFacts.In_add, (Hsync s). split.
    + intros [-> | (k & c0 & Hk & Hin)].
      * exists clientId. eexists. rewrite get_mutateSession_same, Hc.
        split; [reflexivity |]. simpl. apply JsSetFacts.In_add. now left.
      * destruct (String.eqb_spec clientId k) as [<- | Hne].
        -- exists clientId. eexists. rewrite get_mutateSession_same, Hk.
           split; [reflexivity |]. simpl. apply JsSetFacts.In_add. now right.
        -- exists k, c0. now rewrite get_mutateSession_other.
    + intros (k & c0 & Hk & Hin).
      destruct (String.eqb_spec clientId k) as [<- | Hne].
      * rewrite get_mutateSession_same, Hc in Hk. inversion Hk; subst.
        simpl in Hin. apply JsSetFacts.In_add in Hin. destruct Hin; eauto.
      * rewrite get_mutateSession_other in Hk by assumption. eauto.
Qed.

Lemma handleSubscribe_inSync clientId symbols w :
  activeInSync w -> activeInSync (snd (handleSubscribe clientId symbols w)).
Proof.
  intros Hsync.
  destruct (JsMap.get clientId (clients w)) as [c|] eqn:Hc;
    [| now rewrite handleSubscribe_ignored by auto].
  destruct (Array_isArray symbols) eqn:Harr;
    [| now rewrite handleSubscribe_ignored by auto].
  destruct symbols as [[ | | | | l | ]|]; try discriminate.
  rewrite (handleSubscribe_run _ _ _ _ Hc).
  assert (Hreg : activeInSync (registered clientId l w)).
  { unfold registered. clear Harr.
    assert (Hex : exists c, JsMap.get clientId (clients w) = Some c) by eauto.
    clear Hc. revert w Hsync Hex.
    induction l as [|x l IH]; intros w Hsync Hex; simpl; [assumption |].
    destruct (subscribedOne_inSync clientId x w Hex Hsync). now apply IH. }
  match goal with |- context [forEach l ?f ?w1] =>
    destruct (forEach l f w1) as [res w'] eqn:Hrun end.
  apply snapshots_frame in Hrun. destruct Hrun as (F1 & F2 & _).
  unfold activeInSync. cbn [snd]. rewrite F1, F2. exact Hreg.
Qed.

Lemma handleUnsubscribe_inSync clientId symbols w :
  activeInSync w -> activeInSync (snd (handleUnsubscribe clientId symbols w)).
Proof.
  intros Hsync.
  destruct (JsMap.get clientId (clients w)) as [c|] eqn:Hc;
    [| now rewrite handleUnsubscribe_ignored by auto].
  destruct (Array_isArray symbols) eqn:Harr;
    [| now rewrite handleUnsubscribe_ignored by auto].
  destruct symbols as [[ | | | | l | ]|]; try discriminate.
  rewrite (handleUnsubscribe_run _ _ _ _ Hc).
  intros s. apply In_unionOfSessions.
Qed.

Lemma handleClientDisconnect_inSync clientId w :
  activeInSync (snd (handleClientDisconnect clientId w)).
Proof.
  rewrite handleClientDisconnect_run. intros s. apply In_unionOfSessions.
Qed.

Lemma cleanupConnections_run w :
  cleanupConnections w =
  let s := fold_left sweptOne (JsMap.keys (clients w)) (O, w) in
  if Nat.ltb 0 (fst s) then recalculateActiveSymbols (snd s)
  else (Normal tt, snd s).
Proof.
  unfold cleanupConnections, Map_fold. unfold bind at 1. unfold bind at 1.
  unfold gets at 1.
  rewrite (foldM_total _
             (fun b k w => fst (sweptOne (b, w) k))
             (fun b k w => snd (sweptOne (b, w) k))).
  - cbv zeta.
    assert (E : forall l s,
               fold_left (fun s x => (fst (sweptOne (fst s, snd s) x),
                                      snd (sweptOne (fst s, snd s) x))) l s =
               fold_left sweptOne l s).
    { induction l as [|x l IH]; intros s; simpl; [reflexivity |].
      rewrite IH. f_equal. destruct s. simpl.
      now destruct (sweptOne (n, w0) x). }
    rewrite E.
    destruct (Nat.ltb 0 (fst (fold_left sweptOne (JsMap.keys (clients w)) (O, w))));
      reflexivity.
  - intros b k w0. unfold sweptOne, bind, gets, modify, ret. cbn [fst snd].
    destruct (JsMap.get k (clients w0)) as [c|]; [| reflexivity].
    destruct (isOPEN (readyState (sockets w0 (ws c)))); reflexivity.
Qed.

Lemma sweep_counts l :
  forall s, fst s <= fst (fold_left sweptOne l s) /\
            (fst (fold_left sweptOne l s) = fst s ->
             snd (fold_left sweptOne l s) = snd s).
Proof.
  induction l as [|k l IH]; intros s; simpl; [auto |].
  destruct (IH (sweptOne s k)) as [H1 H2].
  unfold sweptOne in *.
  destruct (JsMap.get k (clients (snd s))) as [c|]; [| auto].
  destruct (isOPEN (readyState (sockets (snd s) (ws c)))); [auto |].
  simpl in *. split; lia.
Qed.

Lemma cleanupConnections_inSync w :
  activeInSync w -> activeInSync (snd (cleanupConnections w)).
Proof.
  intros Hsync. rewrite cleanupConnections_run. cbv zeta.
  destruct (sweep_counts (JsMap.keys (clients w)) (O, w)) as [_ Hsame].
  destruct (Nat.ltb 0 (fst (fold_left sweptOne (JsMap.keys (clients w)) (O, w))))
    eqn:E.
  - apply recalculated_inSync.
  - apply Nat.ltb_ge in E. cbn [snd]. rewrite Hsame; [exact Hsync |].
    simpl. lia.
Qed.

(** C1 fails on the fan-out.  One client connects and subscribes to "AAPL";
    then [send] starts to throw on its socket.  The next tick removes the
    session in the [catch] of [broadcastToClients], which does not recompute
    the active set: "AAPL" stays active with no session left, and the tick
    after that advances its record again (two more draws, a new time stamp)
    for no one. *)
Theorem fanout_failure_leaves_symbol_active :
  let w0 := run [Connect 0; Message "client_i" 0 (Some (subscribeRequest ["AAPL"]))]
              exampleBoot in
  let w1 := run [Network (fun _ => exampleSocket true); Tick] w0 in
  let w2 := run [Tick] w1 in
  reachable w1 /\
  (activeSymbols w0 = ["AAPL"] /\
   JsMap.get "client_i" (clients w0) =
     Some {| ws := 0; subscribedSymbols := ["AAPL"]; lastPing := 0 |}) /\
  (clients w1 = [] /\ activeSymbols w1 = ["AAPL"]) /\
  (activeInSync w1 -> False) /\
  (draws w2 = 2 + draws w1 /\
   option_map time (JsMap.get "AAPL" (stockPrices w1)) = Some 3%Z /\
   option_map time (JsMap.get "AAPL" (stockPrices w2)) = Some 4%Z).
Proof.
  cbv zeta. split; [apply run_reachable, run_reachable, reachable_boot |].
  split; [split; reflexivity |]. split; [split; reflexivity |].
  split; [| repeat split].
  intros Hsync.
  assert (Hin : In "AAPL" ["AAPL"]) by now left.
  apply (Hsync "AAPL") in Hin. destruct Hin as (k & c & Hk & _).
  discriminate.
Qed.

(** ** Accepting a connection (C5) *)

(** The identifier is made of the draw alone. *)
Lemma generateClientId_run w :
  generateClientId w = (Normal (clientIdOf (entropy w (draws w))), next_draw w).
Proof. reflexivity. Qed.

Lemma substring_length (s : string) :
  forall start len, String.length (String.substring start len s) <= len.
Proof.
  induction s as [|a s IH]; intros start len.
  - destruct start, len; simpl; lia.
  - destruct start as [|start]; [| exact (IH start len)].
    destruct len as [|len]; simpl; [lia |].
    specialize (IH 0 len). lia.
Qed.

Lemma prefix_append (s t : string) : String.prefix s (s ++ t) = true.
Proof.
  induction s as [|a s IH]; [destruct t; reflexivity |].
  cbn [append String.prefix]. destruct (ascii_dec a a); [exact IH | congruence].
Qed.

Lemma clientIdOf_length (x : Q) : String.length (clientIdOf x) <= 16.
Proof.
  unfold clientIdOf, substr. cbn [append String.length].
  pose proof (substring_length (toString36 x) 2 9). lia.
Qed.

(** C5, as the code has it.  An accept on the socket [r] takes its
    identifier from [generateClientId], which makes it of the next draw and
    of nothing else: it starts with "client_", has nine more characters at
    most, and is the same in every world whose next draw is the same,
    whatever identifiers are registered there.  The accept registers under
    it a session with the socket [r], an empty set of symbols and the clock
    reading, in place of any session already there, leaves every other
    session alone, and then at once calls [send] on [r] with a connection
    frame that carries the identifier. *)
Theorem accept_registers_and_acknowledges :
  forall (w : World) (r : WsRef),
    exists clientId : string,
      fst (generateClientId w) = Normal clientId /\
      String.prefix "client_" clientId = true /\
      String.length clientId <= 16 /\
      (forall w0 : World,
         entropy w0 (draws w0) = entropy w (draws w) ->
         fst (generateClientId w0) = Normal clientId) /\
      let w' := snd (onConnection r w) in
      fst (onConnection r w) =
        (if sendThrows (sockets w r) then Thrown else Normal clientId) /\
      JsMap.get clientId (clients w') =
        Some {| ws := r; subscribedSymbols := JsSet.empty;
                lastPing := wallClock w (clockReads w) |} /\
      (forall k, k <> clientId ->
                 JsMap.get k (clients w') = JsMap.get k (clients w)) /\
      wire w' =
        wire w ++ [ {| target := r;
                       payload := Connection clientId (wallClock w (S (clockReads w)));
                       delivered := negb (sendThrows (sockets w r)) |} ] /\
      activeSymbols w' = activeSymbols w /\
      stockPrices w' = stockPrices w.
Proof.
  intros w r. exists (clientIdOf (entropy w (draws w))).
  split; [reflexivity |]. split; [apply prefix_append |].
  split; [apply clientIdOf_length |].
  split; [intros w0 E; rewrite generateClientId_run, E; reflexivity |].
  cbv zeta.
  unfold onConnection, generateClientId, bind, ret, modify, Math.random,
    Date.now, ws_send.
  cbn [sockets set_clients next_clock next_draw entropy draws wallClock clockReads].
  fold (clientIdOf (entropy w (draws w))).
  destruct (sendThrows (sockets w r)); cbn [fst snd negb];
    (split; [reflexivity |]);
    (split; [apply JsMapFacts.get_set_same |]);
    (split; [intros k Hk; apply JsMapFacts.get_set_other; congruence |]);
    repeat split.
Qed.

(** C5, as the claim has it, fails.  Two accepts in a row whose draws
    differ get the same identifier, and the second session replaces the
    first. *)
Lemma accept_can_repeat_an_identifier :
  let w0 := boot (fun _ => exampleSocket false) closeDraws (fun n => Z.of_nat n) in
  let first := onConnection 0 w0 in
  let second := onConnection 1 (snd first) in
  Qeq_bool (closeDraws 0) (closeDraws 1) = false /\
  fst first = Normal "client_i00000000" /\
  fst second = Normal "client_i00000000" /\
  clients (snd second) =
    [ ("client_i00000000",
       {| ws := 1; subscribedSymbols := []; lastPing := 2%Z |}) ].
Proof. cbv zeta. repeat split. Qed.

(** ** Client messages *)

Lemma getMember_readable name data w :
  data <> JNull -> getMember name data w = (Normal (memberOf name data), w).
Proof. destruct data; intros H; try reflexivity. contradiction. Qed.

Lemma onMessage_unparseable clientId r w :
  onMessage clientId r None w =
  (if sendThrows (sockets w r) then Thrown else Normal tt,
   record_send {| target := r; payload := Error "Invalid JSON message";
                  delivered := negb (sendThrows (sockets w r)) |} w).
Proof.
  unfold onMessage, tryCatch, throw, ws_send.
  destruct (sendThrows (sockets w r)); reflexivity.
Qed.

Lemma handleClientMessage_unknown clientId c data w :
  JsMap.get clientId (clients w) = Some c ->
  data <> JNull ->
  isKnownType (memberOf "type" data) = false ->
  handleClientMessage clientId data w =
  ws_send (ws c)
    (Error ("Unknown message type: " ++ ToString (memberOf "type" data))%string) w.
Proof.
  intros Hc Hdata Hknown. unfold handleClientMessage.
  unfold bind at 1. unfold gets at 1. rewrite Hc.
  unfold bind at 1. rewrite getMember_readable by assumption.
  destruct (memberOf "type" data) as [[ | b | n | t | l | m]|]; try reflexivity.
  simpl in Hknown.
  apply orb_false_elim in Hknown. destruct Hknown as [Hk Hping].
  apply orb_false_elim in Hk. destruct Hk as [Hsub Hunsub].
  now rewrite Hsub, Hunsub, Hping.
Qed.

Lemma handleClientMessage_ping clientId c data w :
  JsMap.get clientId (clients w) = Some c ->
  memberOf "type" data = Some (JStr "ping") ->
  handleClientMessage clientId data w =
  ws_send (ws c) (Pong (wallClock w (clockReads w))) (next_clock w).
Proof.
  intros Hc Hping. unfold handleClientMessage.
  unfold bind at 1. unfold gets at 1. rewrite Hc.
  unfold bind at 1. rewrite getMember_readable
    by (intros ->; discriminate).
  rewrite Hping. reflexivity.
Qed.

Lemma handleClientMessage_subscribe clientId c data w :
  JsMap.get clientId (clients w) = Some c ->
  memberOf "type" data = Some (JStr "subscribe") ->
  handleClientMessage clientId data w =
  handleSubscribe clientId (memberOf "symbols" data) w.
Proof.
  intros Hc Hsub. unfold handleClientMessage.
  unfold bind at 1. unfold gets at 1. rewrite Hc.
  assert (Hdata : data <> JNull) by (intros ->; discriminate).
  unfold bind at 1. rewrite getMember_readable by assumption.
  rewrite Hsub. cbn [String.eqb Ascii.eqb Bool.eqb].
  unfold bind at 1. now rewrite getMember_readable by assumption.
Qed.

Lemma registered_session clientId c l w :
  JsMap.get clientId (clients w) = Some c ->
  JsMap.get clientId (clients (registered clientId l w)) =
    Some (with_subscribedSymbols (JsSet.addAll l) c) /\
  activeSymbols (registered clientId l w) = JsSet.addAll l (activeSymbols w).
Proof.
  unfold registered. revert c w. induction l as [|x l IH]; intros c w Hc.
  - simpl. destruct c. auto.
  - cbn [fold_left].
    assert (H1 : JsMap.get clientId (clients (subscribedOne clientId w x)) =
                 Some (with_subscribedSymbols (JsSet.add x) c)).
    { unfold subscribedOne.
      match goal with |- context [ensured x ?w1] =>
        destruct (ensured_frame x w1) as (E1 & _) end.
      rewrite E1. simpl. now rewrite get_mutateSession_same, Hc. }
    assert (H2 : activeSymbols (subscribedOne clientId w x) =
                 JsSet.add x (activeSymbols w)).
    { unfold subscribedOne.
      match goal with |- context [ensured x ?w1] =>
        destruct (ensured_frame x w1) as (_ & E2 & _) end.
      now rewrite E2. }
    destruct (IH _ _ H1) as [G1 G2]. rewrite G1, G2, H2.
    destruct c. auto.
Qed.

Lemma ws_send_sameTables r msg w : sameTables w (snd (ws_send r msg w)).
Proof.
  unfold ws_send, sameTables. destruct (sendThrows (sockets w r)); simpl; auto.
Qed.

Lemma sameTables_trans w1 w2 w3 :
  sameTables w1 w2 -> sameTables w2 w3 -> sameTables w1 w3.
Proof.
  unfold sameTables. intros (A1 & A2 & A3 & A4) (B1 & B2 & B3 & B4).
  repeat split; congruence.
Qed.

Lemma tryCatch_body (body body' handler : JS unit) (w w' : World) :
  body w = body' w' -> tryCatch body handler w = tryCatch body' handler w'.
Proof. intros H. unfold tryCatch. now rewrite H. Qed.

(** A call of [send], followed by the [catch] of the listener when it
    throws, changes no table, and the call is among the sent frames. *)
Lemma reply_then_catch target0 reply r w0 w :
  sameTables w0 w ->
  In {| target := target0; payload := reply;
        delivered := negb (sendThrows (sockets w0 target0)) |}
     (wire (snd (tryCatch (ws_send target0 reply)
                   (ws_send r (Error "Invalid JSON message")) w))) /\
  sameTables w0 (snd (tryCatch (ws_send target0 reply)
                        (ws_send r (Error "Invalid JSON message")) w)) /\
  (sendThrows (sockets w0 target0) = false ->
   tryCatch (ws_send target0 reply)
     (ws_send r (Error "Invalid JSON message")) w =
   (Normal tt,
    record_send {| target := target0; payload := reply; delivered := true |} w)).
Proof.
  intros Hsame. pose proof Hsame as (S1 & S2 & S3 & S4).
  unfold tryCatch. unfold ws_send at 1 3 5. rewrite S4.
  destruct (sendThrows (sockets w0 target0)); cbn [negb].
  - split; [| split; [| discriminate]].
    + unfold ws_send. simpl.
      destruct (sendThrows (sockets w r)); simpl;
        apply in_or_app; left; apply in_or_app; right; now left.
    + eapply sameTables_trans; [| apply ws_send_sameTables].
      repeat split; simpl; assumption.
  - split; [| split; [| reflexivity]].
    + simpl. apply in_or_app. right. now left.
    + repeat split; simpl; assumption.
Qed.

Lemma onMessage_subscribe_tables clientId c r data l w :
  JsMap.get clientId (clients w) = Some c ->
  memberOf "type" data = Some (JStr "subscribe") ->
  memberOf "symbols" data = Some (JArr l) ->
  sameTables (registered clientId l w) (snd (onMessage clientId r (Some data) w)).
Proof.
  intros Hc Htype Hsym. unfold onMessage, tryCatch.
  rewrite (handleClientMessage_subscribe _ _ _ _ Hc Htype), Hsym.
  rewrite (handleSubscribe_run _ _ _ _ Hc).
  match goal with |- context [forEach l ?f ?w1] =>
    destruct (forEach l f w1) as [res w'] eqn:Hrun end.
  apply snapshots_frame in Hrun. destruct Hrun as (F1 & F2 & F3 & F4).
  assert (Hw' : sameTables (registered clientId l w) w')
    by (repeat split; assumption).
  destruct res as [[]|]; cbn [snd]; [exact Hw' |].
  eapply sameTables_trans; [exact Hw' | apply ws_send_sameTables].
Qed.

Lemma onMessage_unknown clientId c r data w :
  JsMap.get clientId (clients w) = Some c ->
  data <> JNull ->
  isKnownType (memberOf "type" data) = false ->
  onMessage clientId r (Some data) w =
  tryCatch
    (ws_send (ws c)
       (Error ("Unknown message type: " ++ ToString (memberOf "type" data))%string))
    (ws_send r (Error "Invalid JSON message")) w.
Proof.
  intros Hc Hdata Hknown. unfold onMessage.
  apply tryCatch_body. now apply handleClientMessage_unknown.
Qed.

Lemma onMessage_ping clientId c r data w :
  JsMap.get clientId (clients w) = Some c ->
  memberOf "type" data = Some (JStr "ping") ->
  onMessage clientId r (Some data) w =
  tryCatch (ws_send (ws c) (Pong (wallClock w (clockReads w))))
    (ws_send r (Error "Invalid JSON message")) (next_clock w).
Proof.
  intros Hc Hping. unfold onMessage.
  apply tryCatch_body. now apply handleClientMessage_ping.
Qed.

Lemma onMessage_null clientId c r w :
  JsMap.get clientId (clients w) = Some c ->
  onMessage clientId r (Some JNull) w = onMessage clientId r None w.
Proof.
  intros Hc. unfold onMessage, tryCatch, handleClientMessage.
  unfold bind at 1. unfold gets at 1. rewrite Hc. reflexivity.
Qed.

(** A message of a client whose session is gone is dropped without a
    reply, whatever it parses to. *)
Lemma onMessage_unregistered clientId r data w :
  JsMap.get clientId (clients w) = None ->
  onMessage clientId r (Some data) w = (Normal tt, w).
Proof.
  intros Hc. unfold onMessage, tryCatch, handleClientMessage.
  unfold bind at 1. unfold gets at 1. rewrite Hc. reflexivity.
Qed.

(** * The states the server can reach *)

Lemma wellFormed_sameTables w w' :
  sameTables w w' -> wellFormed w -> wellFormed w'.
Proof.
  intros (H1 & H2 & H3 & _) (A & B & C). unfold wellFormed.
  now rewrite H1, H2, H3.
Qed.

Lemma NoDup_unionOfSessions m : NoDup (unionOfSessions m).
Proof.
  unfold unionOfSessions. apply fold_left_invariant; [| constructor].
  intros acc k Hacc. destruct (JsMap.get k m); [| assumption].
  now apply JsSetFacts.NoDup_addAll.
Qed.

Lemma onConnection_tables r w :
  clients (snd (onConnection r w)) =
    JsMap.set (clientIdOf (entropy w (draws w)))
      {| ws := r; subscribedSymbols := JsSet.empty;
         lastPing := wallClock w (clockReads w) |} (clients w) /\
  activeSymbols (snd (onConnection r w)) = activeSymbols w /\
  stockPrices (snd (onConnection r w)) = stockPrices w.
Proof.
  unfold onConnection, generateClientId, bind, ret, modify, Math.random,
    Date.now, ws_send.
  cbn [sockets set_clients next_clock next_draw entropy draws wallClock clockReads].
  destruct (sendThrows (sockets w r)); repeat split.
Qed.

Lemma registered_wellFormed clientId l w :
  wellFormed w -> wellFormed (registered clientId l w).
Proof.
  unfold registered. revert w. induction l as [|x l IH]; intros w Hw; simpl;
    [assumption |].
  apply IH. destruct Hw as (A & B & C). unfold subscribedOne.
  match goal with |- context [ensured x ?w1] =>
    destruct (ensured_frame x w1) as (E1 & E2 & _);
    destruct (ensured_prices x w1 C) as (K & _)
  end.
  unfold wellFormed. rewrite E1, E2. simpl.
  rewrite keys_mutateSession. repeat split; auto using JsSetFacts.NoDup_add.
Qed.

Lemma unsubscribed_wellFormed clientId l w :
  wellFormed w -> wellFormed (unsubscribed clientId l w).
Proof.
  intros (A & B & C). unfold wellFormed, unsubscribed. simpl.
  rewrite keys_mutateSession. auto using NoDup_unionOfSessions.
Qed.

Lemma disconnected_wellFormed clientId w :
  wellFormed w -> wellFormed (disconnected clientId w).
Proof.
  intros (A & B & C). unfold wellFormed, disconnected. simpl.
  auto using NoDup_unionOfSessions, JsMapFacts.NoDup_keys_delete.
Qed.

Lemma handleClientMessage_unsubscribe clientId c data w :
  JsMap.get clientId (clients w) = Some c ->
  memberOf "type" data = Some (JStr "unsubscribe") ->
  handleClientMessage clientId data w =
  handleUnsubscribe clientId (memberOf "symbols" data) w.
Proof.
  intros Hc Hsub. unfold handleClientMessage.
  unfold bind at 1. unfold gets at 1. rewrite Hc.
  assert (Hdata : data <> JNull) by (intros ->; discriminate).
  unfold bind at 1. rewrite getMember_readable by assumption.
  rewrite Hsub. cbn [String.eqb Ascii.eqb Bool.eqb].
  unfold bind at 1. now rewrite getMember_readable by assumption.
Qed.

Lemma Json_null_or_not (data : Json) : data = JNull \/ data <> JNull.
Proof. destruct data; (now left) || (right; discriminate). Qed.

(** Whatever the message, the listener leaves the tables as they were, or as
    a subscribe or an unsubscribe of the client leaves them. *)
Lemma onMessage_tables clientId r message w :
  let w' := snd (onMessage clientId r message w) in
  sameTables w w' \/
  (exists l, sameTables (registered clientId l w) w') \/
  (exists l, sameTables (unsubscribed clientId l w) w').
Proof.
  cbv zeta. assert (Hrefl : sameTables w w) by (repeat split).
  destruct message as [data|];
    [| left; rewrite onMessage_unparseable; repeat split].
  destruct (JsMap.get clientId (clients w)) as [c|] eqn:Hc;
    [| left; now rewrite onMessage_unregistered].
  destruct (Json_null_or_not data) as [-> | Hnn].
  { left. rewrite (onMessage_null _ _ _ _ Hc), onMessage_unparseable.
    repeat split. }
  destruct (isKnownType (memberOf "type" data)) eqn:Hknown.
  - destruct (memberOf "type" data) as [[ | | | t | | ]|] eqn:Htype;
      try discriminate.
    simpl in Hknown. apply orb_true_iff in Hknown.
    destruct Hknown as [Hknown | Hping].
    + apply orb_true_iff in Hknown. destruct Hknown as [Hsub | Hunsub].
      * apply String.eqb_eq in Hsub. subst t.
        destruct (memberOf "symbols" data) as [[ | | | | l0 | ]|] eqn:Hsym;
          try (left; unfold onMessage, tryCatch;
               rewrite (handleClientMessage_subscribe _ _ _ _ Hc Htype), Hsym,
                 handleSubscribe_ignored by (right; reflexivity);
               exact Hrefl).
        right. left. exists l0.
        now apply (onMessage_subscribe_tables _ c).
      * apply String.eqb_eq in Hunsub. subst t.
        destruct (memberOf "symbols" data) as [[ | | | | l0 | ]|] eqn:Hsym;
          try (left; unfold onMessage, tryCatch;
               rewrite (handleClientMessage_unsubscribe _ _ _ _ Hc Htype), Hsym,
                 handleUnsubscribe_ignored by (right; reflexivity);
               exact Hrefl).
        right. right. exists l0. unfold onMessage, tryCatch.
        rewrite (handleClientMessage_unsubscribe _ _ _ _ Hc Htype), Hsym,
          (handleUnsubscribe_run _ _ _ _ Hc).
        repeat split.
    + apply String.eqb_eq in Hping. subst t. left.
      rewrite (onMessage_ping _ _ _ _ _ Hc Htype).
      apply reply_then_catch. repeat split.
  - left. rewrite (onMessage_unknown _ _ _ _ _ Hc Hnn Hknown).
    now apply reply_then_catch.
Qed.

Lemma recalculated_wellFormed w :
  wellFormed w -> wellFormed (snd (recalculateActiveSymbols w)).
Proof.
  intros (A & B & C). rewrite recalculateActiveSymbols_run.
  unfold wellFormed. simpl. auto using NoDup_unionOfSessions.
Qed.

Lemma sweep_wellFormed l :
  forall s, wellFormed (snd s) -> wellFormed (snd (fold_left sweptOne l s)).
Proof.
  induction l as [|k l IH]; intros s Hs; simpl; [assumption |].
  apply IH. unfold sweptOne.
  destruct (JsMap.get k (clients (snd s))) as [c|]; [| assumption].
  destruct (isOPEN (readyState (sockets (snd s) (ws c)))); [assumption |].
  destruct Hs as (A & B & C). unfold wellFormed. simpl.
  auto using JsMapFacts.NoDup_keys_delete.
Qed.

Lemma deliverTo_wellFormed tickerData w k :
  wellFormed w -> wellFormed (deliverTo tickerData w k).
Proof.
  intros Hw. unfold deliverTo.
  destruct (JsMap.get k (clients w)) as [c|]; [| assumption].
  destruct (JsSet.has (id tickerData) (subscribedSymbols c)); [| assumption].
  destruct (isOPEN (readyState (sockets w (ws c)))); [| assumption].
  destruct Hw as (A & B & C).
  destruct (sendThrows (sockets w (ws c))); unfold wellFormed; simpl;
    auto using JsMapFacts.NoDup_keys_delete.
Qed.

Lemma updatedSymbol_wellFormed w s :
  wellFormed w -> wellFormed (updatedSymbol w s).
Proof.
  intros (A & B & C). unfold updatedSymbol.
  destruct (JsMap.get s (stockPrices w)) as [cd|] eqn:E.
  - apply fold_left_invariant; [intros; now apply deliverTo_wellFormed |].
    unfold wellFormed. simpl. repeat split; auto.
    apply keyed_set; [assumption | simpl; eauto].
  - unfold wellFormed. simpl. repeat split; auto.
    apply keyed_set; [assumption | reflexivity].
Qed.

Lemma react_wellFormed e w : wellFormed w -> wellFormed (react e w).
Proof.
  intros Hw. destruct e as [r | clientId r message | clientId | clientId | | | net];
    cbn [react].
  - destruct (onConnection_tables r w) as (H1 & H2 & H3).
    destruct Hw as (A & B & C). unfold wellFormed. rewrite H1, H2, H3.
    auto using JsMapFacts.NoDup_keys_set.
  - destruct (onMessage_tables clientId r message w) as [H | [[l H] | [l H]]].
    + eapply wellFormed_sameTables; eassumption.
    + eapply wellFormed_sameTables; [exact H |]. now apply registered_wellFormed.
    + eapply wellFormed_sameTables; [exact H |]. now apply unsubscribed_wellFormed.
  - unfold onClose. rewrite handleClientDisconnect_run.
    now apply disconnected_wellFormed.
  - unfold onError. rewrite handleClientDisconnect_run.
    now apply disconnected_wellFormed.
  - rewrite cleanupConnections_run. cbv zeta.
    pose proof (sweep_wellFormed (JsMap.keys (clients w)) (O, w) Hw) as Hs.
    destruct (Nat.ltb 0 (fst (fold_left sweptOne (JsMap.keys (clients w)) (O, w)))).
    + now apply recalculated_wellFormed.
    + exact Hs.
  - rewrite updatePrices_run. unfold ticked. cbn [snd].
    apply fold_left_invariant; [intros; now apply updatedSymbol_wellFormed | exact Hw].
  - exact Hw.
Qed.

(** Every world the server reaches from its start has that shape. *)
Lemma reachable_wellFormed w : reachable w -> wellFormed w.
Proof.
  induction 1 as [net rnd clk | e w Hr IH].
  - unfold wellFormed, boot. simpl. repeat split; try constructor.
    intros k r. discriminate.
  - now apply react_wellFormed.
Qed.

(** ** What holds of the active set in every reachable world *)

Lemma inSync_covered w : activeInSync w -> sessionsCovered w.
Proof. intros H k c s Hk Hs. apply H. eauto. Qed.

Lemma sessionsCovered_sameTables w w' :
  sameTables w w' -> sessionsCovered w -> sessionsCovered w'.
Proof.
  intros (H1 & H2 & _) H. unfold sessionsCovered. now rewrite H1, H2.
Qed.

Lemma get_delete_Some {V : Type} k0 k (v : V) m :
  JsMap.get k (JsMap.delete k0 m) = Some v -> JsMap.get k m = Some v.
Proof.
  destruct (String.eqb_spec k0 k) as [<- | Hne].
  - now rewrite JsMapFacts.get_delete_same.
  - now rewrite JsMapFacts.get_delete_other.
Qed.

Lemma registered_covered clientId l w :
  sessionsCovered w -> sessionsCovered (registered clientId l w).
Proof.
  unfold registered. revert w. induction l as [|x l IH]; intros w Hw; simpl;
    [assumption |].
  apply IH. unfold subscribedOne.
  match goal with |- context [ensured x ?w1] =>
    destruct (ensured_frame x w1) as (E1 & E2 & _) end.
  unfold sessionsCovered. rewrite E1, E2. simpl.
  intros k c s Hk Hs. apply JsSetFacts.In_add.
  destruct (String.eqb_spec clientId k) as [<- | Hne].
  - rewrite get_mutateSession_same in Hk.
    destruct (JsMap.get clientId (clients w)) as [c0|] eqn:E; [| discriminate].
    inversion Hk; subst. simpl in Hs. apply JsSetFacts.In_add in Hs.
    destruct Hs; eauto.
  - rewrite get_mutateSession_other in Hk by assumption. eauto.
Qed.

Lemma sweep_covered l :
  forall s, sessionsCovered (snd s) ->
            sessionsCovered (snd (fold_left sweptOne l s)).
Proof.
  induction l as [|k l IH]; intros s Hs; simpl; [assumption |].
  apply IH. unfold sweptOne.
  destruct (JsMap.get k (clients (snd s))) as [c|]; [| assumption].
  destruct (isOPEN (readyState (sockets (snd s) (ws c)))); [assumption |].
  intros k' c' x Hk. simpl in Hk. apply get_delete_Some in Hk. eauto.
Qed.

Lemma deliverTo_covered tickerData w k :
  sessionsCovered w -> sessionsCovered (deliverTo tickerData w k).
Proof.
  intros Hw. unfold deliverTo.
  destruct (JsMap.get k (clients w)) as [c|]; [| assumption].
  destruct (JsSet.has (id tickerData) (subscribedSymbols c)); [| assumption].
  destruct (isOPEN (readyState (sockets w (ws c)))); [| assumption].
  destruct (sendThrows (sockets w (ws c))); [| exact Hw].
  intros k' c' x Hk. simpl in Hk. apply get_delete_Some in Hk. eauto.
Qed.

Lemma updatedSymbol_covered w s :
  sessionsCovered w -> sessionsCovered (updatedSymbol w s).
Proof.
  intros Hw. unfold updatedSymbol.
  destruct (JsMap.get s (stockPrices w)) as [cd|]; [| exact Hw].
  apply fold_left_invariant; [intros; now apply deliverTo_covered | exact Hw].
Qed.

Lemma react_covered e w : sessionsCovered w -> sessionsCovered (react e w).
Proof.
  intros Hw. destruct e as [r | clientId r message | clientId | clientId | | | net];
    cbn [react].
  - destruct (onConnection_tables r w) as (H1 & H2 & _).
    unfold sessionsCovered. rewrite H1, H2. intros k c s Hk Hs.
    destruct (String.eqb_spec (clientIdOf (entropy w (draws w))) k) as [<- | Hne].
    + rewrite JsMapFacts.get_set_same in Hk. inversion Hk; subst. destruct Hs.
    + rewrite JsMapFacts.get_set_other in Hk by assumption. eauto.
  - destruct (onMessage_tables clientId r message w) as [H | [[l H] | [l H]]].
    + eapply sessionsCovered_sameTables; eassumption.
    + eapply sessionsCovered_sameTables; [exact H |]. now apply registered_covered.
    + eapply sessionsCovered_sameTables; [exact H |].
      apply inSync_covered. intros s. apply In_unionOfSessions.
  - apply inSync_covered, handleClientDisconnect_inSync.
  - apply inSync_covered, handleClientDisconnect_inSync.
  - rewrite cleanupConnections_run. cbv zeta.
    pose proof (sweep_covered (JsMap.keys (clients w)) (O, w) Hw) as Hs.
    destruct (Nat.ltb 0 (fst (fold_left sweptOne (JsMap.keys (clients w)) (O, w)))).
    + apply inSync_covered, recalculated_inSync.
    + exact Hs.
  - rewrite updatePrices_run. unfold ticked. cbn [snd].
    apply fold_left_invariant; [intros; now apply updatedSymbol_covered | exact Hw].
  - exact Hw.
Qed.

(** The symbols of the registered sessions are always active.  The converse
    holds until a send of a fan-out fails. *)
Lemma reachable_covered w : reachable w -> sessionsCovered w.
Proof.
  induction 1 as [net rnd clk | e w Hr IH].
  - intros k c s Hk. discriminate.
  - now apply react_covered.
Qed.
(** * The HTTP routes *)

Lemma toLowerCaseChar_code (c : ascii) :
  nat_of_ascii (toLowerCaseChar c) =
  if isUpperCase c then nat_of_ascii c + 32 else nat_of_ascii c.
Proof.
  unfold toLowerCaseChar, isUpperCase.
  destruct (Nat.leb 65 (nat_of_ascii c) && Nat.leb (nat_of_ascii c) 90) eqn:E;
    [| reflexivity].
  apply andb_true_iff in E. destruct E as [E1 E2].
  apply Nat.leb_le in E1, E2.
  apply nat_ascii_embedding. lia.
Qed.

Lemma ascii_code_inj (a b : ascii) : nat_of_ascii a = nat_of_ascii b -> a = b.
Proof.
  intros H. rewrite <- (ascii_nat_embedding a), <- (ascii_nat_embedding b).
  now rewrite H.
Qed.

Lemma sameLetter_toLowerCaseChar (a b : ascii) :
  sameLetter a b <-> toLowerCaseChar a = toLowerCaseChar b.
Proof.
  split.
  - intros H. apply ascii_code_inj. rewrite !toLowerCaseChar_code.
    unfold sameLetter, isUpperCase in *.
    destruct H as [-> | [[Ha Hb] | [Hb Ha]]]; [reflexivity | |].
    + rewrite Ha. apply andb_true_iff in Ha. destruct Ha as [H1 H2].
      apply Nat.leb_le in H1, H2.
      replace (Nat.leb (nat_of_ascii b) 90) with false
        by (symmetry; apply Nat.leb_gt; lia).
      rewrite andb_false_r. lia.
    + rewrite Hb. apply andb_true_iff in Hb. destruct Hb as [H1 H2].
      apply Nat.leb_le in H1, H2.
      replace (Nat.leb (nat_of_ascii a) 90) with false
        by (symmetry; apply Nat.leb_gt; lia).
      rewrite andb_false_r. lia.
  - intros H. apply (f_equal nat_of_ascii) in H.
    rewrite !toLowerCaseChar_code in H. unfold sameLetter.
    destruct (isUpperCase a) eqn:Ea, (isUpperCase b) eqn:Eb.
    + left. apply ascii_code_inj. lia.
    + right. left. split; [reflexivity | lia].
    + right. right. split; [reflexivity | lia].
    + left. now apply ascii_code_inj.
Qed.

Lemma sameText_toLowerCase (s t : string) :
  sameText s t <-> toLowerCase s = toLowerCase t.
Proof.
  split.
  - induction 1 as [|a b s t Hab _ IH]; simpl; [reflexivity |].
    apply sameLetter_toLowerCaseChar in Hab. now rewrite Hab, IH.
  - revert t. induction s as [|a s IH]; intros [|b t]; simpl; intros H;
      try discriminate; [constructor |].
    injection H as Hc Hr. constructor.
    + now apply sameLetter_toLowerCaseChar.
    + now apply IH.
Qed.

Lemma toLowerCase_app (s t : string) :
  toLowerCase (s ++ t) = (toLowerCase s ++ toLowerCase t)%string.
Proof. induction s as [|c s IH]; simpl; [reflexivity | now rewrite IH]. Qed.

Lemma toLowerCase_split (s x y : string) :
  toLowerCase s = (x ++ y)%string ->
  exists a b, s = (a ++ b)%string /\ toLowerCase a = x /\ toLowerCase b = y.
Proof.
  revert s. induction x as [|c x IH]; intros s H; simpl in H.
  - exists "", s. auto.
  - destruct s as [|d s]; simpl in H; [discriminate |].
    injection H as Hc Hr. destruct (IH s Hr) as [a [b [-> [Ha Hb]]]].
    exists (String d a), b. simpl. now rewrite Hc, Ha.
Qed.

(** What the test of the search filter decides. *)
Lemma includes_toLowerCase (s q : string) :
  includes (toLowerCase s) (toLowerCase q) = true <-> holdsText s q.
Proof.
  rewrite includes_app. unfold holdsText. split.
  - intros [x [y H]].
    destruct (toLowerCase_split _ _ _ H) as [pre [rest [-> [Hpre Hrest]]]].
    destruct (toLowerCase_split _ _ _ Hrest) as [mid [post [-> [Hmid Hpost]]]].
    exists pre, mid, post. split; [reflexivity |].
    now apply sameText_toLowerCase.
  - intros [pre [mid [post [-> H]]]]. apply sameText_toLowerCase in H.
    exists (toLowerCase pre), (toLowerCase post).
    now rewrite !toLowerCase_app, H.
Qed.

Lemma searchRoute_In (query : string) (stock : Stock.t) :
  In stock (searchRoute query) <->
  In stock allStocks /\
  (holdsText (Stock.symbol stock) query \/ holdsText (Stock.name stock) query).
Proof.
  unfold searchRoute. cbv zeta. rewrite filter_In, orb_true_iff.
  now rewrite !includes_toLowerCase.
Qed.

Lemma sameText_refl (s : string) : sameText s s.
Proof. apply sameText_toLowerCase. reflexivity. Qed.

(** X1.  [GET /api/search/:query], for a query of ASCII characters, answers
    the entries of [allStocks] whose symbol or whose name holds the query
    somewhere, whatever the case of the letters on either side, and no other
    entry; the entries come in the order of the table, each once. *)
Theorem search_matches_ignoring_case :
  forall (query : string),
    isAscii query ->
    (forall stock : Stock.t,
       In stock (searchRoute query) <->
       In stock allStocks /\
       exists pre mid post,
         sameText mid query /\
         (Stock.symbol stock = (pre ++ mid ++ post)%string \/
          Stock.name stock = (pre ++ mid ++ post)%string)) /\
    (exists keep : Stock.t -> bool, searchRoute query = filter keep allStocks) /\
    NoDup (searchRoute query).
Proof.
  intros query _. split; [| split].
  - intros stock. rewrite searchRoute_In. unfold holdsText.
    split; intros [Hin H]; (split; [exact Hin |]).
    + destruct H as [[pre [mid [post [E T]]]] | [pre [mid [post [E T]]]]];
        exists pre, mid, post; auto.
    + destruct H as [pre [mid [post [T [E | E]]]]];
        [left | right]; exists pre, mid, post; auto.
  - eexists. reflexivity.
  - apply NoDup_filter.
    assert (H : NoDup (map Stock.symbol allStocks)).
    { vm_compute. repeat (constructor; [simpl; intuition discriminate |]).
      constructor. }
    now apply NoDup_map_inv in H.
Qed.

Lemma search_matches_ignoring_case_example :
  isAscii "gOOg" /\
  map Stock.symbol (searchRoute "gOOg") = ["GOOGL"; "GOOG"] /\
  map Stock.symbol (searchRoute "inc.") =
    ["AAPL"; "GOOGL"; "GOOG"; "AMZN"; "TSLA"; "META"; "NFLX"; "V"; "PYPL"] /\
  searchRoute "xyz" = [] /\
  (In {| Stock.symbol := "GOOG"; Stock.name := "Alphabet Inc. Class C";
         Stock.sector := None |} (searchRoute "gOOg") <->
   In {| Stock.symbol := "GOOG"; Stock.name := "Alphabet Inc. Class C";
         Stock.sector := None |} allStocks /\
   exists pre mid post,
     sameText mid "gOOg" /\
     ("GOOG" = (pre ++ mid ++ post)%string \/
      "Alphabet Inc. Class C" = (pre ++ mid ++ post)%string)).
Proof.
  assert (A : isAscii "gOOg").
  { unfold isAscii. simpl. repeat constructor. }
  split; [exact A |].
  split; [reflexivity |]. split; [reflexivity |]. split; [reflexivity |].
  exact (proj1 (search_matches_ignoring_case "gOOg" A)
           {| Stock.symbol := "GOOG"; Stock.name := "Alphabet Inc. Class C";
              Stock.sector := None |}).
Defined.

Lemma sameText_sym (s t : string) : sameText s t -> sameText t s.
Proof. rewrite !sameText_toLowerCase. auto. Qed.

(** X2.  Every entry [GET /api/popular-stocks] offers is found by
    [GET /api/search/:query] under its own symbol typed in any case of the
    letters, with the same name; and its symbol has a price of its own in
    the table of [initializeStockPrice], so that its first record starts
    from that price and not from a random one.  The table of base prices
    holds no other symbol. *)
Theorem popular_stocks_are_searchable_and_priced :
  forall (p : Stock.t) (query : string),
    In p popularStocksRoute ->
    isAscii query ->
    sameText query (Stock.symbol p) ->
    In {| Stock.symbol := Stock.symbol p; Stock.name := Stock.name p;
          Stock.sector := None |} (searchRoute query) /\
    (exists v, basePrices_get (Stock.symbol p) = Own v /\ ~ (v == 0)%Q /\
               forall w, basePriceAt (Stock.symbol p) w = Fin v) /\
    (forall s, JsMap.has s basePrices = true <->
               exists p', In p' popularStocksRoute /\ Stock.symbol p' = s).
Proof.
  intros p query Hp _ Hq. split; [| split].
  - apply searchRoute_In. simpl. split.
    + unfold popularStocksRoute, popularStocks in Hp. simpl in Hp.
      repeat (destruct Hp as [<- | Hp]; [simpl; tauto |]). destruct Hp.
    + left. exists "", (Stock.symbol p), "". split.
      * simpl. clear. induction (Stock.symbol p); simpl; congruence.
      * now apply sameText_sym.
  - unfold popularStocksRoute, popularStocks in Hp. simpl in Hp.
    repeat (destruct Hp as [<- | Hp];
            [eexists; split; [reflexivity | split; [discriminate | reflexivity]] |]).
    destruct Hp.
  - intros s. split.
    + unfold JsMap.has. intros H.
      destruct (JsMap.get s basePrices) as [v|] eqn:E; [| discriminate].
      apply JsMapFacts.get_In in E.
      apply (in_map fst) in E. simpl in E.
      assert (G : In s (map Stock.symbol popularStocks)).
      { repeat (destruct E as [<- | E]; [simpl; tauto |]). destruct E. }
      apply in_map_iff in G. destruct G as [p' [Hs Hp']].
      exists p'. split; assumption.
    + intros [p' [Hp' <-]].
      unfold popularStocksRoute, popularStocks in Hp'. simpl in Hp'.
      repeat (destruct Hp' as [<- | Hp']; [reflexivity |]). destruct Hp'.
Qed.

Lemma popular_stocks_are_searchable_and_priced_example :
  In {| Stock.symbol := "BTC-USD"; Stock.name := "Bitcoin USD";
        Stock.sector := Some "Cryptocurrency" |} popularStocksRoute /\
  isAscii "btc-usd" /\
  sameText "btc-usd" "BTC-USD" /\
  In {| Stock.symbol := "BTC-USD"; Stock.name := "Bitcoin USD";
        Stock.sector := None |} (searchRoute "btc-usd") /\
  basePrices_get "BTC-USD" = Own 35000.
Proof.
  assert (P : In {| Stock.symbol := "BTC-USD"; Stock.name := "Bitcoin USD";
                    Stock.sector := Some "Cryptocurrency" |} popularStocksRoute).
  { unfold popularStocksRoute, popularStocks. simpl. tauto. }
  assert (A : isAscii "btc-usd").
  { unfold isAscii. simpl. repeat constructor. }
  assert (T : sameText "btc-usd" "BTC-USD").
  { repeat (constructor;
            [first [left; reflexivity
                   | right; right; split; reflexivity] |]).
    constructor. }
  split; [exact P |]. split; [exact A |]. split; [exact T |].
  split; [| reflexivity].
  exact (proj1 (popular_stocks_are_searchable_and_priced _ "btc-usd" P A T)).
Defined.

(** X3.  In every world the server can reach, [GET /health] answers
    normally with the status "ok", the number of registered sessions (their
    identifiers are distinct), the active set with each symbol once and with
    at least every symbol some registered session subscribes to, and the
    clock reading; it changes no table and sends no frame. *)
Theorem health_reports_sessions_and_active_symbols :
  forall w : World,
    reachable w ->
    exists report : Health.t,
      healthRoute w = (Normal report, next_clock w) /\
      Health.status report = "ok" /\
      Health.activeClients report = List.length (JsMap.keys (clients w)) /\
      NoDup (JsMap.keys (clients w)) /\
      Health.activeSymbols report = activeSymbols w /\
      NoDup (Health.activeSymbols report) /\
      (forall k c s,
         JsMap.get k (clients w) = Some c -> In s (subscribedSymbols c) ->
         In s (Health.activeSymbols report)) /\
      Health.timestamp report = wallClock w (clockReads w) /\
      sameTables w (snd (healthRoute w)) /\
      wire (snd (healthRoute w)) = wire w.
Proof.
  intros w H.
  destruct (reachable_wellFormed w H) as [Hk [Ha _]].
  pose proof (reachable_covered w H) as Hc.
  eexists. split; [reflexivity |]. simpl.
  split; [reflexivity |].
  split; [unfold Map_size, JsMap.keys; now rewrite length_map |].
  split; [exact Hk |]. split; [reflexivity |]. split; [exact Ha |].
  split; [exact Hc |]. split; [reflexivity |].
  split; [| reflexivity]. unfold sameTables. simpl. auto.
Qed.

Lemma health_reports_sessions_and_active_symbols_example :
  let w := run [Connect 0;
                Message "client_i" 0 (Some (subscribeRequest ["AAPL"; "MSFT"]))]
             exampleBoot in
  reachable w /\
  fst (healthRoute w) =
    Normal {| Health.status := "ok"; Health.activeClients := 1;
              Health.activeSymbols := ["AAPL"; "MSFT"];
              Health.timestamp := 4 |} /\
  exists report : Health.t,
    healthRoute w = (Normal report, next_clock w) /\
    Health.activeClients report = List.length (JsMap.keys (clients w)).
Proof.
  cbv zeta.
  assert (R : reachable
                (run [Connect 0;
                      Message "client_i" 0
                        (Some (subscribeRequest ["AAPL"; "MSFT"]))] exampleBoot)).
  { apply run_reachable. apply reachable_boot. }
  split; [exact R |]. split; [vm_compute; reflexivity |].
  destruct (health_reports_sessions_and_active_symbols _ R)
    as [report [E [_ [Hn _]]]].
  exists report. split; [exact E | exact Hn].
Defined.

(** * The client identifier *)

Local Open Scope Q_scope.

Lemma digit36_In (d : Z) :
  (0 <= d < 36)%Z -> In (digit36 d) (list_ascii_of_string digits36).
Proof.
  intros H. unfold digit36.
  assert (Hn : (Z.to_nat d < 36)%nat) by lia.
  generalize dependent (Z.to_nat d). clear H. intros n Hn.
  do 36 (destruct n as [|n]; [simpl; repeat (first [left; reflexivity | right]) |]).
  lia.
Qed.

Lemma fraction36_digits (n : nat) :
  forall f, 0 <= f < 1 ->
    (String.length (fraction36 n f) <= n)%nat /\
    Forall (fun c => In c (list_ascii_of_string digits36))
      (list_ascii_of_string (fraction36 n f)).
Proof.
  induction n as [|n IH]; intros f Hf; cbn [fraction36].
  - split; [simpl; lia | constructor].
  - destruct (Qeq_bool f 0); [split; [simpl; lia | constructor] |].
    cbv zeta. cbn [String.length list_ascii_of_string].
    assert (Hd : (0 <= Qfloor (f * 36) < 36)%Z).
    { split.
      - change 0%Z with (Qfloor 0). apply Qfloor_resp_le. lra.
      - apply Z.lt_nge. intros Hge.
        assert (H36 : inject_Z 36 <= f * 36).
        { eapply Qle_trans; [| apply Qfloor_le].
          rewrite <- Zle_Qle. exact Hge. }
        change (inject_Z 36) with 36 in H36. lra. }
    assert (Hr : 0 <= f * 36 - inject_Z (Qfloor (f * 36)) < 1).
    { pose proof (Qfloor_le (f * 36)) as H1.
      pose proof (Qlt_floor (f * 36)) as H2.
      rewrite inject_Z_plus in H2. change (inject_Z 1) with 1 in H2.
      remember (inject_Z (Qfloor (f * 36))) as q eqn:Eq. clear Eq. lra. }
    destruct (IH _ Hr) as [IH1 IH2]. split; [lia |].
    constructor; [now apply digit36_In | exact IH2].
Qed.

Lemma substring_chars (s : string) :
  forall start len,
    (String.length (String.substring start len s) <= len)%nat /\
    forall c, In c (list_ascii_of_string (String.substring start len s)) ->
              In c (list_ascii_of_string s).
Proof.
  induction s as [|a s IH]; intros start len.
  - destruct start, len; simpl; split; auto; lia.
  - destruct start as [|start].
    + destruct len as [|len]; simpl; [split; [lia | intros c []] |].
      destruct (IH O len) as [H1 H2]. split; [lia |].
      intros c [-> | H]; [now left | right; now apply H2].
    + simpl. destruct (IH start len) as [H1 H2]. split; [exact H1 |].
      intros c H. right. now apply H2.
Qed.

(** X4.  For a draw of [0,1), [generateClientId] makes one call of
    [Math.random] and returns "client_" followed by at most nine characters,
    each a digit of radix 36 (0 to 9, a to z); the identifier is the bare
    "client_" exactly when the draw is zero. *)
Theorem generateClientId_format :
  forall w : World,
    0 <= entropy w (draws w) < 1 ->
    exists suffix : string,
      generateClientId w = (Normal ("client_" ++ suffix)%string, next_draw w) /\
      (String.length suffix <= 9)%nat /\
      Forall (fun c => In c (list_ascii_of_string digits36))
        (list_ascii_of_string suffix) /\
      (suffix = ""%string <-> entropy w (draws w) == 0).
Proof.
  intros w Hr. exists (substr 2 9 (toString36 (entropy w (draws w)))).
  split; [reflexivity |].
  unfold substr, toString36.
  destruct (Qeq_bool (entropy w (draws w)) 0) eqn:E.
  - apply Qeq_bool_eq in E. simpl.
    split; [lia |]. split; [constructor |]. split; auto.
  - assert (Hne : ~ entropy w (draws w) == 0).
    { intros H. apply Qeq_eq_bool in H. congruence. }
    change (String.substring 2 9 ("0." ++ fraction36 11 (entropy w (draws w))))
      with (String.substring 0 9 (fraction36 11 (entropy w (draws w)))).
    destruct (substring_chars (fraction36 11 (entropy w (draws w))) 0 9)
      as [H1 H2].
    destruct (fraction36_digits 11 _ Hr) as [_ H3].
    split; [exact H1 |]. split.
    + apply Forall_forall. intros c Hc.
      rewrite Forall_forall in H3. apply H3, H2, Hc.
    + split; [| intros H; contradiction].
      cbn [fraction36]. rewrite E. cbn [String.substring]. discriminate.
Qed.

Lemma generateClientId_format_example :
  0 <= entropy exampleBoot (draws exampleBoot) < 1 /\
  fst (generateClientId exampleBoot) = Normal "client_i"%string /\
  fst (generateClientId (boot (fun _ => exampleSocket false) (fun _ => 0)
                           (fun n => Z.of_nat n))) = Normal "client_"%string /\
  exists suffix : string,
    generateClientId exampleBoot =
      (Normal ("client_" ++ suffix)%string, next_draw exampleBoot) /\
    (String.length suffix <= 9)%nat.
Proof.
  assert (H : 0 <= entropy exampleBoot (draws exampleBoot) < 1).
  { simpl. split; [discriminate | reflexivity]. }
  split; [exact H |]. split; [reflexivity |]. split; [reflexivity |].
  destruct (generateClientId_format exampleBoot H) as [suffix [E [L _]]].
  exists suffix. split; [exact E | exact L].
Defined.

Local Close Scope Q_scope.

(** * The records the server makes *)

Local Open Scope Q_scope.

Lemma Qfloor_bounds (x : Q) (lo hi : Z) :
  inject_Z lo <= x -> x < inject_Z hi -> (lo <= Qfloor x < hi)%Z.
Proof.
  intros Hlo Hhi. split.
  - rewrite <- (Qfloor_Z lo). now apply Qfloor_resp_le.
  - rewrite Zlt_Qlt. eapply Qle_lt_trans; [apply Qfloor_le | exact Hhi].
Qed.

Lemma basePrices_own symbol v :
  basePrices_get symbol = Own v -> 140 <= v /\ v <= 35000.
Proof.
  unfold basePrices_get.
  destruct (JsMap.get symbol basePrices) as [v'|] eqn:E.
  - intros [= <-]. apply JsMapFacts.get_In in E. unfold basePrices in E.
    simpl in E.
    repeat (destruct E as [E | E];
            [injection E as _ <-; split; [discriminate | discriminate] |]).
    destruct E.
  - destruct (existsb _ _); discriminate.
Qed.

(** The base price [chooseBasePrice] returns for a symbol that names no
    inherited member: a price of the table, or a draw scaled to [50, 250). *)
Lemma basePriceAt_range symbol w :
  basePrices_get symbol <> Inherited ->
  0 <= entropy w (draws w) < 1 ->
  exists b, basePriceAt symbol w = Fin b /\ 50 <= b /\ b <= 35000 /\
            match basePrices_get symbol with
            | Own v => b = v /\ baseDraws symbol = O
            | _ => b = entropy w (draws w) * 200 + 50 /\ b < 250 /\
                   baseDraws symbol = 1%nat
            end.
Proof.
  intros Hni Hr. unfold basePriceAt, baseDraws.
  destruct (basePrices_get symbol) as [v| |] eqn:E; [| contradiction |].
  - destruct (basePrices_own _ _ E) as [H1 H2].
    destruct (Qeq_bool v 0) eqn:Ez.
    + apply Qeq_bool_eq in Ez. lra.
    + exists v. repeat split; auto. lra.
  - eexists. split; [reflexivity |]. repeat split; lra.
Qed.

(** The floor of 0.01 does not apply to a greater number. *)
Lemma Qmax_floor_idle (x : Q) : 0.01 < x -> Qmax 0.01 x = x.
Proof.
  intros H. unfold Qmax, GenericMinMax.gmax.
  now rewrite (proj1 (Qlt_alt 0.01 x) H).
Qed.

(** What the comparisons of JS tell about the record [initializeStockPrice]
    builds from a base price of 50 at least and draws of [0,1).  The bounds
    are not strict and are written with the products of the code, so that
    they do not depend on how the products are rounded. *)
Lemma initialRecord_ranges symbol (b rChange rHigh rLow rVolume : Q) now :
  50 <= b ->
  0 <= rChange < 1 -> 0 <= rHigh < 1 -> 0 <= rLow < 1 -> 0 <= rVolume < 1 ->
  let rec := initialRecord symbol (Fin b) rChange rHigh rLow rVolume now in
  price rec = Num.add (previousClose rec) (change rec) /\
  changePercent rec = Num.mul (Num.div (change rec) (previousClose rec)) (Fin 100) /\
  Num.le (Num.mul (Num.mul (Fin (- 0.5)) (previousClose rec)) (Fin 0.05)) (change rec) /\
  Num.le (change rec) (Num.mul (Num.mul (Fin 0.5) (previousClose rec)) (Fin 0.05)) /\
  Num.le (Fin 0.01) (price rec) /\
  Num.le (price rec) (dayHigh rec) /\
  Num.le (dayHigh rec) (Num.mul (price rec) (Fin 1.03)) /\
  Num.le (Num.mul (price rec) (Fin 0.97)) (dayLow rec) /\
  Num.lt (Fin 0) (dayLow rec) /\
  Num.le (dayLow rec) (price rec) /\
  (1000000 <= dayVolume rec <= 51000000)%Z.
Proof.
  intros Hb Hc Hh Hl Hv. cbv zeta.
  set (c := (rChange - 0.5) * b * 0.05).
  assert (Hrb : 0 <= rChange * b /\ rChange * b < b).
  { split; [apply Qmult_le_0_compat; lra |].
    rewrite <- (Qmult_1_l b) at 2. apply Qmult_lt_compat_r; lra. }
  assert (Ec : c == 0.05 * (rChange * b) - 0.025 * b) by (unfold c; ring).
  assert (Hfloor : 0.01 < b + c) by lra.
  unfold initialRecord. cbv zeta.
  cbn [price change changePercent dayHigh dayLow dayVolume previousClose].
  unfold Math.max. cbn [Num.add Num.mul Num.lift2]. fold c.
  rewrite (Qmax_floor_idle _ Hfloor).
  set (p := b + c) in *.
  assert (Hph : 0 <= p * rHigh /\ p * rHigh <= p).
  { split; [apply Qmult_le_0_compat; lra |].
    rewrite <- (Qmult_1_r p) at 2. apply Qmult_le_l; lra. }
  assert (Hpl : 0 <= p * rLow /\ p * rLow <= p).
  { split; [apply Qmult_le_0_compat; lra |].
    rewrite <- (Qmult_1_r p) at 2. apply Qmult_le_l; lra. }
  assert (Eh : p * (1 + rHigh * 0.03) == p + 0.03 * (p * rHigh)) by ring.
  assert (El : p * (1 - rLow * 0.03) == p - 0.03 * (p * rLow)) by ring.
  split; [reflexivity |]. split; [reflexivity |].
  cbn [Num.le Num.lt].
  split; [lra |]. split; [lra |]. split; [lra |]. split; [lra |].
  split; [lra |]. split; [lra |]. split; [lra |]. split; [lra |].
  unfold Math.floor.
  assert (1000000 <= Qfloor (rVolume * 50000000 + 1000000) < 51000000)%Z; [| lia].
  apply Qfloor_bounds.
  - change (inject_Z 1000000) with 1000000. lra.
  - change (inject_Z 51000000) with 51000000. lra.
Qed.

(** X5.  For a symbol that names no inherited member and draws of [0,1),
    [initializeStockPrice] stores under the symbol a record whose previous
    close is the price of the table, or for an unlisted symbol the draw
    [r * 200 + 50], between 50 and 250; whose [change] is no more than
    [0.5 * previousClose * 0.05] in size, that is 2.5 per cent of the
    previous close; whose price is the previous close plus the change (the
    floor of 0.01 never applies); whose [changePercent] is the change over
    the previous close, times 100; whose day high lies between the price and
    1.03 times the price and whose day low between 0.97 times the price and
    the price, above zero; and whose volume is between 1,000,000 and
    51,000,000.  It makes four draws after the base price and reads the
    clock once.  The comparisons are those of JS; the bounds are not strict
    and are written with the products of the code, so that they hold of the
    rounded numbers as well. *)
Theorem initializeStockPrice_ranges :
  forall (w : World) (symbol : string),
    basePrices_get symbol <> Inherited ->
    (forall n, 0 <= entropy w n < 1) ->
    let w' := snd (initializeStockPrice symbol w) in
    fst (initializeStockPrice symbol w) = Normal tt /\
    draws w' = (draws w + baseDraws symbol + 4)%nat /\
    clockReads w' = S (clockReads w) /\
    exists rec,
      JsMap.get symbol (stockPrices w') = Some rec /\
      id rec = symbol /\ time rec = wallClock w (clockReads w) /\
      previousClose rec =
        match basePrices_get symbol with
        | Own v => Fin v
        | _ => Fin (entropy w (draws w) * 200 + 50)
        end /\
      Num.le (Fin 50) (previousClose rec) /\
      Num.le (previousClose rec)
        (match basePrices_get symbol with Own _ => Fin 35000 | _ => Fin 250 end) /\
      price rec = Num.add (previousClose rec) (change rec) /\
      changePercent rec =
        Num.mul (Num.div (change rec) (previousClose rec)) (Fin 100) /\
      Num.le (Num.mul (Num.mul (Fin (- 0.5)) (previousClose rec)) (Fin 0.05))
        (change rec) /\
      Num.le (change rec)
        (Num.mul (Num.mul (Fin 0.5) (previousClose rec)) (Fin 0.05)) /\
      Num.le (price rec) (dayHigh rec) /\
      Num.le (dayHigh rec) (Num.mul (price rec) (Fin 1.03)) /\
      Num.le (Num.mul (price rec) (Fin 0.97)) (dayLow rec) /\
      Num.lt (Fin 0) (dayLow rec) /\
      Num.le (dayLow rec) (price rec) /\
      (1000000 <= dayVolume rec <= 51000000)%Z.
Proof.
  intros w symbol Hni Hr. rewrite initializeStockPrice_run. cbv zeta.
  cbn [fst snd]. split; [reflexivity |].
  split; [cbn [initialized draws]; lia |]. split; [reflexivity |].
  destruct (basePriceAt_range symbol w Hni (Hr _))
    as [b [Eb [Hb1 [Hb2 Hcase]]]].
  exists (freshRecord symbol w).
  split.
  { cbn [initialized stockPrices]. apply JsMapFacts.get_set_same. }
  unfold freshRecord. cbv zeta. rewrite Eb.
  destruct (initialRecord_ranges symbol b
              (entropy w (draws w + baseDraws symbol))
              (entropy w (S (draws w + baseDraws symbol)))
              (entropy w (S (S (draws w + baseDraws symbol))))
              (entropy w (S (S (S (draws w + baseDraws symbol)))))
              (wallClock w (clockReads w)) Hb1 (Hr _) (Hr _) (Hr _) (Hr _))
    as (H1 & H2 & H3 & H4 & _ & H5 & H6 & H7 & H8 & H9 & H10).
  split; [reflexivity |]. split; [reflexivity |].
  split.
  { cbn [initialRecord previousClose].
    destruct (basePrices_get symbol); [| contradiction |];
      destruct Hcase as [-> _]; reflexivity. }
  split; [cbn [initialRecord previousClose Num.le]; exact Hb1 |].
  split.
  { cbn [initialRecord previousClose].
    destruct (basePrices_get symbol); [| contradiction |]; cbn [Num.le];
      [exact Hb2 | destruct Hcase as (_ & Hlt & _); lra]. }
  repeat (split; [assumption |]). exact H10.
Qed.

Lemma initializeStockPrice_ranges_example :
  basePrices_get "ZZZ"%string <> Inherited /\
  (forall n, 0 <= entropy exampleBoot n < 1) /\
  draws (snd (initializeStockPrice "ZZZ" exampleBoot)) = 5%nat /\
  draws (snd (initializeStockPrice "AAPL" exampleBoot)) = 4%nat /\
  option_map previousClose
    (JsMap.get "ZZZ"%string (stockPrices (snd (initializeStockPrice "ZZZ" exampleBoot)))) =
    Some (Fin (0.5 * 200 + 50)) /\
  clockReads (snd (initializeStockPrice "ZZZ" exampleBoot)) = 1%nat.
Proof.
  assert (H1 : basePrices_get "ZZZ"%string <> Inherited) by discriminate.
  assert (H2 : forall n, 0 <= entropy exampleBoot n < 1).
  { intros n. simpl. split; [discriminate | reflexivity]. }
  split; [exact H1 |]. split; [exact H2 |].
  split; [reflexivity |]. split; [reflexivity |]. split; [reflexivity |].
  exact (proj1 (proj2 (proj2 (initializeStockPrice_ranges exampleBoot "ZZZ" H1 H2)))).
Defined.

Local Close Scope Q_scope.

(** * Induction on the steps of the handlers *)

(** Every handler is made of a few writes to the world.  A relation that is
    reflexive and transitive and that each of these writes keeps is kept by
    every event.  The writes that only make sense together are taken
    together: one turn of the first loop of [handleSubscribe], the
    initialization of a missing record, the recomputation of the active
    set. *)
Section Steps.

Variable R : World -> World -> Prop.
Hypothesis R_refl : forall w, R w w.
Hypothesis R_trans : forall w1 w2 w3, R w1 w2 -> R w2 w3 -> R w1 w3.

Lemma keeps_ret {A : Type} (a : A) : keeps R (ret a).
Proof. intros w. apply R_refl. Qed.

Lemma keeps_throw {A : Type} : keeps R (@throw A).
Proof. intros w. apply R_refl. Qed.

Lemma keeps_gets {A : Type} (f : World -> A) : keeps R (gets f).
Proof. intros w. apply R_refl. Qed.

Lemma keeps_modify (f : World -> World) :
  (forall w, R w (f w)) -> keeps R (modify f).
Proof. intros H w. apply H. Qed.

Lemma keeps_bind {A B : Type} (m : JS A) (k : A -> JS B) :
  keeps R m -> (forall a, keeps R (k a)) -> keeps R (bind m k).
Proof.
  intros Hm Hk w. unfold bind. specialize (Hm w).
  destruct (m w) as [[a|] w1]; simpl in *; [| exact Hm].
  eapply R_trans; [exact Hm | apply Hk].
Qed.

Lemma keeps_tryCatch (body handler : JS unit) :
  keeps R body -> keeps R handler -> keeps R (tryCatch body handler).
Proof.
  intros Hb Hh w. unfold tryCatch. specialize (Hb w).
  destruct (body w) as [[a|] w1]; simpl in *; [exact Hb |].
  eapply R_trans; [exact Hb | apply Hh].
Qed.

Lemma keeps_foldM {A B : Type} (f : B -> A -> JS B) (l : list A) :
  (forall b x, keeps R (f b x)) -> forall b, keeps R (foldM f l b).
Proof.
  intros Hf. induction l as [|x l IH]; intros b; simpl.
  - apply keeps_ret.
  - apply keeps_bind; [apply Hf | exact IH].
Qed.

Lemma keeps_forEach {A : Type} (l : list A) (f : A -> JS unit) :
  (forall x, keeps R (f x)) -> keeps R (forEach l f).
Proof. intros Hf. apply keeps_foldM. intros _ x. apply Hf. Qed.

Lemma keeps_Map_fold {V B : Type} (sel : World -> JsMap.t V)
    (f : B -> V -> string -> JS B) (b : B) :
  (forall b v k, keeps R (f b v k)) -> keeps R (Map_fold sel f b).
Proof.
  intros Hf. unfold Map_fold. apply keeps_bind; [apply keeps_gets |].
  intros m. apply keeps_foldM. intros b0 k.
  apply keeps_bind; [apply keeps_gets |].
  intros cur. destruct (JsMap.get k cur); [apply Hf | apply keeps_ret].
Qed.

Lemma keeps_Set_forEach (sel : World -> JsSet.t) (f : string -> JS unit) :
  (forall x, keeps R (f x)) -> keeps R (Set_forEach sel f).
Proof.
  intros Hf. unfold Set_forEach. apply keeps_bind; [apply keeps_gets |].
  intros s. apply keeps_forEach. intros x.
  apply keeps_bind; [apply keeps_gets |].
  intros cur. destruct (JsSet.has x cur); [apply Hf | apply keeps_ret].
Qed.

Lemma keeps_run {A : Type} (m : JS A) (step : World -> World) :
  (forall w, snd (m w) = step w) -> (forall w, R w (step w)) -> keeps R m.
Proof. intros E H w. rewrite E. apply H. Qed.

Lemma steps_fold_left {A : Type} (step : World -> A -> World) (l : list A) :
  (forall w x, R w (step w x)) -> forall w, R w (fold_left step l w).
Proof.
  intros H. induction l as [|x l IH]; intros w; simpl; [apply R_refl |].
  eapply R_trans; [apply H | apply IH].
Qed.

(** The writes. *)
Hypothesis R_draw : forall w, R w (next_draw w).
Hypothesis R_clock : forall w, R w (next_clock w).
Hypothesis R_send : forall call w, R w (record_send call w).
Hypothesis R_delete :
  forall clientId w, R w (set_clients (JsMap.delete clientId) w).
Hypothesis R_recalculate :
  forall w, R w (set_activeSymbols (fun _ => unionOfSessions (clients w)) w).
Hypothesis R_subscribe :
  forall clientId symbol w, R w (subscribedOne clientId w symbol).
Hypothesis R_unsubscribe :
  forall clientId symbol w,
    R w (set_clients
           (mutateSession clientId
              (with_subscribedSymbols (JsSet.delete symbol))) w).
Hypothesis R_initialize :
  forall symbol w,
    JsMap.get symbol (stockPrices w) = None -> R w (initialized symbol w).
Hypothesis R_advance :
  forall symbol currentData i j now w,
    JsMap.get symbol (stockPrices w) = Some currentData ->
    R w (set_stockPrices
           (JsMap.set symbol
              (advanceRecord symbol currentData (entropy w i) (entropy w j) now))
           w).

Lemma steps_random : keeps R Math.random.
Proof. intros w. apply R_draw. Qed.

Lemma steps_now : keeps R Date.now.
Proof. intros w. apply R_clock. Qed.

Lemma steps_send r msg : keeps R (ws_send r msg).
Proof.
  intros w. unfold ws_send. destruct (sendThrows (sockets w r)); apply R_send.
Qed.

Lemma steps_recalculateActiveSymbols : keeps R recalculateActiveSymbols.
Proof.
  intros w. rewrite recalculateActiveSymbols_run. apply R_recalculate.
Qed.

Lemma steps_getMember name data : keeps R (getMember name data).
Proof. destruct data; (apply keeps_throw || apply keeps_ret). Qed.

Lemma steps_handleSubscribe clientId symbols : keeps R (handleSubscribe clientId symbols).
Proof.
  unfold handleSubscribe. apply keeps_bind; [apply keeps_gets |].
  intros [c|]; [| apply keeps_ret].
  destruct symbols as [[ | b | n | s | l | members]|];
    cbn [truthy Array_isArray negb orb];
    try (destruct (negb _)); try apply keeps_ret.
  apply keeps_bind.
  - intros w. rewrite handleSubscribe_first_loop. cbn [snd]. unfold registered.
    apply steps_fold_left. intros w0 x. apply R_subscribe.
  - intros _. apply keeps_forEach. intros x.
    apply keeps_bind; [apply keeps_gets |].
    intros [d|]; [apply steps_send | apply keeps_ret].
Qed.

Lemma steps_handleUnsubscribe clientId symbols :
  keeps R (handleUnsubscribe clientId symbols).
Proof.
  unfold handleUnsubscribe. apply keeps_bind; [apply keeps_gets |].
  intros [c|]; [| apply keeps_ret].
  destruct symbols as [[ | b | n | s | l | members]|];
    cbn [truthy Array_isArray negb orb];
    try (destruct (negb _)); try apply keeps_ret.
  apply keeps_bind.
  - apply keeps_forEach. intros x. apply keeps_modify. intros w.
    apply R_unsubscribe.
  - intros _. apply steps_recalculateActiveSymbols.
Qed.

Lemma steps_handleClientDisconnect clientId : keeps R (handleClientDisconnect clientId).
Proof.
  unfold handleClientDisconnect. apply keeps_bind.
  - apply keeps_modify. intros w. apply R_delete.
  - intros _. apply steps_recalculateActiveSymbols.
Qed.

Lemma steps_handleClientMessage clientId data :
  keeps R (handleClientMessage clientId data).
Proof.
  unfold handleClientMessage. apply keeps_bind; [apply keeps_gets |].
  intros [c|]; [| apply keeps_ret].
  apply keeps_bind; [apply steps_getMember |].
  intros type. cbv zeta.
  destruct type as [[ | b | n | t | l | members]|]; try apply steps_send.
  destruct (String.eqb t "subscribe").
  { apply keeps_bind; [apply steps_getMember |].
    intros symbols. apply steps_handleSubscribe. }
  destruct (String.eqb t "unsubscribe").
  { apply keeps_bind; [apply steps_getMember |].
    intros symbols. apply steps_handleUnsubscribe. }
  destruct (String.eqb t "ping").
  { apply keeps_bind; [apply steps_now |]. intros now. apply steps_send. }
  apply steps_send.
Qed.

Lemma steps_onMessage clientId socket message :
  keeps R (onMessage clientId socket message).
Proof.
  unfold onMessage. apply keeps_tryCatch; [| apply steps_send].
  destruct message; [apply steps_handleClientMessage | apply keeps_throw].
Qed.

Lemma steps_cleanupConnections : keeps R cleanupConnections.
Proof.
  unfold cleanupConnections. apply keeps_bind.
  - apply keeps_Map_fold. intros n c k.
    apply keeps_bind; [apply keeps_gets |].
    intros state. destruct (isOPEN state); [apply keeps_ret |].
    apply keeps_bind; [| intros _; apply keeps_ret].
    apply keeps_modify. intros w. apply R_delete.
  - intros n. destruct (Nat.ltb 0 n);
      [apply steps_recalculateActiveSymbols | apply keeps_ret].
Qed.

Lemma steps_broadcastToClients tickerData : keeps R (broadcastToClients tickerData).
Proof.
  unfold broadcastToClients, Map_forEach. apply keeps_Map_fold. intros _ c k.
  destruct (JsSet.has (id tickerData) (subscribedSymbols c)); [| apply keeps_ret].
  apply keeps_tryCatch.
  - apply keeps_bind; [apply keeps_gets |].
    intros state. destruct (isOPEN state); [apply steps_send | apply keeps_ret].
  - apply keeps_modify. intros w. apply R_delete.
Qed.

Lemma steps_updateSymbol symbol : keeps R (updateSymbol symbol).
Proof.
  intros w. unfold updateSymbol. unfold bind at 1. unfold gets at 1.
  destruct (JsMap.get symbol (stockPrices w)) as [cd|] eqn:E.
  - unfold bind at 1. unfold Math.random at 1.
    unfold bind at 1. unfold Math.random at 1.
    unfold bind at 1. unfold Date.now at 1.
    unfold bind at 1. unfold modify at 1.
    eapply R_trans; [apply R_draw |].
    eapply R_trans; [apply R_draw |].
    eapply R_trans; [apply R_clock |].
    eapply R_trans; [| apply steps_broadcastToClients].
    apply (R_advance symbol cd (draws w) (S (draws w))
             (wallClock w (clockReads w))
             (next_clock (next_draw (next_draw w)))).
    exact E.
  - rewrite initializeStockPrice_run. now apply R_initialize.
Qed.

Lemma steps_updatePrices : keeps R updatePrices.
Proof.
  unfold updatePrices. apply keeps_bind; [apply keeps_gets |].
  intros n. destruct (Nat.eqb n 0); [apply keeps_ret |].
  apply keeps_Set_forEach. intros x. apply steps_updateSymbol.
Qed.

Hypothesis R_network : forall net w, R w (set_sockets net w).

(** Every event but the accept of a connection. *)
Lemma react_steps_established (e : Event) (w : World) :
  (forall r, e <> Connect r) -> R w (react e w).
Proof.
  intros He. destruct e; cbn [react].
  - now contradiction (He r).
  - apply steps_onMessage.
  - apply steps_handleClientDisconnect.
  - apply steps_handleClientDisconnect.
  - apply steps_cleanupConnections.
  - apply steps_updatePrices.
  - apply R_network.
Qed.

Hypothesis R_accept :
  forall clientId session w,
    subscribedSymbols session = JsSet.empty ->
    R w (set_clients (JsMap.set clientId session) w).

Lemma steps_onConnection socket : keeps R (onConnection socket).
Proof.
  unfold onConnection, generateClientId.
  apply keeps_bind.
  { apply keeps_bind; [apply steps_random | intros r; apply keeps_ret]. }
  intros clientId. apply keeps_bind; [apply steps_now |].
  intros now. apply keeps_bind.
  { apply keeps_modify. intros w. now apply R_accept. }
  intros _. apply keeps_bind; [apply steps_now |].
  intros now'. apply keeps_bind; [apply steps_send |].
  intros _. apply keeps_ret.
Qed.

Lemma react_steps (e : Event) (w : World) : R w (react e w).
Proof.
  destruct e; cbn [react].
  - apply steps_onConnection.
  - apply steps_onMessage.
  - apply steps_handleClientDisconnect.
  - apply steps_handleClientDisconnect.
  - apply steps_cleanupConnections.
  - apply steps_updatePrices.
  - apply R_network.
Qed.

Lemma run_steps (events : list Event) (w : World) : R w (run events w).
Proof.
  unfold run. revert w. induction events as [|e events IH]; intros w; simpl.
  - apply R_refl.
  - eapply R_trans; [apply react_steps | apply IH].
Qed.

End Steps.

(** * What holds of the price table in every reachable world *)

Local Open Scope Q_scope.

Lemma freshRecord_sound symbol w :
  basePrices_get symbol <> Inherited ->
  (forall n, 0 <= entropy w n < 1) ->
  soundQuote symbol (freshRecord symbol w).
Proof.
  intros Hni Hr.
  destruct (basePriceAt_range symbol w Hni (Hr _)) as [b [Eb [Hb1 [Hb2 _]]]].
  unfold freshRecord. cbv zeta. rewrite Eb.
  destruct (initialRecord_ranges symbol b
              (entropy w (draws w + baseDraws symbol))
              (entropy w (S (draws w + baseDraws symbol)))
              (entropy w (S (S (draws w + baseDraws symbol))))
              (entropy w (S (S (S (draws w + baseDraws symbol)))))
              (wallClock w (clockReads w)) Hb1 (Hr _) (Hr _) (Hr _) (Hr _))
    as (_ & _ & _ & _ & H1 & H2 & _ & _ & H3 & H4 & H5).
  split; [reflexivity |]. split.
  { cbn [initialRecord currency]. now destruct (includes symbol "USD"). }
  split; [reflexivity |]. split; [lia |].
  split; [cbn [initialRecord previousClose Num.le]; exact Hb1 |].
  split; [exact H1 |]. split; [exact H3 |]. split; [exact H4 | exact H2].
Qed.

(** A comparison of JS that holds tells that both sides are numbers. *)
Lemma Num_le_inv (a b : number) :
  Num.le a b -> exists x y, a = Fin x /\ b = Fin y /\ x <= y.
Proof.
  destruct a as [|x], b as [|y]; cbn [Num.le]; try contradiction.
  intros H. now exists x, y.
Qed.

Lemma Num_lt_inv (a b : number) :
  Num.lt a b -> exists x y, a = Fin x /\ b = Fin y /\ x < y.
Proof.
  destruct a as [|x], b as [|y]; cbn [Num.lt]; try contradiction.
  intros H. now exists x, y.
Qed.

Lemma advanceRecord_sound k symbol cur rDelta rVolume now :
  soundQuote k cur -> 0 <= rVolume ->
  soundQuote k (advanceRecord symbol cur rDelta rVolume now).
Proof.
  intros (Hid & Hcur & Hex & Hvol & Hb & Hp & Hl & Hlp & Hph) Hv.
  destruct (Num_le_inv _ _ Hp) as (x & p & Ex & Ep & Hp').
  injection Ex as <-.
  destruct (Num_lt_inv _ _ Hl) as (z & l & Ez & El & Hl').
  injection Ez as <-.
  destruct (Num_le_inv _ _ Hph) as (p0 & h & Ep0 & Eh & Hph').
  rewrite Ep in Ep0. injection Ep0 as <-.
  unfold advanceRecord. cbv zeta.
  split; [exact Hid |]. split; [exact Hcur |]. split; [exact Hex |].
  cbn [dayVolume previousClose price dayHigh dayLow].
  split.
  { assert (0 <= Math.floor (rVolume * 10000))%Z; [| lia].
    unfold Math.floor. change 0%Z with (Qfloor 0). apply Qfloor_resp_le. lra. }
  split; [exact Hb |].
  rewrite Ep, Eh, El.
  unfold Math.max, Math.min. cbn [Num.mul Num.lift2 Num.le Num.lt].
  set (np := Qmax 0.01 (p * (1 + stepChangePercent symbol rDelta))).
  assert (Hnp : 0.01 <= np) by apply Q.le_max_l.
  split; [exact Hnp |].
  split; [apply Q.min_glb_lt; lra |].
  split; [apply Q.le_min_r | apply Q.le_max_r].
Qed.

Lemma soundQuotes_set k rec w :
  soundQuotes w ->
  (basePrices_get k <> Inherited -> soundQuote k rec) ->
  forall w', stockPrices w' = JsMap.set k rec (stockPrices w) -> soundQuotes w'.
Proof.
  intros Hw Hrec w' E k' rec' Hget Hni. rewrite E in Hget.
  destruct (string_dec k k') as [<- | Hne].
  - rewrite JsMapFacts.get_set_same in Hget. injection Hget as <-. auto.
  - rewrite JsMapFacts.get_set_other in Hget by exact Hne. now apply Hw.
Qed.

Lemma react_soundQuotes (rnd : nat -> Q) :
  (forall n, 0 <= rnd n < 1) ->
  forall e w,
    entropy w = rnd /\ soundQuotes w ->
    entropy (react e w) = rnd /\ soundQuotes (react e w).
Proof.
  intros Hr e w.
  apply (react_steps
           (fun w w' => entropy w = rnd /\ soundQuotes w ->
                        entropy w' = rnd /\ soundQuotes w')); clear e w.
  - auto.
  - auto.
  - intros w H. exact H.
  - intros w H. exact H.
  - intros call w H. exact H.
  - intros clientId w H. exact H.
  - intros w H. exact H.
  - intros clientId symbol w [He Hs]. unfold subscribedOne, ensured.
    cbn [stockPrices set_activeSymbols set_clients].
    destruct (JsMap.has symbol (stockPrices w)); [split; assumption |].
    split; [exact He |].
    eapply (soundQuotes_set symbol _ w Hs); [| reflexivity].
    intros Hni. apply freshRecord_sound; [exact Hni |].
    intros n. cbn [entropy set_activeSymbols set_clients]. rewrite He. apply Hr.
  - intros clientId symbol w H. exact H.
  - intros symbol w _ [He Hs]. split; [exact He |].
    eapply (soundQuotes_set symbol _ w Hs); [| reflexivity].
    intros Hni. apply freshRecord_sound; [exact Hni |].
    intros n. rewrite He. apply Hr.
  - intros symbol cur i j now w Hget [He Hs]. split; [exact He |].
    eapply (soundQuotes_set symbol _ w Hs); [| reflexivity].
    intros Hni. apply advanceRecord_sound; [now apply Hs |].
    rewrite He. apply Hr.
  - intros net w H. exact H.
  - intros clientId session w _ H. exact H.
Qed.

Lemma react_entropy e w : entropy (react e w) = entropy w.
Proof.
  apply (react_steps (fun w w' => entropy w' = entropy w));
    try (intros; reflexivity).
  - intros w1 w2 w3 H1 H2. congruence.
  - intros clientId symbol w0. unfold subscribedOne, ensured.
    cbn [stockPrices set_activeSymbols set_clients].
    destruct (JsMap.has symbol (stockPrices w0)); reflexivity.
Qed.

(** X6.  When [Math.random] draws from [0,1), every record the server holds
    in a world it can reach (the symbol lists of the requests holding
    strings), under a symbol that names no inherited member of an object,
    is a sound quote: it carries its own symbol, the currency "USD" and the
    exchange its symbol gives; as JS compares, its previous close is 50 or
    more, its price is 0.01 or more and lies between the day low, which is
    above zero, and the day high; its volume is a million or more. *)
Theorem reachable_records_are_sound_quotes :
  forall w : World,
    reachable w ->
    (forall n, 0 <= entropy w n < 1) ->
    forall k rec,
      JsMap.get k (stockPrices w) = Some rec ->
      basePrices_get k <> Inherited ->
      soundQuote k rec.
Proof.
  intros w Hreach. induction Hreach as [net rnd clk | e w Hreach IH]; intros Hr.
  - intros k rec H. discriminate.
  - rewrite react_entropy in Hr.
    exact (proj2 (react_soundQuotes (entropy w) Hr e w (conj eq_refl (IH Hr)))).
Qed.

Local Close Scope Q_scope.

Lemma oneSubscriberTicked_reachable : reachable oneSubscriberTicked.
Proof.
  unfold oneSubscriberTicked, oneSubscriber, oneClient.
  repeat apply run_reachable. apply reachable_boot.
Qed.

Lemma reachable_records_are_sound_quotes_example :
  reachable oneSubscriberTicked /\
  (forall n, (0 <= entropy oneSubscriberTicked n < 1)%Q) /\
  (basePrices_get "AAPL" = Inherited -> False) /\
  exists rec,
    JsMap.get "AAPL" (stockPrices oneSubscriberTicked) = Some rec /\
    soundQuote "AAPL" rec.
Proof.
  assert (Hr : forall n, (0 <= entropy oneSubscriberTicked n < 1)%Q).
  { intros n. split; [discriminate | reflexivity]. }
  assert (Hni : basePrices_get "AAPL" = Inherited -> False) by discriminate.
  split; [exact oneSubscriberTicked_reachable |].
  split; [exact Hr |]. split; [exact Hni |].
  eexists. split; [vm_compute; reflexivity |].
  apply (reachable_records_are_sound_quotes _ oneSubscriberTicked_reachable Hr
           "AAPL");
    [vm_compute; reflexivity | exact Hni].
Defined.

(** * One step of a record *)

Local Open Scope Q_scope.

Lemma stepChangePercent_bounds symbol r :
  0 <= r < 1 ->
  - halfWidth symbol <= stepChangePercent symbol r /\
  stepChangePercent symbol r <= halfWidth symbol.
Proof.
  intros Hr. unfold stepChangePercent, halfWidth, volatility.
  destruct (includes symbol "USD"); lra.
Qed.

Lemma Qmax_cases (a b : Q) : Qmax a b = a \/ Qmax a b = b.
Proof. unfold Qmax, GenericMinMax.gmax. destruct (a ?= b); auto. Qed.

Lemma Qmin_cases (a b : Q) : Qmin a b = a \/ Qmin a b = b.
Proof. unfold Qmin, GenericMinMax.gmin. destruct (a ?= b); auto. Qed.

(** X7.  One advance of a sound quote, with draws of [0,1).  The new price
    is no less than the old one times [1 - h] and no more than the old one
    times [1 + h], where [h] is half the volatility of the symbol (0.01 for
    a symbol that contains "USD", 0.005 otherwise), and it is 0.01 or more.
    The day high does not fall and the day low does not rise, each being the
    old one or the new price, so that the new price lies between them and
    the quote is sound again.  The volume grows by a whole number from 0 to
    10000; the time is the clock reading; the previous close stays;
    [change] is the new price less the previous close and [changePercent]
    that change over the previous close, times 100.  The comparisons are
    those of JS; the bounds are not strict and are written with the products
    of the code, so that they hold of the rounded numbers as well. *)
Theorem advance_moves_a_quote_within_bounds :
  forall (k symbol : string) (cur : PriceRecord) (rDelta rVolume : Q) (now : Z),
    soundQuote k cur ->
    0 <= rDelta < 1 -> 0 <= rVolume < 1 ->
    let new := advanceRecord symbol cur rDelta rVolume now in
    soundQuote k new /\
    time new = now /\ previousClose new = previousClose cur /\
    (dayVolume cur <= dayVolume new <= dayVolume cur + 10000)%Z /\
    change new = Num.sub (price new) (previousClose cur) /\
    changePercent new =
      Num.mul (Num.div (change new) (previousClose cur)) (Fin 100) /\
    Num.le (Num.mul (price cur) (Fin (1 - halfWidth symbol))) (price new) /\
    Num.le (price new) (Num.mul (price cur) (Fin (1 + halfWidth symbol))) /\
    Num.le (dayHigh cur) (dayHigh new) /\
    Num.le (dayLow new) (dayLow cur) /\
    (dayHigh new = dayHigh cur \/ dayHigh new = price new) /\
    (dayLow new = dayLow cur \/ dayLow new = price new).
Proof.
  intros k symbol cur rDelta rVolume now Hs Hd Hv. cbv zeta.
  split; [apply advanceRecord_sound; [exact Hs | lra] |].
  destruct Hs as (Hid & Hcur & Hex & Hvol & Hb & Hp & Hl & Hlp & Hph).
  destruct (Num_le_inv _ _ Hp) as (x & p & Ex & Ep & Hp').
  injection Ex as <-.
  destruct (Num_lt_inv _ _ Hl) as (z & l & Ez & El & Hl').
  injection Ez as <-.
  destruct (Num_le_inv _ _ Hph) as (p0 & h & Ep0 & Eh & Hph').
  rewrite Ep in Ep0. injection Ep0 as <-.
  split; [reflexivity |]. split; [reflexivity |]. split.
  { cbn [advanceRecord dayVolume]. unfold Math.floor.
    assert (0 <= Qfloor (rVolume * 10000) < 10000)%Z; [| lia].
    apply Qfloor_bounds.
    - change (inject_Z 0) with 0. lra.
    - change (inject_Z 10000) with 10000. lra. }
  split; [reflexivity |]. split; [reflexivity |].
  destruct (stepChangePercent_bounds symbol rDelta Hd) as [Hlo Hhi].
  unfold advanceRecord. cbv zeta. cbn [price dayHigh dayLow].
  rewrite Ep, Eh, El.
  unfold Math.max, Math.min. cbn [Num.mul Num.lift2 Num.le].
  set (d := stepChangePercent symbol rDelta) in *.
  set (hw := halfWidth symbol) in *.
  assert (Hhw : 0 < hw) by (unfold hw, halfWidth; destruct (includes symbol "USD"); lra).
  assert (Hpd : p * (1 - hw) <= p * (1 + d) /\ p * (1 + d) <= p * (1 + hw)).
  { split; apply Qmult_le_l; lra. }
  assert (Hpp : p <= p * (1 + hw)).
  { rewrite <- (Qmult_1_r p) at 1. apply Qmult_le_l; lra. }
  split.
  { eapply Qle_trans; [exact (proj1 Hpd) | apply Q.le_max_r]. }
  split.
  { apply Q.max_lub; lra. }
  split; [apply Q.le_max_l |]. split; [apply Q.le_min_l |].
  split.
  - destruct (Qmax_cases h (Qmax 0.01 (p * (1 + d)))) as [E | E]; rewrite E; auto.
  - destruct (Qmin_cases l (Qmax 0.01 (p * (1 + d)))) as [E | E]; rewrite E; auto.
Qed.

Local Close Scope Q_scope.

Lemma advance_moves_a_quote_within_bounds_example :
  soundQuote "AAPL" exampleRecord /\
  (0 <= 0.5 < 1)%Q /\
  soundQuote "AAPL" (advanceRecord "AAPL" exampleRecord 0.5 0.5 7) /\
  dayVolume (advanceRecord "AAPL" exampleRecord 0.5 0.5 7) = 26005000%Z /\
  time (advanceRecord "AAPL" exampleRecord 0.5 0.5 7) = 7%Z.
Proof.
  assert (Hr : (0 <= 0.5 < 1)%Q) by (split; [discriminate | reflexivity]).
  assert (Hs : soundQuote "AAPL" exampleRecord).
  { apply (freshRecord_sound "AAPL" exampleBoot); [discriminate |].
    intros n. exact Hr. }
  split; [exact Hs |]. split; [exact Hr |].
  split;
    [exact (proj1 (advance_moves_a_quote_within_bounds "AAPL" "AAPL" exampleRecord
                     0.5 0.5 7 Hs Hr Hr)) |].
  split; vm_compute; reflexivity.
Defined.

(** * Records of symbols that name an inherited member *)

Lemma freshRecord_allNaN symbol w :
  basePrices_get symbol = Inherited -> allNaN (freshRecord symbol w).
Proof.
  intros H. unfold freshRecord, basePriceAt, allNaN. rewrite H. cbv zeta.
  unfold initialRecord. cbn. auto 10.
Qed.

Lemma advanceRecord_allNaN symbol cur rDelta rVolume now :
  allNaN cur -> allNaN (advanceRecord symbol cur rDelta rVolume now).
Proof.
  intros (H1 & H3 & H4 & H5 & H6). unfold allNaN, advanceRecord. cbv zeta.
  cbn [price change changePercent dayHigh dayLow].
  rewrite H1, H5, H6. cbn. auto 10.
Qed.

(** X8.  In every world the server can reach, the record of a symbol that
    names a member every object inherits ("constructor", "toString",
    "__proto__" and the like) has [NaN] for its price, its change, its
    change in per cent, its day high and its day low, from its
    initialization on and after every advance, so that the price invariant
    fails for it for as long as the server runs. *)
Theorem inherited_symbol_records_stay_NaN :
  forall w : World,
    reachable w ->
    forall k rec,
      JsMap.get k (stockPrices w) = Some rec ->
      basePrices_get k = Inherited ->
      allNaN rec /\ (priceInvariant rec -> False).
Proof.
  intros w Hreach.
  assert (G : forall k rec, JsMap.get k (stockPrices w) = Some rec ->
                            basePrices_get k = Inherited -> allNaN rec).
  { induction Hreach as [net rnd clk | e w Hreach IH].
    - intros k rec H. discriminate.
    - revert IH.
      apply (react_steps
               (fun w w' =>
                  (forall k rec, JsMap.get k (stockPrices w) = Some rec ->
                                 basePrices_get k = Inherited -> allNaN rec) ->
                  forall k rec, JsMap.get k (stockPrices w') = Some rec ->
                                basePrices_get k = Inherited -> allNaN rec));
        try (intros; eauto; fail).
      + intros clientId symbol w0 H k rec Hget Hin.
        unfold subscribedOne, ensured in Hget.
        cbn [stockPrices set_activeSymbols set_clients] in Hget.
        destruct (JsMap.has symbol (stockPrices w0)); [now apply (H k) |].
        cbn [stockPrices initialized] in Hget.
        destruct (string_dec symbol k) as [<- | Hne].
        * rewrite JsMapFacts.get_set_same in Hget. injection Hget as <-.
          now apply freshRecord_allNaN.
        * rewrite JsMapFacts.get_set_other in Hget by exact Hne. now apply (H k).
      + intros symbol w0 _ H k rec Hget Hin.
        cbn [stockPrices initialized] in Hget.
        destruct (string_dec symbol k) as [<- | Hne].
        * rewrite JsMapFacts.get_set_same in Hget. injection Hget as <-.
          now apply freshRecord_allNaN.
        * rewrite JsMapFacts.get_set_other in Hget by exact Hne. now apply (H k).
      + intros symbol cur i j now w0 Hcur H k rec Hget Hin.
        cbn [stockPrices set_stockPrices] in Hget.
        destruct (string_dec symbol k) as [<- | Hne].
        * rewrite JsMapFacts.get_set_same in Hget. injection Hget as <-.
          apply advanceRecord_allNaN. now apply (H symbol).
        * rewrite JsMapFacts.get_set_other in Hget by exact Hne. now apply (H k). }
  intros k rec Hget Hin. split; [now apply (G k) |].
  destruct (G k rec Hget Hin) as (Hp & _).
  intros (_ & _ & H). rewrite Hp in H. exact H.
Qed.

Lemma inherited_symbol_records_stay_NaN_example :
  let w := run [Message "client_i" 0 (Some (subscribeRequest ["toString"]));
                Tick; Tick] oneClient in
  reachable w /\
  basePrices_get "toString" = Inherited /\
  option_map price (JsMap.get "toString" (stockPrices w)) = Some NaN /\
  exists rec, JsMap.get "toString" (stockPrices w) = Some rec /\ allNaN rec.
Proof.
  cbv zeta.
  assert (R : reachable
                (run [Message "client_i" 0 (Some (subscribeRequest ["toString"]));
                      Tick; Tick] oneClient)).
  { unfold oneClient. repeat apply run_reachable. apply reachable_boot. }
  split; [exact R |]. split; [reflexivity |]. split; [vm_compute; reflexivity |].
  eexists. split; [vm_compute; reflexivity |].
  refine (proj1 (inherited_symbol_records_stay_NaN _ R "toString" _ _ eq_refl)).
  vm_compute. reflexivity.
Defined.

(** * The life of a record in the table *)

Lemma has_set_same {V : Type} k (v : V) m : JsMap.has k (JsMap.set k v m) = true.
Proof. unfold JsMap.has. now rewrite JsMapFacts.get_set_same. Qed.

Lemma has_set_mono {V : Type} k k' (v : V) m :
  JsMap.has k m = true -> JsMap.has k (JsMap.set k' v m) = true.
Proof.
  unfold JsMap.has. destruct (string_dec k' k) as [-> | Hne].
  - now rewrite JsMapFacts.get_set_same.
  - now rewrite JsMapFacts.get_set_other.
Qed.

Lemma has_keys {V : Type} k (m : JsMap.t V) :
  JsMap.has k m = true <-> In k (JsMap.keys m).
Proof.
  unfold JsMap.has. destruct (JsMap.get k m) as [v|] eqn:E.
  - split; [intros _ | reflexivity].
    apply JsMapFacts.get_In in E. unfold JsMap.keys.
    apply in_map_iff. now exists (k, v).
  - apply JsMapFacts.get_None in E. split; [discriminate | contradiction].
Qed.

Lemma continues_refl rec : continues rec rec.
Proof. unfold continues. auto. Qed.

Lemma recordsContinue_same w w' :
  stockPrices w' = stockPrices w -> recordsContinue w w'.
Proof.
  intros E k rec H. exists rec. rewrite E. split; [exact H | apply continues_refl].
Qed.

Lemma recordsContinue_new w w' symbol rec0 :
  JsMap.get symbol (stockPrices w) = None ->
  stockPrices w' = JsMap.set symbol rec0 (stockPrices w) ->
  recordsContinue w w'.
Proof.
  intros Hnone E k rec H. exists rec. rewrite E.
  split; [| apply continues_refl].
  rewrite JsMapFacts.get_set_other; [exact H |].
  intros <-. congruence.
Qed.

(** X9.  No event removes a record from the price table, nor changes the
    symbol, the previous close, the currency or the exchange of one: after
    any events every record of the table is still there under its key with
    these four members as they were.  (A symbol once subscribed keeps its
    record for the life of the process, whoever unsubscribes or leaves.) *)
Theorem price_records_are_never_dropped :
  forall (events : list Event) (w : World) (k : string) (rec : PriceRecord),
    let w' := run events w in
    (JsMap.get k (stockPrices w) = Some rec ->
     exists rec',
       JsMap.get k (stockPrices w') = Some rec' /\
       id rec' = id rec /\ previousClose rec' = previousClose rec /\
       currency rec' = currency rec /\ exchange rec' = exchange rec) /\
    (JsMap.get k (stockPrices w') = None -> JsMap.get k (stockPrices w) = None).
Proof.
  intros events w k rec. cbv zeta.
  assert (G : recordsContinue w (run events w)).
  { apply (run_steps recordsContinue).
    - intros w0. now apply recordsContinue_same.
    - intros w1 w2 w3 H1 H2 k0 rec0 H.
      destruct (H1 _ _ H) as [rec1 [G1 C1]].
      destruct (H2 _ _ G1) as [rec2 [G2 C2]].
      exists rec2. split; [exact G2 |].
      unfold continues in *. intuition congruence.
    - intros w0. now apply recordsContinue_same.
    - intros w0. now apply recordsContinue_same.
    - intros call w0. now apply recordsContinue_same.
    - intros clientId w0. now apply recordsContinue_same.
    - intros w0. now apply recordsContinue_same.
    - intros clientId symbol w0. unfold subscribedOne, ensured.
      cbn [stockPrices set_activeSymbols set_clients].
      destruct (JsMap.has symbol (stockPrices w0)) eqn:E;
        [now apply recordsContinue_same |].
      eapply recordsContinue_new; [| reflexivity].
      unfold JsMap.has in E. now destruct (JsMap.get symbol (stockPrices w0)).
    - intros clientId symbol w0. now apply recordsContinue_same.
    - intros symbol w0 Hnone. eapply recordsContinue_new; [exact Hnone | reflexivity].
    - intros symbol cur i j now w0 Hget k0 rec0 H.
      cbn [stockPrices set_stockPrices].
      destruct (string_dec symbol k0) as [<- | Hne].
      + rewrite JsMapFacts.get_set_same. eexists. split; [reflexivity |].
        assert (rec0 = cur) by congruence. subst rec0.
        unfold continues. auto.
      + rewrite JsMapFacts.get_set_other by exact Hne.
        exists rec0. split; [exact H | apply continues_refl].
    - intros net w0. now apply recordsContinue_same.
    - intros clientId session w0 _. now apply recordsContinue_same. }
  split.
  - intros H. destruct (G _ _ H) as [rec' [G1 C]]. exists rec'.
    unfold continues in C. tauto.
  - intros H. destruct (JsMap.get k (stockPrices w)) as [rec0|] eqn:E;
      [| reflexivity].
    destruct (G _ _ E) as [rec' [G1 _]]. congruence.
Qed.

(** * Subscribed symbols have records *)

Lemma ensured_has symbol w k :
  k = symbol \/ JsMap.has k (stockPrices w) = true ->
  JsMap.has k (stockPrices (ensured symbol w)) = true.
Proof.
  unfold ensured. destruct (JsMap.has symbol (stockPrices w)) eqn:E.
  - intros [-> | H]; assumption.
  - cbn [stockPrices initialized].
    intros [-> | H]; [apply has_set_same | now apply has_set_mono].
Qed.

Lemma react_priced e w : priced w -> priced (react e w).
Proof.
  apply (react_steps (fun w w' => priced w -> priced w')); clear e w;
    try (intros; assumption).
  - auto.
  - intros clientId w [Ha Hs]. split; [exact Ha |].
    intros k c s H. cbn [clients set_clients] in H.
    apply get_delete_Some in H. now apply (Hs k c s).
  - intros w [Ha Hs]. split; [| exact Hs].
    intros s H. cbn [activeSymbols set_activeSymbols] in H.
    apply In_unionOfSessions in H. destruct H as (k & c & H1 & H2).
    now apply (Hs k c s).
  - intros clientId symbol w [Ha Hs]. unfold subscribedOne.
    destruct (ensured_frame symbol
                (set_activeSymbols (JsSet.add symbol)
                   (set_clients
                      (mutateSession clientId
                         (with_subscribedSymbols (JsSet.add symbol))) w)))
      as (Ec & Eact & _ & _).
    split.
    + intros s H. rewrite Eact in H. cbn [activeSymbols set_activeSymbols set_clients] in H.
      apply JsSetFacts.In_add in H. apply ensured_has.
      destruct H as [-> | H]; [now left | right; now apply Ha].
    + intros k c s H Hin. rewrite Ec in H.
      cbn [clients set_activeSymbols set_clients] in H.
      apply ensured_has. cbn [stockPrices set_activeSymbols set_clients].
      destruct (string_dec clientId k) as [<- | Hne].
      * rewrite get_mutateSession_same in H.
        destruct (JsMap.get clientId (clients w)) as [c0|] eqn:E; [| discriminate].
        injection H as <-. cbn [subscribedSymbols with_subscribedSymbols] in Hin.
        apply JsSetFacts.In_add in Hin.
        destruct Hin as [-> | Hin]; [now left | right; now apply (Hs clientId c0 s)].
      * rewrite get_mutateSession_other in H by exact Hne.
        right. now apply (Hs k c s).
  - intros clientId symbol w [Ha Hs]. split; [exact Ha |].
    intros k c s H Hin. cbn [clients set_clients] in H.
    cbn [stockPrices set_clients].
    destruct (string_dec clientId k) as [<- | Hne].
    + rewrite get_mutateSession_same in H.
      destruct (JsMap.get clientId (clients w)) as [c0|] eqn:E; [| discriminate].
      injection H as <-. cbn [subscribedSymbols with_subscribedSymbols] in Hin.
      apply JsSetFacts.In_delete in Hin. now apply (Hs clientId c0 s).
    + rewrite get_mutateSession_other in H by exact Hne. now apply (Hs k c s).
  - intros symbol w _ [Ha Hs]. split.
    + intros s H. cbn [stockPrices initialized]. apply has_set_mono. now apply Ha.
    + intros k c s H Hin. cbn [stockPrices initialized]. apply has_set_mono.
      now apply (Hs k c s).
  - intros symbol cur i j now w _ [Ha Hs]. split.
    + intros s H. cbn [stockPrices set_stockPrices]. apply has_set_mono. now apply Ha.
    + intros k c s H Hin. cbn [stockPrices set_stockPrices]. apply has_set_mono.
      now apply (Hs k c s).
  - intros clientId session w Hempty [Ha Hs]. split; [exact Ha |].
    intros k c s H Hin. cbn [clients set_clients] in H.
    cbn [stockPrices set_clients].
    destruct (string_dec clientId k) as [<- | Hne].
    + rewrite JsMapFacts.get_set_same in H. injection H as <-.
      rewrite Hempty in Hin. destruct Hin.
    + rewrite JsMapFacts.get_set_other in H by exact Hne. now apply (Hs k c s).
Qed.

Lemma reachable_priced w : reachable w -> priced w.
Proof.
  induction 1 as [net rnd clk | e w Hreach IH].
  - split; [intros s [] | intros k c s H; discriminate].
  - now apply react_priced.
Qed.

Lemma tick_keeps_keys l :
  forall w,
    (forall s, In s l -> JsMap.has s (stockPrices w) = true) ->
    JsMap.keys (stockPrices (fold_left updatedSymbol l w)) =
    JsMap.keys (stockPrices w).
Proof.
  induction l as [|x l IH]; intros w H; simpl; [reflexivity |].
  assert (E : JsMap.keys (stockPrices (updatedSymbol w x)) =
              JsMap.keys (stockPrices w)).
  { unfold updatedSymbol.
    assert (Hx : JsMap.has x (stockPrices w) = true) by (apply H; now left).
    unfold JsMap.has in Hx.
    destruct (JsMap.get x (stockPrices w)) as [cur|] eqn:Ecur; [| discriminate].
    destruct (deliver_fold_frame
                (advanceRecord x cur (entropy w (draws w)) (entropy w (S (draws w)))
                   (wallClock w (clockReads w)))
                (JsMap.keys (clients w))
                (set_stockPrices
                   (JsMap.set x
                      (advanceRecord x cur (entropy w (draws w))
                         (entropy w (S (draws w))) (wallClock w (clockReads w))))
                   (next_clock (next_draw (next_draw w))))) as [Ep _].
    rewrite Ep. cbn [stockPrices set_stockPrices next_clock next_draw].
    rewrite JsMapFacts.keys_set. unfold JsMap.has. now rewrite Ecur. }
  rewrite IH; [exact E |].
  intros s Hs. apply has_keys. rewrite E. apply has_keys. apply H. now right.
Qed.

(** X10.  In every world the server can reach (the symbol lists of the
    requests holding strings), every active symbol and every symbol of a
    registered session has a record in the price table.  So a tick finds a
    record for each symbol it visits: it takes the branch that advances and
    never the one that initializes, and it adds no record to the table. *)
Theorem reachable_active_symbols_have_records :
  forall w : World,
    reachable w ->
    (forall s, In s (activeSymbols w) ->
               exists rec, JsMap.get s (stockPrices w) = Some rec) /\
    (forall k c s, JsMap.get k (clients w) = Some c ->
                   In s (subscribedSymbols c) ->
                   exists rec, JsMap.get s (stockPrices w) = Some rec) /\
    JsMap.keys (stockPrices (snd (updatePrices w))) = JsMap.keys (stockPrices w).
Proof.
  intros w Hreach. destruct (reachable_priced w Hreach) as [Ha Hs].
  assert (G : forall s, JsMap.has s (stockPrices w) = true ->
                        exists rec, JsMap.get s (stockPrices w) = Some rec).
  { intros s H. unfold JsMap.has in H.
    destruct (JsMap.get s (stockPrices w)) as [rec|]; [now exists rec | discriminate]. }
  split; [intros s H; now apply G, Ha |].
  split; [intros k c s H Hin; now apply G, (Hs k c s) |].
  rewrite updatePrices_run. cbn [snd]. unfold ticked.
  now apply tick_keeps_keys.
Qed.

Lemma reachable_active_symbols_have_records_example :
  let w := run [Connect 0;
                Message "client_i" 0 (Some (subscribeRequest ["AAPL"; "ZZZ"]));
                Message "client_i" 0
                  (Some (JObj [("type", JStr "unsubscribe"); ("symbols", JArr ["ZZZ"])]));
                Tick] exampleBoot in
  reachable w /\
  activeSymbols w = ["AAPL"] /\
  JsMap.keys (stockPrices w) = ["AAPL"; "ZZZ"] /\
  JsMap.keys (stockPrices (snd (updatePrices w))) = JsMap.keys (stockPrices w).
Proof.
  cbv zeta.
  assert (R : reachable
                (run [Connect 0;
                      Message "client_i" 0 (Some (subscribeRequest ["AAPL"; "ZZZ"]));
                      Message "client_i" 0
                        (Some (JObj [("type", JStr "unsubscribe");
                                     ("symbols", JArr ["ZZZ"])]));
                      Tick] exampleBoot)).
  { apply run_reachable. apply reachable_boot. }
  split; [exact R |]. split; [vm_compute; reflexivity |].
  split; [vm_compute; reflexivity |].
  exact (proj2 (proj2 (reachable_active_symbols_have_records _ R))).
Defined.

(** * The sessions *)

Lemma sessionsStay_same w w' : clients w' = clients w -> sessionsStay w w'.
Proof. intros E k c' H. rewrite E in H. exists c'. auto. Qed.

Lemma sessionsStay_mutate clientId f w :
  sessionsStay w
    (set_clients (mutateSession clientId (with_subscribedSymbols f)) w).
Proof.
  intros k c' H. cbn [clients set_clients] in H.
  destruct (string_dec clientId k) as [<- | Hne].
  - rewrite get_mutateSession_same in H.
    destruct (JsMap.get clientId (clients w)) as [c|] eqn:E; [| discriminate].
    injection H as <-. exists c. auto.
  - rewrite get_mutateSession_other in H by exact Hne. exists c'. auto.
Qed.

(** X11.  Only the accept of a connection registers a session or writes its
    socket and its [lastPing]: after any other event (a message, a ping
    among them, a close, an error, a sweep, a tick, a move of the network)
    every registered session was registered before under the same
    identifier, with the same socket and the same [lastPing]. *)
Theorem only_accept_writes_socket_and_lastPing :
  forall (e : Event) (w : World),
    isConnect e = false ->
    forall k c',
      JsMap.get k (clients (react e w)) = Some c' ->
      exists c, JsMap.get k (clients w) = Some c /\
                ws c' = ws c /\ lastPing c' = lastPing c.
Proof.
  intros e w He.
  change (sessionsStay w (react e w)).
  apply (react_steps_established sessionsStay).
  - intros w0. now apply sessionsStay_same.
  - intros w1 w2 w3 H1 H2 k c2 H.
    destruct (H2 _ _ H) as (c1 & G1 & E1 & E2).
    destruct (H1 _ _ G1) as (c0 & G0 & E3 & E4).
    exists c0. repeat split; congruence.
  - intros w0. now apply sessionsStay_same.
  - intros w0. now apply sessionsStay_same.
  - intros call w0. now apply sessionsStay_same.
  - intros clientId w0 k c' H. cbn [clients set_clients] in H.
    apply get_delete_Some in H. exists c'. auto.
  - intros w0. now apply sessionsStay_same.
  - intros clientId symbol w0 k c' H. unfold subscribedOne in H.
    destruct (ensured_frame symbol
                (set_activeSymbols (JsSet.add symbol)
                   (set_clients
                      (mutateSession clientId
                         (with_subscribedSymbols (JsSet.add symbol))) w0)))
      as (Ec & _).
    rewrite Ec in H. cbn [clients set_activeSymbols] in H.
    now apply (sessionsStay_mutate clientId (JsSet.add symbol) w0).
  - intros clientId symbol w0. apply sessionsStay_mutate.
  - intros symbol w0 _. now apply sessionsStay_same.
  - intros symbol cur i j now w0 _. now apply sessionsStay_same.
  - intros net w0. now apply sessionsStay_same.
  - intros r ->. discriminate.
Qed.

Lemma only_accept_writes_socket_and_lastPing_example :
  let ping := Message "client_i" 0 (Some (JObj [("type", JStr "ping")])) in
  isConnect ping = false /\
  JsMap.get "client_i" (clients (react ping oneClient)) =
    Some {| ws := 0; subscribedSymbols := []; lastPing := 0 |} /\
  In (Pong 2) (map payload (wire (react ping oneClient))) /\
  exists c, JsMap.get "client_i" (clients oneClient) = Some c /\
            0 = ws c /\ 0%Z = lastPing c.
Proof.
  cbv zeta. split; [reflexivity |].
  assert (G : JsMap.get "client_i"
                (clients (react (Message "client_i" 0
                                   (Some (JObj [("type", JStr "ping")])))
                            oneClient)) =
              Some {| ws := 0; subscribedSymbols := []; lastPing := 0 |})
    by (vm_compute; reflexivity).
  split; [exact G |]. split; [vm_compute; tauto |].
  exact (only_accept_writes_socket_and_lastPing
           (Message "client_i" 0 (Some (JObj [("type", JStr "ping")])))
           oneClient eq_refl "client_i" _ G).
Defined.

(** * The tick *)

Lemma In_get {V : Type} k (v : V) m :
  NoDup (JsMap.keys m) -> In (k, v) m -> JsMap.get k m = Some v.
Proof.
  induction m as [|[k0 v0] m IH]; simpl; intros Hnd Hin; [destruct Hin |].
  inversion Hnd as [|? ? Hnotin Hnd']; subst.
  destruct Hin as [[= -> ->] | Hin].
  - now rewrite String.eqb_refl.
  - destruct (String.eqb k k0) eqn:E.
    + apply String.eqb_eq in E. subst k0. exfalso. apply Hnotin.
      unfold JsMap.keys. apply in_map_iff. now exists (k, v).
    + now apply IH.
Qed.

Lemma get_filter_Some {V : Type} (p : string * V -> bool) (m : JsMap.t V) k v :
  JsMap.get k (filter p m) = Some v -> NoDup (JsMap.keys m) ->
  JsMap.get k m = Some v.
Proof.
  intros H Hnd. apply In_get; [exact Hnd |].
  apply JsMapFacts.get_In in H. apply filter_In in H. tauto.
Qed.

Lemma NoDup_keys_filter {V : Type} (p : string * V -> bool) (m : JsMap.t V) :
  NoDup (JsMap.keys m) -> NoDup (JsMap.keys (filter p m)).
Proof.
  induction m as [|[k v] m IH]; simpl; intros H; [constructor |].
  inversion H as [|? ? Hnotin Hnd]; subst.
  destruct (p (k, v)); simpl; [| now apply IH].
  constructor; [| now apply IH].
  intros Hin. apply Hnotin. now apply keys_filter_incl in Hin.
Qed.

(** One turn of the loop of [updatePrices] on a symbol that has a record. *)
Lemma updatedSymbol_advances x cur w :
  JsMap.get x (stockPrices w) = Some cur ->
  NoDup (JsMap.keys (clients w)) ->
  let u := advanceRecord x cur (entropy w (draws w)) (entropy w (S (draws w)))
             (wallClock w (clockReads w)) in
  let w1 := updatedSymbol w x in
  clients w1 = filter (fun e => negb (sendFails u w (snd e))) (clients w) /\
  wire w1 = wire w ++ fanoutCalls u w (clients w) /\
  stockPrices w1 = JsMap.set x u (stockPrices w) /\
  sockets w1 = sockets w /\ activeSymbols w1 = activeSymbols w /\
  entropy w1 = entropy w /\ wallClock w1 = wallClock w /\
  draws w1 = S (S (draws w)) /\ clockReads w1 = S (clockReads w).
Proof.
  intros Hget Hnd. cbv zeta. unfold updatedSymbol. rewrite Hget.
  set (u := advanceRecord x cur (entropy w (draws w)) (entropy w (S (draws w)))
              (wallClock w (clockReads w))).
  set (wA := set_stockPrices (JsMap.set x u) (next_clock (next_draw (next_draw w)))).
  destruct (deliver_fold u wA (clients w) [] wA eq_refl Hnd eq_refl)
    as (Hc & Hw & Hso & Hact & Hsp & Hd & Hcr & Hen & Hwc).
  split; [exact Hc |]. split; [exact Hw |]. split; [exact Hsp |].
  split; [exact Hso |]. split; [exact Hact |]. split; [exact Hen |].
  split; [exact Hwc |]. split; [exact Hd | exact Hcr].
Qed.

Lemma In_fanoutCalls call rec w m :
  In call (fanoutCalls rec w m) ->
  exists k c, In (k, c) m /\ wants rec w c = true /\
              call = {| target := ws c; payload := Ticker rec;
                        delivered := negb (sendThrows (sockets w (ws c))) |}.
Proof.
  unfold fanoutCalls. intros H. apply in_flat_map in H.
  destruct H as [[k c] [Hin H]]. cbn [snd] in H.
  destruct (wants rec w c) eqn:E; [| destruct H].
  destruct H as [<- | []]. exists k, c. auto.
Qed.

Lemma fanoutCalls_due call rec w0 w :
  NoDup (JsMap.keys (clients w)) ->
  sockets w = sockets w0 ->
  (forall k c, JsMap.get k (clients w) = Some c ->
               JsMap.get k (clients w0) = Some c) ->
  In call (fanoutCalls rec w (clients w)) -> dueTicker w0 call rec.
Proof.
  intros Hnd Hso Hsub H. apply In_fanoutCalls in H.
  destruct H as (k & c & Hin & Hw & ->).
  unfold wants in Hw. apply andb_true_iff in Hw. destruct Hw as [Hs Hopen].
  split; [reflexivity |]. exists k, c. cbn [target delivered].
  split; [apply Hsub; now apply In_get |]. split; [reflexivity |].
  split; [now apply JsSetFacts.has_In |].
  rewrite <- Hso. split; [| reflexivity].
  destruct (readyState (sockets w (ws c))); try discriminate. reflexivity.
Qed.

Lemma has_get {V : Type} k (m : JsMap.t V) :
  JsMap.has k m = true -> exists v, JsMap.get k m = Some v.
Proof.
  unfold JsMap.has. destruct (JsMap.get k m) as [v|]; [eauto | discriminate].
Qed.

(** The sends of the turns for the symbols [l], one after the other. *)
Lemma tick_fold_due w0 l :
  forall w,
    NoDup l ->
    (forall s, In s l -> JsMap.has s (stockPrices w) = true) ->
    keyed (stockPrices w) ->
    NoDup (JsMap.keys (clients w)) ->
    sockets w = sockets w0 ->
    (forall k c, JsMap.get k (clients w) = Some c ->
                 JsMap.get k (clients w0) = Some c) ->
    exists new,
      wire (fold_left updatedSymbol l w) = wire w ++ new /\
      forall call, In call new ->
        exists rec,
          In (id rec) l /\
          JsMap.get (id rec) (stockPrices (fold_left updatedSymbol l w)) = Some rec /\
          dueTicker w0 call rec.
Proof.
  induction l as [|x l IH]; intros w Hnd Hpriced Hkeyed Hck Hso Hsub.
  - exists []. simpl. rewrite app_nil_r. split; [reflexivity | intros call []].
  - inversion Hnd as [|? ? Hx Hnd']; subst. cbn [fold_left].
    destruct (has_get x _ (Hpriced x (or_introl eq_refl))) as [cur Hcur].
    destruct (updatedSymbol_advances x cur w Hcur Hck)
      as (Hc & Hw & Hsp & Hso1 & _ & _ & _ & _ & _).
    set (u := advanceRecord x cur (entropy w (draws w)) (entropy w (S (draws w)))
                (wallClock w (clockReads w))) in *.
    assert (Hidu : id u = x) by (unfold u; cbn [advanceRecord id]; now apply Hkeyed).
    assert (Hkeyed1 : keyed (stockPrices (updatedSymbol w x))).
    { rewrite Hsp. now apply keyed_set. }
    destruct (IH (updatedSymbol w x)) as [new [Hwire Hnew]].
    + exact Hnd'.
    + intros s Hs. rewrite Hsp. apply has_set_mono. apply Hpriced. now right.
    + exact Hkeyed1.
    + rewrite Hc. now apply NoDup_keys_filter.
    + congruence.
    + intros k c H. apply Hsub. rewrite Hc in H.
      now apply get_filter_Some in H.
    + exists (fanoutCalls u w (clients w) ++ new). split.
      * rewrite Hwire, Hw. now rewrite app_assoc.
      * intros call Hin. apply in_app_iff in Hin. destruct Hin as [Hin | Hin].
        -- exists u. split; [left; now rewrite Hidu |]. split.
           ++ rewrite Hidu.
              destruct (updatedSymbol_fold_others x l Hx (updatedSymbol w x) Hkeyed1)
                as (Hget & _).
              rewrite Hget, Hsp. apply JsMapFacts.get_set_same.
           ++ now apply (fanoutCalls_due call u w0 w).
        -- destruct (Hnew call Hin) as (rec & H1 & H2 & H3).
           exists rec. split; [now right |]. split; assumption.
Qed.

(** X12.  In a world the server can reach (the symbol lists of the requests
    holding strings), a tick completes normally and sends nothing but
    tickers, whether or not a [send] throws: each call of [send] it makes
    carries the record the table holds at the end of the tick for an active
    symbol, and goes to the socket, open at the time, of a session
    registered at the start of the tick that subscribes to that symbol. *)
Theorem tick_sends_only_to_subscribers :
  forall w : World,
    reachable w ->
    fst (updatePrices w) = Normal tt /\
    exists new : list SendCall,
      wire (snd (updatePrices w)) = wire w ++ new /\
      forall call, In call new ->
        exists rec k c,
          payload call = Ticker rec /\
          In (id rec) (activeSymbols w) /\
          JsMap.get (id rec) (stockPrices (snd (updatePrices w))) = Some rec /\
          JsMap.get k (clients w) = Some c /\
          target call = ws c /\
          In (id rec) (subscribedSymbols c) /\
          readyState (sockets w (ws c)) = OPEN /\
          delivered call = negb (sendThrows (sockets w (ws c))).
Proof.
  intros w Hreach. rewrite updatePrices_run. cbn [fst snd].
  split; [reflexivity |].
  destruct (reachable_wellFormed w Hreach) as (Hck & Hact & Hkeyed).
  destruct (reachable_priced w Hreach) as [Hpa _].
  destruct (tick_fold_due w (activeSymbols w) w Hact Hpa Hkeyed Hck eq_refl
              (fun k c H => H)) as [new [Hwire Hnew]].
  exists new. split; [exact Hwire |].
  intros call Hin. destruct (Hnew call Hin) as (rec & H1 & H2 & H3 & k & c & H4).
  exists rec, k, c. tauto.
Qed.

Lemma oneSubscriber_reachable : reachable oneSubscriber.
Proof.
  unfold oneSubscriber, oneClient. repeat apply run_reachable.
  apply reachable_boot.
Qed.

Lemma tick_sends_only_to_subscribers_example :
  reachable oneSubscriber /\
  map (fun call => (target call, messageType (payload call), delivered call))
    (wire oneSubscriber) =
    [(0, "connection", true); (0, "ticker", true)] /\
  map (fun call => (target call, messageType (payload call), delivered call))
    (wire (snd (updatePrices oneSubscriber))) =
    [(0, "connection", true); (0, "ticker", true); (0, "ticker", true)] /\
  fst (updatePrices oneSubscriber) = Normal tt.
Proof.
  split; [exact oneSubscriber_reachable |].
  split; [vm_compute; reflexivity |]. split; [vm_compute; reflexivity |].
  exact (proj1 (tick_sends_only_to_subscribers _ oneSubscriber_reachable)).
Defined.

Lemma tick_fold_advances l :
  forall w,
    NoDup l ->
    (forall s, In s l -> JsMap.has s (stockPrices w) = true) ->
    keyed (stockPrices w) ->
    NoDup (JsMap.keys (clients w)) ->
    let w' := fold_left updatedSymbol l w in
    draws w' = draws w + 2 * List.length l /\
    clockReads w' = clockReads w + List.length l /\
    entropy w' = entropy w /\ wallClock w' = wallClock w /\
    activeSymbols w' = activeSymbols w /\
    (forall pre s post,
       l = pre ++ s :: post ->
       exists cur,
         JsMap.get s (stockPrices w) = Some cur /\
         JsMap.get s (stockPrices w') =
           Some (advanceRecord s cur
                   (entropy w (draws w + 2 * List.length pre))
                   (entropy w (S (draws w + 2 * List.length pre)))
                   (wallClock w (clockReads w + List.length pre)))) /\
    (forall k, ~ In k l ->
               JsMap.get k (stockPrices w') = JsMap.get k (stockPrices w)).
Proof.
  induction l as [|x l IH]; intros w Hnd Hpriced Hkeyed Hck; cbv zeta.
  - simpl. repeat split; try lia.
    intros pre s post H. now destruct pre.
  - inversion Hnd as [|? ? Hx Hnd']; subst. cbn [fold_left].
    destruct (has_get x _ (Hpriced x (or_introl eq_refl))) as [cur Hcur].
    destruct (updatedSymbol_advances x cur w Hcur Hck)
      as (Hc & Hw & Hsp & Hso1 & Hact & Hen & Hwc & Hd & Hcr).
    set (u := advanceRecord x cur (entropy w (draws w)) (entropy w (S (draws w)))
                (wallClock w (clockReads w))) in *.
    assert (Hidu : id u = x) by (unfold u; cbn [advanceRecord id]; now apply Hkeyed).
    assert (Hkeyed1 : keyed (stockPrices (updatedSymbol w x))).
    { rewrite Hsp. now apply keyed_set. }
    destruct (IH (updatedSymbol w x)) as (Id & Ic & Ie & Iw & Ia & Iadv & Ioth).
    + exact Hnd'.
    + intros s Hs. rewrite Hsp. apply has_set_mono. apply Hpriced. now right.
    + exact Hkeyed1.
    + rewrite Hc. now apply NoDup_keys_filter.
    + cbn [List.length].
      split; [rewrite Id, Hd; lia |]. split; [rewrite Ic, Hcr; lia |].
      split; [congruence |]. split; [congruence |]. split; [congruence |].
      split.
      * intros pre s post E. destruct pre as [|y pre]; cbn [app] in E.
        -- injection E as <- <-. exists cur. split; [exact Hcur |].
           rewrite (Ioth x Hx), Hsp, JsMapFacts.get_set_same.
           cbn [List.length]. rewrite Nat.mul_0_r, !Nat.add_0_r. reflexivity.
        -- injection E as <- ->.
           destruct (Iadv pre s post eq_refl) as [cur1 [Hcur1 Hfin]].
           assert (Hne : x <> s).
           { intros ->. apply Hx. apply in_app_iff. right. now left. }
           rewrite Hsp, JsMapFacts.get_set_other in Hcur1 by exact Hne.
           exists cur1. split; [exact Hcur1 |].
           rewrite Hfin, Hen, Hwc, Hd, Hcr. cbn [List.length].
           replace (S (S (draws w)) + 2 * List.length pre)
             with (draws w + 2 * S (List.length pre)) by lia.
           replace (S (clockReads w) + List.length pre)
             with (clockReads w + S (List.length pre)) by lia.
           reflexivity.
      * intros k Hk. rewrite Ioth by (intros H; apply Hk; now right).
        rewrite Hsp. apply JsMapFacts.get_set_other.
        intros ->. apply Hk. now left.
Qed.

(** X13.  In a world the server can reach (the symbol lists of the requests
    holding strings), a tick advances the record of every active symbol
    exactly once, in the order of the active set: the record of the symbol
    at place [n] of the set becomes [advanceRecord] of the record it had at
    the start of the tick, with the draws number [2n] and [2n + 1] and the
    clock reading number [n] counted from the start of the tick.  The tick
    makes two draws and one clock reading per active symbol, leaves the
    active set as it is, and leaves the record of every symbol that is not
    active untouched. *)
Theorem tick_advances_each_active_symbol_once :
  forall w : World,
    reachable w ->
    let w' := snd (updatePrices w) in
    draws w' = draws w + 2 * List.length (activeSymbols w) /\
    clockReads w' = clockReads w + List.length (activeSymbols w) /\
    activeSymbols w' = activeSymbols w /\
    (forall pre s post,
       activeSymbols w = pre ++ s :: post ->
       exists cur,
         JsMap.get s (stockPrices w) = Some cur /\
         JsMap.get s (stockPrices w') =
           Some (advanceRecord s cur
                   (entropy w (draws w + 2 * List.length pre))
                   (entropy w (S (draws w + 2 * List.length pre)))
                   (wallClock w (clockReads w + List.length pre)))) /\
    (forall k, ~ In k (activeSymbols w) ->
               JsMap.get k (stockPrices w') = JsMap.get k (stockPrices w)).
Proof.
  intros w Hreach. rewrite updatePrices_run. cbn [snd]. cbv zeta.
  destruct (reachable_wellFormed w Hreach) as (Hck & Hact & Hkeyed).
  destruct (reachable_priced w Hreach) as [Hpa _].
  destruct (tick_fold_advances (activeSymbols w) w Hact Hpa Hkeyed Hck)
    as (H1 & H2 & _ & _ & H3 & H4 & H5).
  unfold ticked. auto.
Qed.

Lemma tick_advances_each_active_symbol_once_example :
  let w := run [Message "client_i" 0 (Some (subscribeRequest ["MSFT"; "ZZZ"]))]
             oneSubscriber in
  reachable w /\
  activeSymbols w = ["AAPL"; "MSFT"; "ZZZ"] /\
  draws w = 14 /\
  draws (snd (updatePrices w)) = 20 /\
  clockReads (snd (updatePrices w)) = clockReads w + 3 /\
  option_map time (JsMap.get "MSFT" (stockPrices (snd (updatePrices w)))) =
    Some (wallClock w (clockReads w + 1)).
Proof.
  cbv zeta.
  assert (R : reachable
                (run [Message "client_i" 0
                        (Some (subscribeRequest ["MSFT"; "ZZZ"]))] oneSubscriber)).
  { apply run_reachable. exact oneSubscriber_reachable. }
  split; [exact R |]. split; [vm_compute; reflexivity |].
  split; [vm_compute; reflexivity |].
  destruct (tick_advances_each_active_symbol_once _ R) as (H1 & H2 & _).
  split; [vm_compute; reflexivity |]. split; [exact H2 |].
  vm_compute; reflexivity.
Defined.

Lemma filter_all {A : Type} (p : A -> bool) (l : list A) :
  (forall x, In x l -> p x = true) -> filter p l = l.
Proof.
  induction l as [|x l IH]; simpl; intros H; [reflexivity |].
  rewrite (H x (or_introl eq_refl)). f_equal. apply IH. intros y Hy. apply H.
  now right.
Qed.

Lemma fanoutCalls_ext rec w w' m :
  sockets w' = sockets w -> fanoutCalls rec w' m = fanoutCalls rec w m.
Proof.
  intros E. unfold fanoutCalls, wants. now rewrite E.
Qed.

Lemma tickCalls_ext w w' prices l :
  sockets w' = sockets w -> clients w' = clients w ->
  tickCalls w' prices l = tickCalls w prices l.
Proof.
  intros E1 E2. unfold tickCalls. rewrite E2.
  apply flat_map_ext. intros s. destruct (JsMap.get s prices); [| reflexivity].
  now apply fanoutCalls_ext.
Qed.

Lemma tick_fold_exact l :
  forall w,
    NoDup l ->
    (forall s, In s l -> JsMap.has s (stockPrices w) = true) ->
    keyed (stockPrices w) ->
    NoDup (JsMap.keys (clients w)) ->
    (forall r, sendThrows (sockets w r) = false) ->
    let w' := fold_left updatedSymbol l w in
    clients w' = clients w /\ sockets w' = sockets w /\
    wire w' = wire w ++ tickCalls w (stockPrices w') l.
Proof.
  induction l as [|x l IH]; intros w Hnd Hpriced Hkeyed Hck Hok; cbv zeta.
  - simpl. now rewrite app_nil_r.
  - inversion Hnd as [|? ? Hx Hnd']; subst. cbn [fold_left].
    destruct (has_get x _ (Hpriced x (or_introl eq_refl))) as [cur Hcur].
    destruct (updatedSymbol_advances x cur w Hcur Hck)
      as (Hc & Hw & Hsp & Hso1 & _).
    set (u := advanceRecord x cur (entropy w (draws w)) (entropy w (S (draws w)))
                (wallClock w (clockReads w))) in *.
    assert (Hc' : clients (updatedSymbol w x) = clients w).
    { rewrite Hc. apply filter_all. intros e _. unfold sendFails.
      now rewrite Hok, andb_false_r. }
    assert (Hkeyed1 : keyed (stockPrices (updatedSymbol w x))).
    { rewrite Hsp. apply keyed_set; [exact Hkeyed |].
      unfold u. cbn [advanceRecord id]. now apply Hkeyed. }
    destruct (IH (updatedSymbol w x)) as (Ic & Is & Iw).
    + exact Hnd'.
    + intros s Hs. rewrite Hsp. apply has_set_mono. apply Hpriced. now right.
    + exact Hkeyed1.
    + now rewrite Hc'.
    + intros r. now rewrite Hso1.
    + split; [congruence |]. split; [congruence |].
      rewrite Iw, Hw, <- app_assoc. f_equal.
      rewrite (tickCalls_ext w (updatedSymbol w x)) by assumption.
      unfold tickCalls at 2. cbn [flat_map].
      destruct (updatedSymbol_fold_others x l Hx (updatedSymbol w x) Hkeyed1)
        as (Hget & _).
      rewrite Hget, Hsp, JsMapFacts.get_set_same. reflexivity.
Qed.

(** X14.  In a world the server can reach (the symbol lists of the requests
    holding strings) and in which no [send] throws, a tick removes no
    session and its calls of [send] are exactly these, in this order: for
    each active symbol in the order of the active set, and for each
    registered session in the order of registration that subscribes to the
    symbol on an open socket, one delivered ticker with the record the table
    holds for the symbol at the end of the tick. *)
Theorem tick_fans_out_every_stored_record :
  forall w : World,
    reachable w ->
    (forall r, sendThrows (sockets w r) = false) ->
    let w' := snd (updatePrices w) in
    clients w' = clients w /\
    wire w' = wire w ++ tickCalls w (stockPrices w') (activeSymbols w) /\
    (forall s, In s (activeSymbols w) ->
               exists rec, JsMap.get s (stockPrices w') = Some rec /\ id rec = s) /\
    (forall call, In call (tickCalls w (stockPrices w') (activeSymbols w)) ->
                  delivered call = true).
Proof.
  intros w Hreach Hok. rewrite updatePrices_run. cbn [snd]. cbv zeta.
  destruct (reachable_wellFormed w Hreach) as (Hck & Hact & Hkeyed).
  destruct (reachable_priced w Hreach) as [Hpa _].
  destruct (tick_fold_exact (activeSymbols w) w Hact Hpa Hkeyed Hck Hok)
    as (H1 & H2 & H3).
  unfold ticked. split; [exact H1 |]. split; [exact H3 |]. split.
  - intros s Hs. apply in_split in Hs. destruct Hs as (pre & post & E).
    destruct (tick_fold_advances (activeSymbols w) w Hact Hpa Hkeyed Hck)
      as (_ & _ & _ & _ & _ & H4 & _).
    destruct (H4 pre s post E) as (cur & Hcur & Hfin).
    eexists. split; [exact Hfin |]. cbn [advanceRecord id]. now apply Hkeyed.
  - intros call Hin. unfold tickCalls in Hin. apply in_flat_map in Hin.
    destruct Hin as (s & _ & Hin).
    destruct (JsMap.get s (stockPrices (fold_left updatedSymbol (activeSymbols w) w)));
      [| destruct Hin].
    apply In_fanoutCalls in Hin. destruct Hin as (k & c & _ & _ & ->).
    cbn [delivered]. now rewrite Hok.
Qed.

Lemma tick_fans_out_every_stored_record_example :
  reachable oneSubscriber /\
  (forall r, sendThrows (sockets oneSubscriber r) = false) /\
  clients (snd (updatePrices oneSubscriber)) = clients oneSubscriber /\
  map (fun call => (target call, messageType (payload call), delivered call))
    (tickCalls oneSubscriber (stockPrices (snd (updatePrices oneSubscriber)))
       (activeSymbols oneSubscriber)) =
    [(0, "ticker", true)].
Proof.
  assert (Hok : forall r, sendThrows (sockets oneSubscriber r) = false)
    by (intros r; reflexivity).
  split; [exact oneSubscriber_reachable |]. split; [exact Hok |].
  split;
    [exact (proj1 (tick_fans_out_every_stored_record _ oneSubscriber_reachable Hok)) |].
  vm_compute. reflexivity.
Defined.

(** * The sweep of dead connections *)

Lemma set_clients_const m w :
  m = clients w -> set_clients (fun _ => m) w = w.
Proof. intros ->. reflexivity. Qed.

Lemma filter_none {A : Type} (p : A -> bool) (l : list A) :
  (forall x, In x l -> p x = false) -> filter p l = [].
Proof.
  induction l as [|x l IH]; simpl; intros H; [reflexivity |].
  rewrite (H x (or_introl eq_refl)). apply IH. intros y Hy. apply H. now right.
Qed.

Lemma sweep_fold (w0 : World) :
  forall (rest pre : JsMap.t Session) (n : nat) (w : World),
    clients w = pre ++ rest ->
    NoDup (JsMap.keys (pre ++ rest)) ->
    sockets w = sockets w0 ->
    fold_left sweptOne (JsMap.keys rest) (n, w) =
    (n + List.length (filter (fun e => negb (socketOpen w0 e)) rest),
     set_clients (fun _ => pre ++ filter (socketOpen w0) rest) w).
Proof.
  induction rest as [|[k c] rest IH]; intros pre n w Hc Hnd Hso.
  - simpl. rewrite app_nil_r in *. rewrite Nat.add_0_r.
    now rewrite set_clients_const.
  - change (JsMap.keys ((k, c) :: rest)) with (k :: JsMap.keys rest).
    cbn [fold_left].
    assert (Hfresh : ~ In k (JsMap.keys pre) /\ ~ In k (JsMap.keys rest)).
    { unfold JsMap.keys in *. rewrite map_app in Hnd. cbn [map fst] in Hnd.
      apply NoDup_remove_2 in Hnd. rewrite in_app_iff in Hnd. tauto. }
    destruct Hfresh as [Hpre Hrest].
    assert (Hget : JsMap.get k (clients w) = Some c).
    { rewrite Hc, get_app_fresh by exact Hpre. simpl. now rewrite String.eqb_refl. }
    unfold sweptOne at 2. cbn [fst snd]. rewrite Hget, Hso.
    cbn [filter].
    change (isOPEN (readyState (sockets w0 (ws c)))) with (socketOpen w0 (k, c)).
    destruct (socketOpen w0 (k, c)) eqn:Eo; cbn [negb].
    + rewrite (IH (pre ++ [(k, c)]) n w).
      * now rewrite <- app_assoc.
      * rewrite <- app_assoc. exact Hc.
      * rewrite <- app_assoc. exact Hnd.
      * exact Hso.
    + rewrite (IH pre (S n) (set_clients (JsMap.delete k) w)).
      * cbn [List.length]. f_equal. lia.
      * cbn [clients set_clients]. rewrite Hc, delete_app.
        rewrite (delete_fresh k pre) by exact Hpre.
        simpl. rewrite String.eqb_refl. cbn [negb].
        f_equal. fold (JsMap.delete k rest). now apply delete_fresh.
      * unfold JsMap.keys in *. rewrite map_app in *. cbn [map fst] in Hnd.
        now apply NoDup_remove_1 in Hnd.
      * exact Hso.
Qed.

(** X15.  The sweep always completes normally, sends nothing, draws nothing
    and leaves the price table alone.  It removes exactly the sessions whose
    socket is not OPEN and keeps the others in their order.  When it removes
    at least one session it recomputes the active set from the sessions that
    stay; when every socket is open it changes nothing at all, so an active
    set that is out of step with the sessions stays out of step. *)
Theorem sweep_removes_exactly_the_closed :
  forall w : World,
    NoDup (JsMap.keys (clients w)) ->
    let w' := snd (cleanupConnections w) in
    fst (cleanupConnections w) = Normal tt /\
    clients w' = filter (socketOpen w) (clients w) /\
    stockPrices w' = stockPrices w /\ wire w' = wire w /\
    sockets w' = sockets w /\ draws w' = draws w /\
    clockReads w' = clockReads w /\
    ((forall k c, JsMap.get k (clients w) = Some c ->
                  readyState (sockets w (ws c)) = OPEN) ->
     w' = w) /\
    ((exists k c, JsMap.get k (clients w) = Some c /\
                  readyState (sockets w (ws c)) <> OPEN) ->
     activeSymbols w' = unionOfSessions (clients w') /\ activeInSync w').
Proof.
  intros w Hnd. cbv zeta. rewrite cleanupConnections_run. cbv zeta.
  rewrite (sweep_fold w (clients w) [] O w eq_refl Hnd eq_refl).
  cbn [fst snd app Nat.add].
  set (removed := List.length (filter (fun e => negb (socketOpen w e)) (clients w))).
  set (ws1 := set_clients (fun _ => filter (socketOpen w) (clients w)) w).
  assert (Hall : (forall k c, JsMap.get k (clients w) = Some c ->
                              readyState (sockets w (ws c)) = OPEN) ->
                 removed = O /\ ws1 = w).
  { intros H.
    assert (G : forall e, In e (clients w) -> socketOpen w e = true).
    { intros [k c] Hin. unfold socketOpen. cbn [snd].
      now rewrite (H k c (In_get k c _ Hnd Hin)). }
    split.
    - unfold removed. rewrite filter_none; [reflexivity |].
      intros e He. now rewrite (G e He).
    - unfold ws1. apply set_clients_const. now apply filter_all. }
  assert (Hsome : (exists k c, JsMap.get k (clients w) = Some c /\
                               readyState (sockets w (ws c)) <> OPEN) ->
                  (0 < removed)%nat).
  { intros (k & c & Hget & Hno). unfold removed.
    assert (Hin : In (k, c) (filter (fun e => negb (socketOpen w e)) (clients w))).
    { apply filter_In. split; [now apply JsMapFacts.get_In |].
      unfold socketOpen. cbn [snd].
      destruct (readyState (sockets w (ws c))); try reflexivity. congruence. }
    destruct (filter (fun e => negb (socketOpen w e)) (clients w));
      [destruct Hin | simpl; lia]. }
  destruct (Nat.ltb 0 removed) eqn:E.
  - rewrite recalculateActiveSymbols_run. cbn [fst snd].
    split; [reflexivity |]. split; [reflexivity |].
    split; [reflexivity |]. split; [reflexivity |]. split; [reflexivity |].
    split; [reflexivity |]. split; [reflexivity |]. split.
    + intros H. destruct (Hall H) as [H0 _]. apply Nat.ltb_lt in E. lia.
    + intros _. split; [reflexivity |].
      intros s. cbn [activeSymbols clients set_activeSymbols].
      apply In_unionOfSessions.
  - cbn [fst snd].
    split; [reflexivity |]. split; [reflexivity |].
    split; [reflexivity |]. split; [reflexivity |]. split; [reflexivity |].
    split; [reflexivity |]. split; [reflexivity |]. split.
    + intros H. now destruct (Hall H).
    + intros H. apply Hsome in H. apply Nat.ltb_ge in E. lia.
Qed.

Lemma sweep_removes_exactly_the_closed_example :
  let w := set_sockets (fun r => {| readyState := if Nat.eqb r 1 then CLOSED else OPEN;
                                    sendThrows := false |}) exampleWorld in
  NoDup (JsMap.keys (clients w)) /\
  JsMap.keys (clients (snd (cleanupConnections w))) = ["client_a"; "client_c"] /\
  activeSymbols (snd (cleanupConnections w)) = ["AAPL"; "MSFT"] /\
  snd (cleanupConnections exampleWorld) = exampleWorld /\
  wire (snd (cleanupConnections w)) = wire w.
Proof.
  cbv zeta.
  assert (H : NoDup (JsMap.keys
                       (clients
                          (set_sockets
                             (fun r => {| readyState := if Nat.eqb r 1 then CLOSED else OPEN;
                                          sendThrows := false |}) exampleWorld)))).
  { simpl. repeat (constructor; [simpl; intuition discriminate |]). constructor. }
  split; [exact H |]. split; [vm_compute; reflexivity |].
  split; [vm_compute; reflexivity |]. split; [vm_compute; reflexivity |].
  exact (proj1 (proj2 (proj2 (proj2 (sweep_removes_exactly_the_closed _ H))))).
Defined.

(** * Disconnecting *)

Lemma delete_idempotent {V : Type} k (m : JsMap.t V) :
  JsMap.delete k (JsMap.delete k m) = JsMap.delete k m.
Proof.
  unfold JsMap.delete. induction m as [|e m IH]; simpl; [reflexivity |].
  destruct (negb (String.eqb k (fst e))) eqn:E; simpl; [| exact IH].
  rewrite E. now rewrite IH.
Qed.

(** X16.  The [close] and the [error] listener run the same handler.  From
    any world, whether or not the identifier is registered, it completes
    normally, deletes the session of the identifier and no other, and leaves
    the active set equal to the union of the symbols of the sessions that
    stay (so it puts right an active set that was out of step).  Running it
    a second time, as when [error] is followed by [close], changes nothing
    more. *)
Theorem disconnect_resynchronizes_and_is_idempotent :
  forall (w : World) (clientId : string),
    let w' := snd (handleClientDisconnect clientId w) in
    fst (handleClientDisconnect clientId w) = Normal tt /\
    react (Close clientId) w = w' /\ react (Fault clientId) w = w' /\
    clients w' = JsMap.delete clientId (clients w) /\
    (JsMap.get clientId (clients w) = None -> clients w' = clients w) /\
    activeSymbols w' = unionOfSessions (clients w') /\
    activeInSync w' /\
    stockPrices w' = stockPrices w /\ wire w' = wire w /\
    snd (handleClientDisconnect clientId w') = w'.
Proof.
  intros w clientId. cbv zeta. cbn [react]. unfold onClose, onError.
  rewrite !handleClientDisconnect_run. cbn [fst snd].
  split; [reflexivity |]. split; [reflexivity |]. split; [reflexivity |].
  split; [reflexivity |]. split.
  { intros H. cbn [disconnected clients set_activeSymbols set_clients].
    apply delete_fresh. now apply JsMapFacts.get_None. }
  split; [reflexivity |]. split.
  { intros s. cbn [disconnected activeSymbols clients set_activeSymbols set_clients].
    apply In_unionOfSessions. }
  split; [reflexivity |]. split; [reflexivity |].
  unfold disconnected, set_activeSymbols, set_clients.
  cbn [clients activeSymbols stockPrices sockets wire entropy draws wallClock clockReads].
  now rewrite delete_idempotent.
Qed.

Lemma unionOfSessions_empty m :
  (forall k c, JsMap.get k m = Some c -> subscribedSymbols c = []) ->
  unionOfSessions m = [].
Proof.
  intros H. destruct (unionOfSessions m) as [|s l] eqn:E; [reflexivity |].
  assert (Hin : In s (unionOfSessions m)) by (rewrite E; now left).
  apply In_unionOfSessions in Hin. destruct Hin as (k & c & Hget & Hs).
  rewrite (H k c Hget) in Hs. destruct Hs.
Qed.

(** X17.  When the last session that holds symbols disconnects, the active
    set becomes empty and the prices freeze: every later tick returns at
    once, makes no draw, reads no clock, sends nothing and leaves every
    record as it is, for as many ticks as come.  The records stay in the
    table. *)
Theorem ticks_do_nothing_without_subscriptions :
  forall (w : World) (clientId : string) (n : nat),
    (forall k c, k <> clientId -> JsMap.get k (clients w) = Some c ->
                 subscribedSymbols c = []) ->
    let w1 := react (Close clientId) w in
    activeSymbols w1 = [] /\
    stockPrices w1 = stockPrices w /\
    updatePrices w1 = (Normal tt, w1) /\
    run (repeat Tick n) w1 = w1.
Proof.
  intros w clientId n H. cbv zeta. cbn [react]. unfold onClose.
  rewrite handleClientDisconnect_run. cbn [snd].
  assert (Ha : activeSymbols (disconnected clientId w) = []).
  { cbn [disconnected activeSymbols clients set_activeSymbols set_clients].
    apply unionOfSessions_empty. intros k c Hget.
    destruct (string_dec clientId k) as [<- | Hne].
    - now rewrite JsMapFacts.get_delete_same in Hget.
    - apply (H k c); [congruence |]. now apply get_delete_Some in Hget. }
  assert (Ht : updatePrices (disconnected clientId w) =
               (Normal tt, disconnected clientId w)).
  { rewrite updatePrices_run. unfold ticked. now rewrite Ha. }
  split; [exact Ha |]. split; [reflexivity |]. split; [exact Ht |].
  induction n as [|n IH]; [reflexivity |].
  cbn [repeat run fold_left react]. rewrite Ht. cbn [snd]. exact IH.
Qed.

Lemma ticks_do_nothing_without_subscriptions_example :
  (forall k c, k <> "client_i" -> JsMap.get k (clients oneSubscriber) = Some c ->
               subscribedSymbols c = []) /\
  activeSymbols oneSubscriber = ["AAPL"] /\
  activeSymbols (react (Close "client_i") oneSubscriber) = [] /\
  draws (run (repeat Tick 3) (react (Close "client_i") oneSubscriber)) =
    draws oneSubscriber /\
  run (repeat Tick 3) (react (Close "client_i") oneSubscriber) =
    react (Close "client_i") oneSubscriber.
Proof.
  assert (H : forall k c, k <> "client_i" ->
                          JsMap.get k (clients oneSubscriber) = Some c ->
                          subscribedSymbols c = []).
  { intros k c Hne Hget. apply JsMapFacts.get_In in Hget.
    destruct Hget as [[= <- _] | []]. now contradiction Hne. }
  split; [exact H |]. split; [reflexivity |]. split; [vm_compute; reflexivity |].
  split; [vm_compute; reflexivity |].
  exact (proj2 (proj2 (proj2 (ticks_do_nothing_without_subscriptions
                                oneSubscriber "client_i" 3 H)))).
Defined.

(** * Requests that get no answer, and answers that cannot be sent *)

(** X18.  A subscribe or an unsubscribe request of a registered client whose
    [symbols] member is missing or is no array (a string, a number, an
    object, [null]) is dropped: the listener completes normally, no table
    changes and no frame is sent, not even an error frame.  A subscribe
    request with the empty list does as little. *)
Theorem malformed_subscription_is_dropped_silently :
  forall (w : World) (clientId : string) (r : WsRef) (c : Session) (data : Json),
    JsMap.get clientId (clients w) = Some c ->
    memberOf "type" data = Some (JStr "subscribe") \/
    memberOf "type" data = Some (JStr "unsubscribe") ->
    (Array_isArray (memberOf "symbols" data) = false ->
     onMessage clientId r (Some data) w = (Normal tt, w)) /\
    (memberOf "type" data = Some (JStr "subscribe") ->
     memberOf "symbols" data = Some (JArr []) ->
     onMessage clientId r (Some data) w = (Normal tt, w)).
Proof.
  intros w clientId r c data Hc Htype. split.
  - intros Harr. unfold onMessage, tryCatch.
    destruct Htype as [Ht | Ht].
    + rewrite (handleClientMessage_subscribe clientId c data w Hc Ht).
      rewrite handleSubscribe_ignored; [reflexivity | now right].
    + rewrite (handleClientMessage_unsubscribe clientId c data w Hc Ht).
      rewrite handleUnsubscribe_ignored; [reflexivity | now right].
  - intros Ht Hl. unfold onMessage, tryCatch.
    rewrite (handleClientMessage_subscribe clientId c data w Hc Ht), Hl.
    rewrite (handleSubscribe_run clientId c [] w Hc). reflexivity.
Qed.

Lemma malformed_subscription_is_dropped_silently_example :
  let request := JObj [("type", JStr "subscribe"); ("symbols", JStr "AAPL")] in
  JsMap.get "client_i" (clients oneClient) =
    Some {| ws := 0; subscribedSymbols := []; lastPing := 0 |} /\
  (memberOf "type" request = Some (JStr "subscribe") \/
   memberOf "type" request = Some (JStr "unsubscribe")) /\
  Array_isArray (memberOf "symbols" request) = false /\
  onMessage "client_i" 0 (Some request) oneClient = (Normal tt, oneClient).
Proof.
  cbv zeta.
  assert (Hc : JsMap.get "client_i" (clients oneClient) =
               Some {| ws := 0; subscribedSymbols := []; lastPing := 0 |})
    by reflexivity.
  split; [exact Hc |]. split; [left; reflexivity |]. split; [reflexivity |].
  exact (proj1 (malformed_subscription_is_dropped_silently oneClient "client_i" 0 _
                  (JObj [("type", JStr "subscribe"); ("symbols", JStr "AAPL")])
                  Hc (or_introl eq_refl)) eq_refl).
Defined.

Lemma registered_has clientId l :
  forall w s,
    In s l \/ JsMap.has s (stockPrices w) = true ->
    JsMap.has s (stockPrices (registered clientId l w)) = true.
Proof.
  unfold registered. induction l as [|x l IH]; intros w s H; simpl.
  - destruct H as [[] | H]. exact H.
  - apply IH. unfold subscribedOne.
    destruct H as [[<- | H] | H]; [right | now left | right];
      apply ensured_has; cbn [stockPrices set_activeSymbols set_clients]; auto.
Qed.




(** X20.  A session that the fan-out removed because the [send] to it threw
    is not registered any more, though its socket may still be connected.
    From then on every message that parses, sent under its identifier, is
    dropped: no table changes and nothing is sent back, not a pong for a
    ping and no snapshot for a subscribe request.  Only a text that does not
    parse still gets the error frame. *)
Theorem removed_session_is_ignored :
  forall (tickerData : PriceRecord) (w : World) (clientId : string) (c : Session),
    NoDup (JsMap.keys (clients w)) ->
    JsMap.get clientId (clients w) = Some c ->
    sendFails tickerData w c = true ->
    let w1 := snd (broadcastToClients tickerData w) in
    JsMap.get clientId (clients w1) = None /\
    (forall r data, onMessage clientId r (Some data) w1 = (Normal tt, w1)) /\
    (forall r,
       wire (snd (onMessage clientId r None w1)) =
       wire w1 ++ [ {| target := r; payload := Error "Invalid JSON message";
                       delivered := negb (sendThrows (sockets w1 r)) |} ]).
Proof.
  intros tickerData w clientId c Hnd Hc Hfail. cbv zeta.
  rewrite broadcastToClients_run. cbn [snd].
  destruct (deliver_fold tickerData w (clients w) [] w eq_refl Hnd eq_refl)
    as (Hclients & _ & _).
  assert (Hgone : JsMap.get clientId
                    (clients (fold_left (deliverTo tickerData)
                                (JsMap.keys (clients w)) w)) = None).
  { rewrite Hclients. cbn [app].
    rewrite (get_filter _ _ _ _ Hnd Hc). cbn [snd]. now rewrite Hfail. }
  split; [exact Hgone |]. split.
  - intros r data. now apply onMessage_unregistered.
  - intros r. rewrite onMessage_unparseable. reflexivity.
Qed.

Lemma removed_session_is_ignored_example :
  NoDup (JsMap.keys (clients exampleWorld)) /\
  JsMap.get "client_b" (clients exampleWorld) =
    Some {| ws := 1; subscribedSymbols := ["AAPL"]; lastPing := 0 |} /\
  sendFails exampleRecord exampleWorld
    {| ws := 1; subscribedSymbols := ["AAPL"]; lastPing := 0 |} = true /\
  JsMap.get "client_b" (clients (snd (broadcastToClients exampleRecord exampleWorld))) =
    None /\
  onMessage "client_b" 1 (Some (JObj [("type", JStr "ping")]))
    (snd (broadcastToClients exampleRecord exampleWorld)) =
  (Normal tt, snd (broadcastToClients exampleRecord exampleWorld)).
Proof.
  assert (Hnd : NoDup (JsMap.keys (clients exampleWorld))).
  { simpl. repeat (constructor; [simpl; intuition discriminate |]). constructor. }
  assert (Hc : JsMap.get "client_b" (clients exampleWorld) =
               Some {| ws := 1; subscribedSymbols := ["AAPL"]; lastPing := 0 |})
    by reflexivity.
  assert (Hf : sendFails exampleRecord exampleWorld
                 {| ws := 1; subscribedSymbols := ["AAPL"]; lastPing := 0 |} = true)
    by reflexivity.
  split; [exact Hnd |]. split; [exact Hc |]. split; [exact Hf |].
  destruct (removed_session_is_ignored exampleRecord exampleWorld "client_b" _
              Hnd Hc Hf) as (H1 & H2 & _).
  split; [exact H1 |]. apply H2.
Defined.

(** * Subscribing again, and subscribing and unsubscribing *)

Lemma onlySends_refl w : onlySends w w.
Proof. split; [apply sameTablesButClients_refl | reflexivity]. Qed.

Lemma onlySends_trans w1 w2 w3 : onlySends w1 w2 -> onlySends w2 w3 -> onlySends w1 w3.
Proof.
  intros [H1 E1] [H2 E2]. split; [| congruence].
  now apply (sameTablesButClients_trans w1 w2 w3).
Qed.

Lemma snapshots_onlySend r l :
  keeps onlySends
    (forEach l (fun symbol =>
                  currentData <- gets (fun w => JsMap.get symbol (stockPrices w)) ;;
                  match currentData with
                  | Some currentData => ws_send r (Ticker currentData)
                  | None => ret tt
                  end)).
Proof.
  apply (keeps_forEach onlySends onlySends_refl onlySends_trans). intros x.
  apply (keeps_bind onlySends onlySends_trans);
    [apply (keeps_gets onlySends onlySends_refl) |].
  intros [d|]; [| apply (keeps_ret onlySends onlySends_refl)].
  apply steps_send. intros call w.
  split; [| reflexivity]. unfold sameTablesButClients. cbn. auto 10.
Qed.

Lemma mutateSession_fresh k f m :
  ~ In k (JsMap.keys m) -> mutateSession k f m = m.
Proof.
  unfold mutateSession. induction m as [|[k0 c0] m IH]; simpl; intros H;
    [reflexivity |].
  destruct (String.eqb k k0) eqn:E.
  - apply String.eqb_eq in E. subst. exfalso. apply H. now left.
  - f_equal. apply IH. intros Hin. apply H. now right.
Qed.

Lemma mutateSession_fixed k f m c :
  NoDup (JsMap.keys m) -> JsMap.get k m = Some c -> f c = c ->
  mutateSession k f m = m.
Proof.
  intros Hnd Hget Hf. induction m as [|[k0 c0] m IH]; [discriminate |].
  simpl in Hnd. inversion Hnd as [|? ? Hnotin Hnd']; subst.
  simpl in Hget. unfold mutateSession. cbn [map fst snd].
  destruct (String.eqb k k0) eqn:E.
  - apply String.eqb_eq in E. subst k0. injection Hget as ->.
    rewrite Hf. f_equal. now apply mutateSession_fresh.
  - f_equal. now apply IH.
Qed.

Lemma set_clients_fixed f w : f (clients w) = clients w -> set_clients f w = w.
Proof. intros H. unfold set_clients. now rewrite H. Qed.

Lemma set_activeSymbols_fixed f w :
  f (activeSymbols w) = activeSymbols w -> set_activeSymbols f w = w.
Proof. intros H. unfold set_activeSymbols. now rewrite H. Qed.

Lemma add_present x s : In x s -> JsSet.add x s = s.
Proof.
  intros H. unfold JsSet.add. apply JsSetFacts.has_In in H. now rewrite H.
Qed.

Lemma subscribedOne_again clientId c w s :
  NoDup (JsMap.keys (clients w)) ->
  JsMap.get clientId (clients w) = Some c ->
  In s (subscribedSymbols c) -> In s (activeSymbols w) ->
  JsMap.has s (stockPrices w) = true ->
  subscribedOne clientId w s = w.
Proof.
  intros Hnd Hc Hs Ha Hp. unfold subscribedOne.
  rewrite (set_clients_fixed _ w).
  - rewrite (set_activeSymbols_fixed _ w) by (now apply add_present).
    unfold ensured. now rewrite Hp.
  - apply (mutateSession_fixed _ _ _ c Hnd Hc).
    unfold with_subscribedSymbols. rewrite add_present by exact Hs.
    now destruct c.
Qed.

(** X21.  In a world the server can reach, a subscribe request of a
    registered client for symbols that the client subscribes to already
    changes no table, makes no draw and does not read the clock: the
    sessions, the active set and the price records stay as they are.  It
    only sends again, when [send] does not throw, one snapshot of the
    stored record for each symbol of the list. *)
Theorem subscribing_again_only_resends_snapshots :
  forall (w : World) (clientId : string) (c : Session) (l : list string),
    reachable w ->
    JsMap.get clientId (clients w) = Some c ->
    (forall s, In s l -> In s (subscribedSymbols c)) ->
    let out := handleSubscribe clientId (Some (JArr l)) w in
    clients (snd out) = clients w /\
    activeSymbols (snd out) = activeSymbols w /\
    stockPrices (snd out) = stockPrices w /\
    draws (snd out) = draws w /\ clockReads (snd out) = clockReads w /\
    (sendThrows (sockets w (ws c)) = false ->
     out = (Normal tt, record_sends (snapshotCalls (ws c) l (stockPrices w)) w)).
Proof.
  intros w clientId c l Hreach Hc Hl. cbv zeta.
  destruct (reachable_wellFormed w Hreach) as (Hck & _ & _).
  destruct (reachable_priced w Hreach) as [_ Hps].
  pose proof (reachable_covered w Hreach) as Hcov.
  assert (E : registered clientId l w = w).
  { unfold registered. induction l as [|x l IH]; [reflexivity |].
    cbn [fold_left].
    rewrite (subscribedOne_again clientId c w x Hck Hc).
    - apply IH. intros s Hs. apply Hl. now right.
    - apply Hl. now left.
    - apply (Hcov clientId c x Hc). apply Hl. now left.
    - apply (Hps clientId c x Hc). apply Hl. now left. }
  rewrite (handleSubscribe_run clientId c l w Hc), E.
  destruct (snapshots_onlySend (ws c) l w)
    as [(_ & Ha & Hp & Hd & Hcr & _ & _) Hcl].
  split; [exact Hcl |]. split; [exact Ha |]. split; [exact Hp |].
  split; [exact Hd |]. split; [exact Hcr |].
  intros Hs. now apply snapshots_delivered.
Qed.

Lemma subscribing_again_only_resends_snapshots_example :
  reachable oneSubscriber /\
  JsMap.get "client_i" (clients oneSubscriber) =
    Some {| ws := 0; subscribedSymbols := ["AAPL"]; lastPing := 0 |} /\
  (forall s, In s ["AAPL"] -> In s ["AAPL"]) /\
  stockPrices (snd (handleSubscribe "client_i" (Some (JArr ["AAPL"])) oneSubscriber)) =
    stockPrices oneSubscriber /\
  draws (snd (handleSubscribe "client_i" (Some (JArr ["AAPL"])) oneSubscriber)) = 5 /\
  List.length
    (wire (snd (handleSubscribe "client_i" (Some (JArr ["AAPL"])) oneSubscriber))) = 3.
Proof.
  assert (Hc : JsMap.get "client_i" (clients oneSubscriber) =
               Some {| ws := 0; subscribedSymbols := ["AAPL"]; lastPing := 0 |})
    by reflexivity.
  split; [exact oneSubscriber_reachable |]. split; [exact Hc |].
  split; [exact (fun s H => H) |].
  destruct (subscribing_again_only_resends_snapshots oneSubscriber "client_i" _
              ["AAPL"] oneSubscriber_reachable Hc (fun s H => H))
    as (_ & _ & Hp & _).
  split; [exact Hp |]. split; vm_compute; reflexivity.
Defined.

Lemma addAll_appends l :
  forall s, exists t, JsSet.addAll l s = s ++ t /\ forall x, In x t -> In x l.
Proof.
  unfold JsSet.addAll. induction l as [|x l IH]; intros s; cbn [fold_left].
  - exists []. rewrite app_nil_r. split; [reflexivity | intros x []].
  - assert (Hadd : JsSet.add x s = s \/ JsSet.add x s = s ++ [x]).
    { unfold JsSet.add. destruct (JsSet.has x s); auto. }
    destruct (IH (JsSet.add x s)) as [t [E Ht]].
    destruct Hadd as [Ha | Ha].
    + exists t. split; [now rewrite E, Ha | intros y Hy; right; now apply Ht].
    + exists (x :: t). split.
      * rewrite E, Ha, <- app_assoc. reflexivity.
      * intros y [<- | Hy]; [now left | right; now apply Ht].
Qed.

Lemma deleteAll_filter l :
  forall u, JsSet.deleteAll l u = filter (fun y => negb (JsSet.has y l)) u.
Proof.
  unfold JsSet.deleteAll. induction l as [|x l IH]; intros u; cbn [fold_left].
  - symmetry. now apply filter_all.
  - rewrite IH. unfold JsSet.delete.
    induction u as [|y u IHu]; [reflexivity |]. cbn [filter].
    unfold JsSet.has at 2. cbn [existsb]. fold (JsSet.has y l).
    rewrite (String.eqb_sym y x).
    destruct (String.eqb x y); cbn [negb filter orb]; [exact IHu |].
    destruct (JsSet.has y l); cbn [negb]; [exact IHu | now rewrite IHu].
Qed.

Lemma deleteAll_addAll l s :
  (forall x, In x l -> ~ In x s) -> JsSet.deleteAll l (JsSet.addAll l s) = s.
Proof.
  intros H. destruct (addAll_appends l s) as [t [E Ht]].
  rewrite E, deleteAll_filter, filter_app.
  rewrite (filter_all _ s), (filter_none _ t); [apply app_nil_r | |].
  - intros x Hx. apply negb_false_iff. apply JsSetFacts.has_In. now apply Ht.
  - intros x Hx. apply negb_true_iff. apply JsSetFacts.has_false.
    intros Hl. now apply (H x Hl).
Qed.

Lemma registered_clients clientId l :
  forall w,
    clients (registered clientId l w) =
    mutateSession clientId (with_subscribedSymbols (JsSet.addAll l)) (clients w).
Proof.
  unfold registered. induction l as [|x l IH]; intros w; cbn [fold_left].
  - symmetry. apply mutateSession_id.
  - rewrite IH. unfold subscribedOne.
    match goal with |- context [ensured x ?w1] =>
      destruct (ensured_frame x w1) as (E1 & _) end.
    rewrite E1. cbn [clients set_activeSymbols set_clients].
    rewrite mutateSession_compose. apply mutateSession_ext.
    intros c. reflexivity.
Qed.

Lemma registered_keeps_records clientId l :
  forall w k rec,
    JsMap.get k (stockPrices w) = Some rec ->
    JsMap.get k (stockPrices (registered clientId l w)) = Some rec.
Proof.
  unfold registered. induction l as [|x l IH]; intros w k rec H; cbn [fold_left];
    [exact H |].
  apply IH. unfold subscribedOne, ensured.
  cbn [stockPrices set_activeSymbols set_clients].
  destruct (JsMap.has x (stockPrices w)) eqn:E; [exact H |].
  cbn [stockPrices initialized]. rewrite JsMapFacts.get_set_other; [exact H |].
  intros ->. unfold JsMap.has in E. now rewrite H in E.
Qed.

(** X22.  A subscribe request of a registered client for symbols it does not
    subscribe to, followed by its unsubscribe request for the same list,
    puts the sessions back exactly as they were and leaves the active set
    equal to the union of the symbols of the sessions.  The price table is
    not put back: every listed symbol keeps the record the subscribe request
    found or made, and the records that were there stay as they were. *)
Theorem subscribe_then_unsubscribe_restores_sessions :
  forall (w : World) (clientId : string) (c : Session) (l : list string),
    NoDup (JsMap.keys (clients w)) ->
    JsMap.get clientId (clients w) = Some c ->
    (forall s, In s l -> ~ In s (subscribedSymbols c)) ->
    let w1 := snd (handleSubscribe clientId (Some (JArr l)) w) in
    let w2 := snd (handleUnsubscribe clientId (Some (JArr l)) w1) in
    JsMap.get clientId (clients w1) =
      Some (with_subscribedSymbols (JsSet.addAll l) c) /\
    clients w2 = clients w /\
    activeSymbols w2 = unionOfSessions (clients w) /\
    activeInSync w2 /\
    (forall s, In s l -> JsMap.has s (stockPrices w2) = true) /\
    (forall k rec, JsMap.get k (stockPrices w) = Some rec ->
                   JsMap.get k (stockPrices w2) = Some rec).
Proof.
  intros w clientId c l Hnd Hc Hl. cbv zeta.
  rewrite (handleSubscribe_run clientId c l w Hc).
  destruct (snapshots_onlySend (ws c) l (registered clientId l w))
    as [(_ & _ & Hp & _) Hcl].
  set (w1 := snd (forEach l _ (registered clientId l w))) in *.
  assert (Hc1 : JsMap.get clientId (clients w1) =
                Some (with_subscribedSymbols (JsSet.addAll l) c)).
  { rewrite Hcl. exact (proj1 (registered_session clientId c l w Hc)). }
  rewrite (handleUnsubscribe_run clientId _ l w1 Hc1). cbn [snd].
  assert (Hback : mutateSession clientId
                    (with_subscribedSymbols (JsSet.deleteAll l)) (clients w1) =
                  clients w).
  { rewrite Hcl, registered_clients, mutateSession_compose.
    apply (mutateSession_fixed _ _ _ c Hnd Hc).
    unfold with_subscribedSymbols. cbn [subscribedSymbols ws lastPing].
    rewrite deleteAll_addAll by exact Hl. now destruct c. }
  split; [exact Hc1 |].
  unfold unsubscribed. cbn [clients activeSymbols stockPrices set_activeSymbols set_clients].
  rewrite Hback.
  split; [reflexivity |]. split; [reflexivity |]. split.
  { intros s. cbn [activeSymbols clients set_activeSymbols set_clients].
    rewrite Hback. apply In_unionOfSessions. }
  split.
  - intros s Hs. rewrite Hp. apply registered_has. now left.
  - intros k rec H. rewrite Hp. now apply registered_keeps_records.
Qed.

Lemma subscribe_then_unsubscribe_restores_sessions_example :
  NoDup (JsMap.keys (clients oneSubscriber)) /\
  JsMap.get "client_i" (clients oneSubscriber) =
    Some {| ws := 0; subscribedSymbols := ["AAPL"]; lastPing := 0 |} /\
  (forall s, In s ["ZZZ"] -> ~ In s ["AAPL"]) /\
  clients (snd (handleUnsubscribe "client_i" (Some (JArr ["ZZZ"]))
                  (snd (handleSubscribe "client_i" (Some (JArr ["ZZZ"]))
                          oneSubscriber)))) = clients oneSubscriber /\
  JsMap.keys
    (stockPrices (snd (handleUnsubscribe "client_i" (Some (JArr ["ZZZ"]))
                         (snd (handleSubscribe "client_i" (Some (JArr ["ZZZ"]))
                                 oneSubscriber))))) = ["AAPL"; "ZZZ"].
Proof.
  assert (Hnd : NoDup (JsMap.keys (clients oneSubscriber))).
  { vm_compute. repeat constructor. intros []. }
  assert (Hc : JsMap.get "client_i" (clients oneSubscriber) =
               Some {| ws := 0; subscribedSymbols := ["AAPL"]; lastPing := 0 |})
    by reflexivity.
  assert (Hl : forall s, In s ["ZZZ"] -> ~ In s ["AAPL"]).
  { intros s [<- | []] [H | []]. discriminate. }
  split; [exact Hnd |]. split; [exact Hc |]. split; [exact Hl |].
  split; [| vm_compute; reflexivity].
  exact (proj1 (proj2 (subscribe_then_unsubscribe_restores_sessions
                         oneSubscriber "client_i" _ ["ZZZ"] Hnd Hc Hl))).
Defined.

(** * The timers and the life cycle *)

Lemma happen_frame h p :
  intervals (happen h p) = intervals p /\
  priceUpdateInterval (happen h p) = priceUpdateInterval p /\
  nextHandle (happen h p) = nextHandle p /\
  closeCalls (happen h p) = closeCalls p.
Proof. destruct h; simpl; auto. Qed.

Lemma happen_reachable h p : reachable (tables p) -> reachable (tables (happen h p)).
Proof.
  intros H. destruct h as [e | i]; simpl.
  - now apply reachable_react.
  - destruct (callback i).
    + exact (reachable_react Sweep _ H).
    + exact (reachable_react Tick _ H).
Qed.

Lemma evolves_frame p p' :
  evolves p p' ->
  intervals p' = intervals p /\
  priceUpdateInterval p' = priceUpdateInterval p /\
  nextHandle p' = nextHandle p /\
  closeCalls p' = closeCalls p /\
  (reachable (tables p) -> reachable (tables p')).
Proof.
  induction 1 as [|h p' Hev IH Hen]; [auto 6 |].
  destruct IH as (H1 & H2 & H3 & H4 & H5).
  destruct (happen_frame h p') as (G1 & G2 & G3 & G4).
  repeat split; try congruence.
  intros Hr. apply happen_reachable. now apply H5.
Qed.

Lemma sweep_sends_nothing w :
  stockPrices (snd (cleanupConnections w)) = stockPrices w /\
  wire (snd (cleanupConnections w)) = wire w.
Proof.
  apply (steps_cleanupConnections
           (fun w w' => stockPrices w' = stockPrices w /\ wire w' = wire w)).
  - auto.
  - intros w1 w2 w3 [H1 H2] [H3 H4]. split; congruence.
  - intros clientId w0. auto.
  - intros w0. auto.
Qed.

(** X23.  A new server has two intervals armed: the sweep every 30 seconds
    and the price update every 2 seconds.  [stop] clears the price update
    and calls [close] on the WebSocket server and then on the HTTP server;
    it does not clear the sweep, whose handle [setupWebSocket] dropped.
    After [stop], whatever happens, the sweep is the only interval armed:
    the only timer that can fire is the sweep, which changes no price record
    and sends no frame, and no tick comes any more. *)
Theorem stop_clears_the_price_update_but_not_the_sweep :
  forall (net : WsRef -> Socket) (rnd : nat -> Q) (clk : nat -> Z) (p p' : Process),
    evolves (newServer net rnd clk) p ->
    evolves (stop p) p' ->
    intervals p = [sweepInterval; priceInterval] /\
    intervals p' = [sweepInterval] /\
    closeCalls p' = [Wss; HttpServer] /\
    reachable (tables p') /\
    forall i,
      enabled (Fires i) p' ->
      callback i = CleanupConnections /\
      stockPrices (tables (happen (Fires i) p')) = stockPrices (tables p') /\
      wire (tables (happen (Fires i) p')) = wire (tables p').
Proof.
  intros net rnd clk p p' Hp Hp'.
  destruct (evolves_frame _ _ Hp) as (H1 & H2 & H3 & H4 & H5).
  destruct (evolves_frame _ _ Hp') as (G1 & G2 & G3 & G4 & G5).
  assert (Hi : intervals p = [sweepInterval; priceInterval]) by exact H1.
  assert (Hs : intervals (stop p) = [sweepInterval]).
  { unfold stop. rewrite H2. cbn. rewrite Hi. reflexivity. }
  split; [exact Hi |]. split; [congruence |]. split.
  { rewrite G4. unfold stop. rewrite H2. cbn. now rewrite H4. }
  split.
  { apply G5. unfold stop. rewrite H2. cbn. apply H5. apply reachable_boot. }
  intros i Hen. cbn [enabled] in Hen. rewrite G1, Hs in Hen.
  destruct Hen as [<- | []]. split; [reflexivity |].
  cbn [happen fire tables sweepInterval callback].
  apply sweep_sends_nothing.
Qed.

Lemma stop_clears_the_price_update_but_not_the_sweep_example :
  let p := newServer (fun _ => exampleSocket false) (fun _ => 0.5%Q)
             (fun n => Z.of_nat n) in
  evolves p (happen (Listener (Connect 0)) p) /\
  evolves (stop (happen (Listener (Connect 0)) p))
    (happen (Fires sweepInterval) (stop (happen (Listener (Connect 0)) p))) /\
  map callback (intervals p) = [CleanupConnections; UpdatePrices] /\
  map callback (intervals (stop (happen (Listener (Connect 0)) p))) =
    [CleanupConnections] /\
  intervals (happen (Fires sweepInterval) (stop (happen (Listener (Connect 0)) p))) =
    [sweepInterval].
Proof.
  cbv zeta.
  set (p := newServer (fun _ => exampleSocket false) (fun _ => 0.5%Q)
              (fun n => Z.of_nat n)).
  assert (E1 : evolves p (happen (Listener (Connect 0)) p)).
  { apply evolves_step; [apply evolves_refl | reflexivity]. }
  assert (E2 : evolves (stop (happen (Listener (Connect 0)) p))
                 (happen (Fires sweepInterval)
                    (stop (happen (Listener (Connect 0)) p)))).
  { apply evolves_step; [apply evolves_refl |]. simpl. now left. }
  split; [exact E1 |]. split; [exact E2 |].
  split; [reflexivity |]. split; [reflexivity |].
  exact (proj1 (proj2 (stop_clears_the_price_update_but_not_the_sweep _ _ _ _ _
                         E1 E2))).
Defined.

(** X24.  [stop] clears only the interval that the last call of
    [startPriceSimulation] armed: for a server whose armed intervals all
    have handles given out before, calling [startPriceSimulation] and then
    [stop] leaves exactly the intervals that were armed before the call, an
    earlier price update among them.  So on a new server a second
    [startPriceSimulation] makes a price update that [stop] no longer
    clears. *)
Theorem stop_clears_only_the_last_price_update :
  forall p : Process,
    handlesGivenOut p ->
    intervals (startPriceSimulation p) =
      intervals p ++ [ {| handle := nextHandle p; callback := UpdatePrices;
                          delay := 2000 |} ] /\
    priceUpdateInterval (startPriceSimulation p) = Some (nextHandle p) /\
    intervals (stop (startPriceSimulation p)) = intervals p /\
    handlesGivenOut (startPriceSimulation p).
Proof.
  intros p H. unfold handlesGivenOut in *.
  split; [reflexivity |]. split; [reflexivity |]. split.
  - unfold stop, startPriceSimulation. cbn.
    rewrite filter_app. cbn. rewrite Nat.eqb_refl. cbn. rewrite app_nil_r.
    apply filter_all. intros i Hi. rewrite Forall_forall in H.
    apply negb_true_iff, Nat.eqb_neq. specialize (H i Hi). lia.
  - unfold startPriceSimulation. cbn. apply Forall_app. split.
    + eapply Forall_impl; [| exact H]. cbn. intros i Hi. lia.
    + constructor; [cbn; lia | constructor].
Qed.

Lemma stop_clears_only_the_last_price_update_example :
  let p := newServer (fun _ => exampleSocket false) (fun _ => 0.5%Q)
             (fun n => Z.of_nat n) in
  handlesGivenOut p /\
  map callback (intervals (stop p)) = [CleanupConnections] /\
  map callback (intervals (stop (startPriceSimulation p))) =
    [CleanupConnections; UpdatePrices] /\
  intervals (stop (startPriceSimulation p)) = intervals p.
Proof.
  cbv zeta.
  assert (H : handlesGivenOut
                (newServer (fun _ => exampleSocket false) (fun _ => 0.5%Q)
                   (fun n => Z.of_nat n))).
  { unfold handlesGivenOut. cbn. repeat constructor. }
  split; [exact H |]. split; [reflexivity |]. split; [reflexivity |].
  exact (proj1 (proj2 (proj2 (stop_clears_only_the_last_price_update _ H)))).
Defined.

(** * The answers to client messages (C7) *)







